(** * cyrus-sasl-oauth2-oidc: configuration loader and wire formats

    A shallow embedding of [oauth2_config.c] and of the test code around
    it (the wire-message builders of [tests/integration/test_utils.c], the
    test server and client, the base64 decoder and the counting macros of
    the unit tests), with the properties of the configuration model, of
    the mechanisms and of the claims validator stated over it.

    Conventions of the embedding.
    - A [char *] that may be NULL is an [option string]; the [string] is the
      content of the NUL-terminated buffer (it holds no NUL itself).
    - A [char **] with its count is an [option (list (option string))]
      (the cells of the array, each a possibly-NULL pointer) next to a [Z].
    - [int] and [long] values are [Z]; the ranges that the code tests
      ([INT_MIN], [INT_MAX], the clamping of [strtol]) are written out.
      Counters of tokens stay far below [INT_MAX] and are plain [Z].
    - Allocation ([malloc], [strdup]) is taken to succeed, so the
      out-of-memory exits of the C code are not represented.
    - The logging macros of [oauth2_plugin.h] are recorded as a trace of
      their invocations (level, format string, arguments). *)

From Equations Require Import Equations.
From Stdlib Require Import ZArith List String Ascii Bool Lia.
Import ListNotations.

Local Open Scope string_scope.
Local Open Scope Z_scope.
Local Open Scope list_scope.

(* ===================================================================== *)
(** * Part I: the program                                                 *)
(* ===================================================================== *)

(** ** The C library functions the sources call *)

Module CStr.

(** [strlen] *)
Definition strlen (s : string) : Z := Z.of_nat (String.length s).

(** [strchr(set, c) != NULL] for a character [c] other than NUL. *)
Fixpoint mem (set : string) (c : ascii) : bool :=
  match set with
  | EmptyString => false
  | String d set' => Ascii.eqb c d || mem set' c
  end.

(** [s + strspn(s, delim)]: the suffix left after the leading run of
    delimiter characters. *)
Fixpoint skip_span (delim s : string) : string :=
  match s with
  | EmptyString => EmptyString
  | String c s' => if mem delim c then skip_span delim s' else s
  end.

(** The token that starts at [s] (the [strcspn(s, delim)] leading
    characters) and the pointer [strtok] saves: one past the delimiter
    it overwrites with NUL, or the end of the string. *)
Fixpoint scan_token (delim s : string) : string * string :=
  match s with
  | EmptyString => (EmptyString, EmptyString)
  | String c s' =>
      if mem delim c then (EmptyString, s')
      else let '(tok, save) := scan_token delim s' in (String c tok, save)
  end.

(** [strtok]: its hidden static pointer is the explicit [save] string.
    [strtok delim s] is both the first call [strtok(s, delim)] and, on
    the saved pointer, the continuation [strtok(NULL, delim)]; it
    returns the token (NULL when none is left) and the new saved
    pointer. *)
Definition strtok (delim s : string) : option string * string :=
  match skip_span delim s with
  | EmptyString => (None, EmptyString)
  | String c r => let '(tok, save) := scan_token delim (String c r) in (Some tok, save)
  end.

(** [<ctype.h>] in the C locale, on the character code. *)
Definition code (c : ascii) : Z := Z.of_nat (nat_of_ascii c).

Definition isspace (c : ascii) : bool :=
  (code c =? 32) || ((9 <=? code c) && (code c <=? 13)).

Definition isdigit (c : ascii) : bool :=
  (48 <=? code c) && (code c <=? 57).

Definition isupper (c : ascii) : bool :=
  (65 <=? code c) && (code c <=? 90).

Definition tolower (c : ascii) : ascii :=
  if isupper c then ascii_of_nat (nat_of_ascii c + 32) else c.

(** [strcasecmp]: the difference of the first pair of bytes that differ
    once both are lowered; the end of a string counts as NUL. *)
Fixpoint strcasecmp (a b : string) : Z :=
  match a, b with
  | EmptyString, EmptyString => 0
  | EmptyString, String d _ => 0 - code (tolower d)
  | String c _, EmptyString => code (tolower c)
  | String c a', String d b' =>
      let r := code (tolower c) - code (tolower d) in
      if r =? 0 then strcasecmp a' b' else r
  end.

(** [<limits.h>] on an LP64 platform. *)
Definition INT_MAX : Z := 2147483647.
Definition INT_MIN : Z := -2147483648.
Definition LONG_MAX : Z := 9223372036854775807.
Definition LONG_MIN : Z := -9223372036854775808.

Fixpoint skip_space (s : string) : string :=
  match s with
  | EmptyString => EmptyString
  | String c s' => if isspace c then skip_space s' else s
  end.

(** The run of decimal digits at the head of [s], accumulated onto
    [acc], and the suffix that follows it. *)
Fixpoint scan_digits (acc : Z) (s : string) : Z * string :=
  match s with
  | EmptyString => (acc, EmptyString)
  | String c s' =>
      if isdigit c then scan_digits (10 * acc + (code c - 48)) s' else (acc, s)
  end.

(** The optional sign in front of the digits: whether it is a minus,
    and what follows it. *)
Definition split_sign (s : string) : bool * string :=
  match s with
  | String "-" r => (true, r)
  | String "+" r => (false, r)
  | _ => (false, s)
  end.

(** [strtol(nptr, &endptr, 10)]: leading white space, an optional sign,
    then decimal digits; the value is clamped to the range of [long].
    The second component is [endptr], as the suffix of [nptr] it points
    to; with no digits no conversion is performed, the value is 0 and
    [endptr] is [nptr] itself. *)
Definition strtol (nptr : string) : Z * string :=
  let s := skip_space nptr in
  let '(neg, s1) := split_sign s in
  match s1 with
  | EmptyString => (0, nptr)
  | String c _ =>
      if isdigit c then
        let '(mag, endptr) := scan_digits 0 s1 in
        let v := if neg then - mag else mag in
        (Z.max LONG_MIN (Z.min LONG_MAX v), endptr)
      else (0, nptr)
  end.

(** Two pointers into the same buffer are equal when the same number of
    characters is left after them. *)
Definition same_ptr (p q : string) : bool :=
  Nat.eqb (String.length p) (String.length q).

(** [snprintf(buf, size, ...)] keeps at most [size - 1] characters of the
    formatted text. *)
Definition snprintf (size : Z) (formatted : string) : string :=
  String.substring 0 (Z.to_nat (size - 1)) formatted.

(** [strstr(haystack, needle)]: the first occurrence of [needle] in
    [haystack], as the text from there on, or NULL. *)
Fixpoint strstr (haystack needle : string) : option string :=
  if String.prefix needle haystack then Some haystack
  else
    match haystack with
    | EmptyString => None
    | String _ rest => strstr rest needle
    end.

End CStr.

(** Termination of the [while (token)] loops over [strtok]. Their
    measure: a live token with [save] still to be scanned. *)
Definition tok_measure (token : option string) (save : string) : nat :=
  match token with
  | None => O
  | Some _ => S (String.length save)
  end.

Lemma scan_token_save_le delim s :
  (String.length (snd (CStr.scan_token delim s)) <= String.length s)%nat.
Proof.
  induction s as [|c s IH]; simpl; [lia|].
  destruct (CStr.mem delim c); simpl; [lia|].
  destruct (CStr.scan_token delim s) as [tok save]; simpl in *; lia.
Qed.

Lemma skip_span_le delim s :
  (String.length (CStr.skip_span delim s) <= String.length s)%nat.
Proof.
  induction s as [|c s IH]; simpl; [lia|].
  destruct (CStr.mem delim c); simpl; lia.
Qed.

Lemma skip_span_head delim s c r :
  CStr.skip_span delim s = String c r -> CStr.mem delim c = false.
Proof.
  induction s as [|d s IH]; simpl; [discriminate|].
  destruct (CStr.mem delim d) eqn:E; [exact IH|].
  intros H; injection H as -> _; exact E.
Qed.

Lemma strtok_decreases delim s :
  (tok_measure (fst (CStr.strtok delim s)) (snd (CStr.strtok delim s))
   < S (String.length s))%nat.
Proof.
  unfold CStr.strtok.
  destruct (CStr.skip_span delim s) as [|c r] eqn:E; simpl; [lia|].
  pose proof (skip_span_head _ _ _ _ E) as Hc.
  pose proof (skip_span_le delim s) as Hle. rewrite E in Hle. simpl in Hle.
  rewrite Hc.
  pose proof (scan_token_save_le delim r) as Hs.
  destruct (CStr.scan_token delim r) as [tok save]; simpl in *; lia.
Qed.

(** ** The host framework: <sasl/sasl.h> and <sasl/saslplug.h> *)

Module Sasl.

Definition SASL_CONTINUE : Z := 1.
Definition SASL_OK : Z := 0.
Definition SASL_FAIL : Z := -1.
Definition SASL_NOMEM : Z := -2.
Definition SASL_BADPROT : Z := -5.
Definition SASL_BADPARAM : Z := -7.
Definition SASL_BADAUTH : Z := -13.

(** The part of [sasl_utils_t] the loader uses: the settings callback
    [getopt(context, plugin_name, option, &result, NULL)], as the
    return code and the pointer it stores in [*result]. *)
Record sasl_utils_t := {
  getopt : string -> string -> Z * option string
}.

End Sasl.

(** ** oauth2_plugin.h: what oauth2_config.c takes from it

    The header is not part of the sources at hand. The setting names and
    the defaults it defines are a parameter of the loader. *)

Record plugin_macros := {
  OAUTH2_CONF_DISCOVERY_URLS : string;
  OAUTH2_CONF_DISCOVERY_URL : string;
  OAUTH2_CONF_ISSUERS : string;
  OAUTH2_CONF_ISSUER : string;
  OAUTH2_CONF_CLIENT_ID : string;
  OAUTH2_CONF_CLIENT_SECRET : string;
  OAUTH2_CONF_AUDIENCES : string;
  OAUTH2_CONF_AUDIENCE : string;
  OAUTH2_CONF_SCOPE : string;
  OAUTH2_CONF_USER_CLAIM : string;
  OAUTH2_CONF_VERIFY_SIGNATURE : string;
  OAUTH2_CONF_SSL_VERIFY : string;
  OAUTH2_CONF_TIMEOUT : string;
  OAUTH2_CONF_DEBUG : string;
  OAUTH2_DEFAULT_SCOPE : string;
  OAUTH2_DEFAULT_USER_CLAIM : string;
  OAUTH2_DEFAULT_VERIFY_SIGNATURE : Z;
  OAUTH2_DEFAULT_SSL_VERIFY : Z;
  OAUTH2_DEFAULT_TIMEOUT : Z;
  OAUTH2_DEFAULT_DEBUG : Z
}.

(** [oauth2_config_t] (declared in oauth2_plugin.h), with the fields
    oauth2_config.c reads and writes. [oauth2_log] tells whether the
    liboauth2 logging context is set. *)
Record oauth2_config_t := {
  discovery_urls : option (list (option string));
  discovery_urls_count : Z;
  issuers : option (list (option string));
  issuers_count : Z;
  audiences : option (list (option string));
  audiences_count : Z;
  client_id : option string;
  client_secret : option string;
  scope : option string;
  user_claim : option string;
  verify_signature : Z;
  ssl_verify : Z;
  timeout : Z;
  debug : Z;
  oauth2_log : bool
}.

(** One invocation of a logging macro [OAUTH2_LOG_<level>(utils, fmt, ...)]. *)
Inductive log_level := LOG_ERR | LOG_WARN | LOG_INFO | LOG_DEBUG.

Inductive log_arg :=
| LogStr (s : string)
| LogInt (n : Z).

Record log_call := {
  level : log_level;
  fmt : string;
  args : list log_arg
}.

(** The liboauth2 sink levels the loader chooses between. *)
Inductive oauth2_log_level_t := OAUTH2_LOG_TRACE1 | OAUTH2_LOG_WARN.

(** ** oauth2_config.c *)

Module Config.
Import Sasl.

(** The separator set of [oauth2_parse_string_list]: space, tab,
    newline (the C literal " \t\n"). *)
Definition list_delims : string :=
  String " " (String (ascii_of_nat 9) (String (ascii_of_nat 10) EmptyString)).

(** First pass of [oauth2_parse_string_list]:
    [while (token) { item_count++; token = strtok(NULL, " \t\n"); }] *)
Equations? count_loop (token : option string) (save : string) (item_count : Z)
  : Z by wf (tok_measure token save) lt :=
  count_loop None _ item_count := item_count;
  count_loop (Some _) save item_count :=
    count_loop (fst (CStr.strtok list_delims save))
               (snd (CStr.strtok list_delims save))
               (item_count + 1).
Proof. apply strtok_decreases. Qed.

(** Second pass:
    [while ((token != NULL) && (i < item_count)) {
       list[i] = strdup(token); i++; token = strtok(NULL, " \t\n"); }]
    [cells] holds [list[0..i-1]], the part of the array written so far;
    [i] is the next index. *)
Equations? fill_loop (item_count : Z) (token : option string) (save : string)
  (cells : list (option string)) (i : Z)
  : list (option string) * Z by wf (tok_measure token save) lt :=
  fill_loop item_count None _ cells i := (cells, i);
  fill_loop item_count (Some tok) save cells i :=
    if i <? item_count then
      fill_loop item_count
                (fst (CStr.strtok list_delims save))
                (snd (CStr.strtok list_delims save))
                (cells ++ [Some tok]) (i + 1)
    else (cells, i).
Proof. apply strtok_decreases. Qed.

(** [char **oauth2_parse_string_list(const char *input, int *count)]:
    the returned array and the value left in [*count]. *)
Definition oauth2_parse_string_list (input : option string)
  : option (list (option string)) * Z :=
  match input with
  | None => (None, 0)
  | Some input =>
      if CStr.strlen input =? 0 then (None, 0)
      else
        let '(token, save) := CStr.strtok list_delims input in
        let item_count := count_loop token save 0 in
        if item_count =? 0 then (None, 0)
        else
          let '(token, save) := CStr.strtok list_delims input in
          let '(cells, i) := fill_loop item_count token save [] 0 in
          (* list[i] = NULL; *count = item_count; *)
          (Some (cells ++ [None]), item_count)
  end.

(** The value a present setting has: [getopt] returned [SASL_OK] and
    stored a non-NULL pointer. *)
Definition getopt_value (utils : sasl_utils_t) (key : string) : option string :=
  let '(r, value) := getopt utils "oauth2" key in
  if r =? SASL_OK then value else None.

Definition oauth2_config_get_string (utils : sasl_utils_t) (key : string)
  (default_value : option string) : option string :=
  match getopt_value utils key with
  | Some value => Some value
  | None => default_value
  end.

(** [oauth2_config_get_int]: the returned [int] and the warnings logged. *)
Definition oauth2_config_get_int (utils : sasl_utils_t) (key : string)
  (default_value : Z) : Z * list log_call :=
  match getopt_value utils key with
  | Some value =>
      let '(parsed_value, endptr) := CStr.strtol value in
      if CStr.same_ptr endptr value
         || negb (match endptr with EmptyString => true | _ => false end)
      then
        (default_value,
         [ {| level := LOG_WARN;
              fmt := "Invalid integer value for %s: %s, using default %d";
              args := [LogStr key; LogStr value; LogInt default_value] |} ])
      else if (CStr.INT_MAX <? parsed_value) || (parsed_value <? CStr.INT_MIN)
      then
        (default_value,
         [ {| level := LOG_WARN;
              fmt := "Integer value out of range for %s: %ld, using default %d";
              args := [LogStr key; LogInt parsed_value; LogInt default_value] |} ])
      else (parsed_value, [])
  | None => (default_value, [])
  end.

Definition oauth2_config_get_bool (utils : sasl_utils_t) (key : string)
  (default_value : Z) : Z :=
  match getopt_value utils key with
  | Some value =>
      if (CStr.strcasecmp value "yes" =? 0)
         || (CStr.strcasecmp value "true" =? 0)
         || (CStr.strcasecmp value "1" =? 0)
      then 1 else 0
  | None => default_value
  end.

(** [oauth2_config_init]: the zeroed structure with its logging context. *)
Definition oauth2_config_init (utils : sasl_utils_t) : option oauth2_config_t :=
  Some {| discovery_urls := None; discovery_urls_count := 0;
          issuers := None; issuers_count := 0;
          audiences := None; audiences_count := 0;
          client_id := None; client_secret := None;
          scope := None; user_claim := None;
          verify_signature := 0; ssl_verify := 0; timeout := 0; debug := 0;
          oauth2_log := true |}.

(** Field assignments. *)
Definition set_discovery_urls (c : oauth2_config_t)
  (v : option (list (option string)) * Z) : oauth2_config_t :=
  {| discovery_urls := fst v; discovery_urls_count := snd v;
     issuers := issuers c; issuers_count := issuers_count c;
     audiences := audiences c; audiences_count := audiences_count c;
     client_id := client_id c; client_secret := client_secret c;
     scope := scope c; user_claim := user_claim c;
     verify_signature := verify_signature c; ssl_verify := ssl_verify c;
     timeout := timeout c; debug := debug c; oauth2_log := oauth2_log c |}.

Definition set_issuers (c : oauth2_config_t)
  (v : option (list (option string)) * Z) : oauth2_config_t :=
  {| discovery_urls := discovery_urls c; discovery_urls_count := discovery_urls_count c;
     issuers := fst v; issuers_count := snd v;
     audiences := audiences c; audiences_count := audiences_count c;
     client_id := client_id c; client_secret := client_secret c;
     scope := scope c; user_claim := user_claim c;
     verify_signature := verify_signature c; ssl_verify := ssl_verify c;
     timeout := timeout c; debug := debug c; oauth2_log := oauth2_log c |}.

Definition set_audiences (c : oauth2_config_t)
  (v : option (list (option string)) * Z) : oauth2_config_t :=
  {| discovery_urls := discovery_urls c; discovery_urls_count := discovery_urls_count c;
     issuers := issuers c; issuers_count := issuers_count c;
     audiences := fst v; audiences_count := snd v;
     client_id := client_id c; client_secret := client_secret c;
     scope := scope c; user_claim := user_claim c;
     verify_signature := verify_signature c; ssl_verify := ssl_verify c;
     timeout := timeout c; debug := debug c; oauth2_log := oauth2_log c |}.

Definition set_client (c : oauth2_config_t) (id secret : option string)
  : oauth2_config_t :=
  {| discovery_urls := discovery_urls c; discovery_urls_count := discovery_urls_count c;
     issuers := issuers c; issuers_count := issuers_count c;
     audiences := audiences c; audiences_count := audiences_count c;
     client_id := id; client_secret := secret;
     scope := scope c; user_claim := user_claim c;
     verify_signature := verify_signature c; ssl_verify := ssl_verify c;
     timeout := timeout c; debug := debug c; oauth2_log := oauth2_log c |}.

Definition set_validation (c : oauth2_config_t) (sc uc : option string) (vs : Z)
  : oauth2_config_t :=
  {| discovery_urls := discovery_urls c; discovery_urls_count := discovery_urls_count c;
     issuers := issuers c; issuers_count := issuers_count c;
     audiences := audiences c; audiences_count := audiences_count c;
     client_id := client_id c; client_secret := client_secret c;
     scope := sc; user_claim := uc;
     verify_signature := vs; ssl_verify := ssl_verify c;
     timeout := timeout c; debug := debug c; oauth2_log := oauth2_log c |}.

Definition set_network (c : oauth2_config_t) (sv t d : Z) : oauth2_config_t :=
  {| discovery_urls := discovery_urls c; discovery_urls_count := discovery_urls_count c;
     issuers := issuers c; issuers_count := issuers_count c;
     audiences := audiences c; audiences_count := audiences_count c;
     client_id := client_id c; client_secret := client_secret c;
     scope := scope c; user_claim := user_claim c;
     verify_signature := verify_signature c; ssl_verify := sv;
     timeout := t; debug := d; oauth2_log := oauth2_log c |}.

(** [config->issuers[i]] as the string [strdup] copies. The cells below
    the count of an array built by [oauth2_parse_string_list] are strings
    (see [parse_cells]); any other read is undefined in C and stands for
    the empty string here. *)
Definition array_get (arr : list (option string)) (i : Z) : string :=
  match nth_error arr (Z.to_nat i) with
  | Some (Some s) => s
  | _ => EmptyString
  end.

Definition well_known : string := "/.well-known/openid-configuration".

(** The body of the loop that derives a discovery URL:
    [clean_issuer] loses one trailing slash, then
    [snprintf(.., len, "%s/.well-known/openid-configuration", clean_issuer)]. *)
Definition clean_issuer (issuer : string) : string :=
  let issuer_len := String.length issuer in
  match String.get (issuer_len - 1) issuer with
  | Some c =>
      if (0 <? CStr.strlen issuer) && Ascii.eqb c "/"
      then String.substring 0 (issuer_len - 1) issuer
      else issuer
  | None => issuer
  end.

Definition discovery_url_of (issuer : string) : string :=
  let clean := clean_issuer issuer in
  let len := CStr.strlen clean + CStr.strlen well_known + 1 in
  CStr.snprintf len (clean ++ well_known)%string.

(** [for (int i = 0; i < config->issuers_count; i++) ...], with [n]
    iterations left and [urls] the cells [discovery_urls[0..i-1]]. *)
Fixpoint derive_loop (iss : list (option string)) (n : nat) (i : Z)
  (urls : list (option string)) : list (option string) :=
  match n with
  | O => urls
  | S n' =>
      derive_loop iss n' (i + 1)
        (urls ++ [Some (discovery_url_of (array_get iss i))])
  end.

(** What a call of [oauth2_config_load] leaves behind: the return code,
    the structure behind [config], the logging macros invoked in order,
    and the level given to the liboauth2 stderr sink, if any. *)
Record load_result := {
  rc : Z;
  config_out : option oauth2_config_t;
  trace : list log_call;
  sink_level : option oauth2_log_level_t
}.

Definition log (l : log_level) (f : string) (a : list log_arg) : log_call :=
  {| level := l; fmt := f; args := a |}.

Definition is_set {A} (p : option A) : bool :=
  match p with Some _ => true | None => false end.

Definition str_or (p : option string) (d : string) : string :=
  match p with Some s => s | None => d end.

Definition yes_no (b : Z) : string := if b =? 0 then "no" else "yes".

Section Load.

Variable m : plugin_macros.

Definition oauth2_config_load (config : option oauth2_config_t)
  (utils : option sasl_utils_t) : load_result :=
  match config, utils with
  | Some config, Some utils =>
    let discovery_urls_str := oauth2_config_get_string utils (OAUTH2_CONF_DISCOVERY_URLS m) None in
    let discovery_url_str := oauth2_config_get_string utils (OAUTH2_CONF_DISCOVERY_URL m) None in
    let issuers_str := oauth2_config_get_string utils (OAUTH2_CONF_ISSUERS m) None in
    let issuer_str := oauth2_config_get_string utils (OAUTH2_CONF_ISSUER m) None in
    let tr := [log LOG_DEBUG "Reading OAuth2 configuration from SASL" []] in
    (* Validate exclusive configuration for discovery URLs *)
    if is_set discovery_urls_str && is_set discovery_url_str then
      {| rc := SASL_FAIL; config_out := Some config;
         trace := tr ++ [log LOG_ERR "Cannot configure both %s and %s - use only one form"
                           [LogStr (OAUTH2_CONF_DISCOVERY_URLS m);
                            LogStr (OAUTH2_CONF_DISCOVERY_URL m)]];
         sink_level := None |}
    else
    (* Parse discovery URLs (priority: plural form, then singular) *)
    let config :=
      if is_set discovery_urls_str then
        set_discovery_urls config (oauth2_parse_string_list discovery_urls_str)
      else if is_set discovery_url_str then
        set_discovery_urls config (oauth2_parse_string_list discovery_url_str)
      else config in
    (* Validate exclusive configuration for issuers *)
    if is_set issuers_str && is_set issuer_str then
      {| rc := SASL_FAIL; config_out := Some config;
         trace := tr ++ [log LOG_ERR "Cannot configure both %s and %s - use only one form"
                           [LogStr (OAUTH2_CONF_ISSUERS m);
                            LogStr (OAUTH2_CONF_ISSUER m)]];
         sink_level := None |}
    else
    (* Parse issuers (priority: plural form, then singular) *)
    let config :=
      if is_set issuers_str then
        set_issuers config (oauth2_parse_string_list issuers_str)
      else if is_set issuer_str then
        set_issuers config (oauth2_parse_string_list issuer_str)
      else config in
    (* Ensure we have at least one discovery URL or issuer *)
    if negb (is_set (discovery_urls config)) && negb (is_set (issuers config)) then
      {| rc := SASL_FAIL; config_out := Some config;
         trace := tr ++ [log LOG_ERR "Either %s/%s or %s/%s must be configured"
                           [LogStr (OAUTH2_CONF_DISCOVERY_URLS m);
                            LogStr (OAUTH2_CONF_DISCOVERY_URL m);
                            LogStr (OAUTH2_CONF_ISSUERS m);
                            LogStr (OAUTH2_CONF_ISSUER m)]];
         sink_level := None |}
    else
    (* If only issuers provided, construct discovery URLs *)
    let config :=
      match discovery_urls config, issuers config with
      | None, Some iss =>
          set_discovery_urls config
            (Some (derive_loop iss (Z.to_nat (issuers_count config)) 0 []),
             issuers_count config)
      | _, _ => config
      end in
    (* Load client credentials *)
    let config :=
      set_client config
        (oauth2_config_get_string utils (OAUTH2_CONF_CLIENT_ID m) None)
        (oauth2_config_get_string utils (OAUTH2_CONF_CLIENT_SECRET m) None) in
    if negb (is_set (client_id config)) then
      {| rc := SASL_FAIL; config_out := Some config;
         trace := tr ++ [log LOG_ERR "%s must be configured"
                           [LogStr (OAUTH2_CONF_CLIENT_ID m)]];
         sink_level := None |}
    else
    (* Load token validation settings - support multiple audiences *)
    let audiences_str := oauth2_config_get_string utils (OAUTH2_CONF_AUDIENCES m) None in
    let audience_str := oauth2_config_get_string utils (OAUTH2_CONF_AUDIENCE m) None in
    let tr := tr ++ [log LOG_DEBUG "Client ID configured: %s"
                       [LogStr (str_or (client_id config) "N/A")]] in
    (* Validate exclusive configuration for audiences *)
    if is_set audiences_str && is_set audience_str then
      {| rc := SASL_FAIL; config_out := Some config;
         trace := tr ++ [log LOG_ERR "Cannot configure both %s and %s - use only one form"
                           [LogStr (OAUTH2_CONF_AUDIENCES m);
                            LogStr (OAUTH2_CONF_AUDIENCE m)]];
         sink_level := None |}
    else
    (* Parse audiences (priority: plural form, then singular) *)
    let config :=
      if is_set audiences_str then
        set_audiences config (oauth2_parse_string_list audiences_str)
      else if is_set audience_str then
        set_audiences config (oauth2_parse_string_list audience_str)
      else config in
    let config :=
      set_validation config
        (oauth2_config_get_string utils (OAUTH2_CONF_SCOPE m) (Some (OAUTH2_DEFAULT_SCOPE m)))
        (oauth2_config_get_string utils (OAUTH2_CONF_USER_CLAIM m) (Some (OAUTH2_DEFAULT_USER_CLAIM m)))
        (oauth2_config_get_bool utils (OAUTH2_CONF_VERIFY_SIGNATURE m) (OAUTH2_DEFAULT_VERIFY_SIGNATURE m)) in
    (* Load network settings *)
    let '(timeout_value, warnings) :=
      oauth2_config_get_int utils (OAUTH2_CONF_TIMEOUT m) (OAUTH2_DEFAULT_TIMEOUT m) in
    let config :=
      set_network config
        (oauth2_config_get_bool utils (OAUTH2_CONF_SSL_VERIFY m) (OAUTH2_DEFAULT_SSL_VERIFY m))
        timeout_value
        (oauth2_config_get_bool utils (OAUTH2_CONF_DEBUG m) (OAUTH2_DEFAULT_DEBUG m)) in
    let tr := tr ++ warnings in
    (* Adjust liboauth2 log level based on debug setting *)
    let sink :=
      if oauth2_log config then
        Some (if debug config =? 0 then OAUTH2_LOG_WARN else OAUTH2_LOG_TRACE1)
      else None in
    let tr := tr ++
      [log LOG_DEBUG "Network: SSL verify=%s, timeout=%ds, debug=%s"
         [LogStr (yes_no (ssl_verify config)); LogInt (timeout config);
          LogStr (yes_no (debug config))];
       log LOG_INFO "OAuth2 configuration loaded: %d providers, %d audiences"
         [LogInt (discovery_urls_count config); LogInt (audiences_count config)];
       log LOG_DEBUG "User claim: %s, signature verification: %s"
         [LogStr (str_or (user_claim config) "(null)");
          LogStr (if verify_signature config =? 0 then "disabled" else "enabled")]] in
    {| rc := SASL_OK; config_out := Some config; trace := tr; sink_level := sink |}
  | _, _ =>
    {| rc := SASL_BADPARAM; config_out := config; trace := []; sink_level := None |}
  end.

End Load.

End Config.


(** ** tests/integration/test_utils.c: the wire-message builders *)

Module TestUtils.

(** The control byte 0x01 (written ^A in the documentation). *)
Definition SOH : ascii := ascii_of_nat 1.

(** The C literal ["\x01auth=Bearer "]. A hexadecimal escape runs over
    every hexadecimal digit that follows it, and [a] is one: the escape
    is [\x01a], the single character 0x1A, and the literal is that
    character followed by [uth=Bearer ] (12 characters in all). *)
Definition lit_x01auth_Bearer : string :=
  String (ascii_of_nat 26) "uth=Bearer ".

(** The C literal ["\x01\x01"]: two bytes 0x01. *)
Definition lit_x01x01 : string := String SOH (String SOH EmptyString).

(** [char* create_xoauth2_string(const char* username, const char* token)] *)
Definition create_xoauth2_string (username token : option string) : option string :=
  match username, token with
  | Some username, Some token =>
      let len := CStr.strlen "user=" + CStr.strlen username
                 + CStr.strlen lit_x01auth_Bearer + CStr.strlen token
                 + CStr.strlen lit_x01x01 + 1 in
      Some (CStr.snprintf len
              ("user=" ++ username ++ lit_x01auth_Bearer ++ token ++ lit_x01x01)%string)
  | _, _ => None
  end.

(** [char* create_oauthbearer_string(const char* username, const char* token)],
    whose literal [",\x01auth=Bearer "] lexes the same way. *)
Definition create_oauthbearer_string (username token : option string) : option string :=
  match username, token with
  | Some username, Some token =>
      let len := CStr.strlen "n,a=" + CStr.strlen username
                 + CStr.strlen (String "," lit_x01auth_Bearer) + CStr.strlen token
                 + CStr.strlen lit_x01x01 + 1 in
      Some (CStr.snprintf len
              ("n,a=" ++ username ++ String "," lit_x01auth_Bearer ++ token ++ lit_x01x01)%string)
  | _, _ => None
  end.

End TestUtils.

(** ** tests/integration/mini_server.c: the settings of the test server *)

Module MiniServer.
Import Sasl.

(** [static int server_getopt(void *context, const char *plugin_name,
    const char *option, const char **result, unsigned *len)], with [opt]
    for its parameter [option]. *)
Definition server_getopt (plugin_name opt : string) : Z * option string :=
  if String.eqb plugin_name "oauth2" then
    if String.eqb opt "oauth2_issuers" then
      (SASL_OK, Some "https://test.issuer.com")
    else if String.eqb opt "oauth2_audiences" then
      (SASL_OK, Some "test_audience")
    else if String.eqb opt "oauth2_client_id" then
      (SASL_OK, Some "test_client")
    else if String.eqb opt "oauth2_user_claim" then
      (SASL_OK, Some "email")
    else if String.eqb opt "oauth2_verify_signature" then
      (SASL_OK, Some "no")
    else (SASL_FAIL, None)
  else (SASL_FAIL, None).

Definition server_utils : sasl_utils_t := {| getopt := server_getopt |}.

(** [mini_server_t], without its unused [mechanisms]; [conn] says whether
    the connection pointer is set. *)
Record mini_server_t := {
  conn : bool;
  mechanism_count : Z;
  username : option string
}.

(** [int mini_server_has_mechanism(mini_server_t *server, const char
    *mechanism)]. [sasl_listmech] is what the library call returns and the
    text it stores in [mechlist]. *)
Definition mini_server_has_mechanism (server : option mini_server_t)
    (mechanism : option string) (sasl_listmech : Z * string) : Z :=
  match server, mechanism with
  | Some srv, Some mech =>
      if negb (conn srv) then 0
      else
        let (result, mechlist) := sasl_listmech in
        if negb (result =? SASL_OK) then 0
        else
          match CStr.strstr mechlist mech with
          | Some _ => 1
          | None => 0
          end
  | _, _ => 0
  end.

End MiniServer.

(** ** tests/integration/mini_client.c: the test client *)

Module MiniClient.
Import Sasl TestUtils.

(** [#define SASL_INTERACT 2] of <sasl/sasl.h> *)
Definition SASL_INTERACT : Z := 2.

(** [mini_client_t]; [conn] says whether the connection pointer is set. *)
Record mini_client_t := {
  conn : bool;
  mechanism : string;
  auth_data : option string;
  auth_data_len : Z
}.

(** [mini_client_t* mini_client_create(const char* mechanism, const char*
    username, const char* token)] for a non-NULL [mechanism].
    [sasl_client_new] is what the library call returns and whether it
    stores a connection. *)
Definition mini_client_create (mech : string) (username token : option string)
    (sasl_client_new : Z * bool) : option mini_client_t :=
  let built :=
    if String.eqb mech "XOAUTH2" then
      Some (create_xoauth2_string username token)
    else if String.eqb mech "OAUTHBEARER" then
      Some (create_oauthbearer_string username token)
    else None in
  match built with
  | None => None
  | Some None => None
  | Some (Some text) =>
      let (result, connection) := sasl_client_new in
      if negb (result =? SASL_OK) then None
      else Some {| conn := connection;
                   mechanism := mech;
                   auth_data := Some text;
                   auth_data_len := CStr.strlen text |}
  end.

(** [int mini_client_authenticate(mini_client_t *client, const char
    **clientout, unsigned *clientoutlen)]. [sasl_client_start] is what the
    library call returns and what it stores in [*clientout] and
    [*clientoutlen]; the result is the return code and what the two hold
    afterwards, [None] when nothing was stored in them. *)
Definition mini_client_authenticate (client : option mini_client_t)
    (sasl_client_start : Z * option (option string * Z))
    : Z * option (option string * Z) :=
  match client with
  | None => (SASL_FAIL, None)
  | Some c =>
      if negb (conn c) then (SASL_FAIL, None)
      else
        let (result, stored) := sasl_client_start in
        if result =? SASL_INTERACT then (SASL_INTERACT, stored)
        else if (result =? SASL_CONTINUE) || (result =? SASL_OK) then
          (SASL_OK, Some (auth_data c, auth_data_len c mod 2 ^ 32))
        else (result, stored)
  end.

End MiniClient.

(** ** tests/unit/test_framework.c: the base64 decoder of the unit tests

    [size_t] is the 64-bit unsigned type of the LP64 targets and [buf] a
    [uint32_t]; their wrap-around is written out. The buffer that the
    decoder allocates is followed by its capacity, and a store outside it
    ends the run with its own outcome. [malloc] succeeds for every size,
    zero included. *)

Module TestFramework.

Definition size_t (n : Z) : Z := n mod 2 ^ 64.
Definition uint32_t (n : Z) : Z := n mod 2 ^ 32.

(** [static const int base64_decode_table[256]] *)
Definition base64_decode_table : list Z :=
  [
    (-1); (-1); (-1); (-1); (-1); (-1); (-1); (-1); (-1); (-1); (-1); (-1); (-1); (-1); (-1); (-1);
    (-1); (-1); (-1); (-1); (-1); (-1); (-1); (-1); (-1); (-1); (-1); (-1); (-1); (-1); (-1); (-1);
    (-1); (-1); (-1); (-1); (-1); (-1); (-1); (-1); (-1); (-1); (-1); 62; (-1); (-1); (-1); 63;
    52; 53; 54; 55; 56; 57; 58; 59; 60; 61; (-1); (-1); (-1); (-2); (-1); (-1);
    (-1); 0; 1; 2; 3; 4; 5; 6; 7; 8; 9; 10; 11; 12; 13; 14;
    15; 16; 17; 18; 19; 20; 21; 22; 23; 24; 25; (-1); (-1); (-1); (-1); (-1);
    (-1); 26; 27; 28; 29; 30; 31; 32; 33; 34; 35; 36; 37; 38; 39; 40;
    41; 42; 43; 44; 45; 46; 47; 48; 49; 50; 51; (-1); (-1); (-1); (-1); (-1);
    (-1); (-1); (-1); (-1); (-1); (-1); (-1); (-1); (-1); (-1); (-1); (-1); (-1); (-1); (-1); (-1);
    (-1); (-1); (-1); (-1); (-1); (-1); (-1); (-1); (-1); (-1); (-1); (-1); (-1); (-1); (-1); (-1);
    (-1); (-1); (-1); (-1); (-1); (-1); (-1); (-1); (-1); (-1); (-1); (-1); (-1); (-1); (-1); (-1);
    (-1); (-1); (-1); (-1); (-1); (-1); (-1); (-1); (-1); (-1); (-1); (-1); (-1); (-1); (-1); (-1);
    (-1); (-1); (-1); (-1); (-1); (-1); (-1); (-1); (-1); (-1); (-1); (-1); (-1); (-1); (-1); (-1);
    (-1); (-1); (-1); (-1); (-1); (-1); (-1); (-1); (-1); (-1); (-1); (-1); (-1); (-1); (-1); (-1);
    (-1); (-1); (-1); (-1); (-1); (-1); (-1); (-1); (-1); (-1); (-1); (-1); (-1); (-1); (-1); (-1);
    (-1); (-1); (-1); (-1); (-1); (-1); (-1); (-1); (-1); (-1); (-1); (-1); (-1); (-1); (-1); (-1)
  ].

(** [base64_decode_table[c]] for an [unsigned char c]. *)
Definition table_at (c : ascii) : Z :=
  nth (nat_of_ascii c) base64_decode_table (-1).

(** [src[i]] for [i < strlen(src)]. *)
Definition char_at (s : string) (i : Z) : ascii :=
  match String.get (Z.to_nat i) s with
  | Some c => c
  | None => zero
  end.

(** How the [for] loop ends: it ran to the end of [src] or to a ['='],
    with the bytes stored so far; or it met a character whose table entry
    is negative; or it stored at an index outside the allocation. *)
Inductive loop_end : Type :=
| Stopped (out : list Z)
| BadChar
| Overrun (index : Z).

(** The body of [for (size_t i = 0; i < src_len; i++)], from [src + i] on.
    [out] holds the bytes stored so far, so that [out_pos] is its length;
    [capacity] is the size of the allocation. *)
Fixpoint decode_loop (capacity : Z) (src : string) (out : list Z)
    (buf buf_len : Z) : loop_end :=
  match src with
  | EmptyString => Stopped out
  | String c rest =>
      if Ascii.eqb c "=" then Stopped out
      else
        let val := table_at c in
        if val <? 0 then BadChar
        else
          let buf := uint32_t (Z.lor (Z.shiftl buf 6) val) in
          let buf_len := buf_len + 6 in
          if 8 <=? buf_len then
            let buf_len := buf_len - 8 in
            let out_pos := Z.of_nat (List.length out) in
            if out_pos <? capacity then
              decode_loop capacity rest
                (out ++ [Z.land (Z.shiftr buf buf_len) 255]) buf buf_len
            else Overrun out_pos
          else decode_loop capacity rest out buf buf_len
  end.

(** What a call leaves behind.
    - [Refused]: it returned [false] and did not touch [*dst].
    - [Invalid]: it freed the buffer, set [*dst = NULL] and returned [false].
    - [Decoded capacity bytes]: it returned [true]; [*dst] is a buffer of
      [capacity] bytes that holds [bytes] and then a NUL, and [*dst_len]
      is the number of [bytes].
    - [OutOfBounds capacity index]: it stored at [index], outside the
      [capacity] bytes of the buffer. *)
Inductive decode_result : Type :=
| Refused
| Invalid
| Decoded (capacity : Z) (bytes : list Z)
| OutOfBounds (capacity index : Z).

(** [bool test_base64_decode(const char *src, uint8_t **dst,
    size_t *dst_len)]; [dst] and [dst_len] say whether the two result
    pointers are non-NULL. *)
Definition test_base64_decode (src : option string) (dst dst_len : bool)
    : decode_result :=
  match src with
  | None => Refused
  | Some s =>
      if negb dst || negb dst_len then Refused
      else
        let src_len := CStr.strlen s in
        if src_len =? 0 then Refused
        else
          let padding :=
            if 2 <=? src_len then
              (if Ascii.eqb (char_at s (src_len - 1)) "=" then 1 else 0)
              + (if Ascii.eqb (char_at s (src_len - 2)) "=" then 1 else 0)
            else 0 in
          let out_len := size_t (size_t (src_len * 3) / 4 - padding) in
          let capacity := size_t (out_len + 1) in
          match decode_loop capacity s [] 0 0 with
          | BadChar => Invalid
          | Overrun index => OutOfBounds capacity index
          | Stopped out =>
              let out_pos := Z.of_nat (List.length out) in
              if out_pos <? capacity then Decoded capacity out
              else OutOfBounds capacity out_pos
          end
  end.

(** *** test_framework.h: the counting macros

    [tests_total], [tests_passed] and [tests_failed]; they stay far below
    [INT_MAX]. *)
Record counters := {
  tests_total : Z;
  tests_passed : Z;
  tests_failed : Z
}.

(** The statements of a test function that matter to the counters: one of
    the [TEST_ASSERT...] macros, with the value of its condition, and
    [return]. *)
Inductive statement : Type :=
| TEST_ASSERT (condition : bool)
| Return (value : Z).

(** A test function: its statements in the order they are reached; every
    test function ends in [return 0]. The result is its return value. *)
Fixpoint run_body (body : list statement) (k : counters) : Z * counters :=
  match body with
  | [] => (0, k)
  | TEST_ASSERT condition :: rest =>
      let k := {| tests_total := tests_total k + 1;
                  tests_passed := tests_passed k;
                  tests_failed := tests_failed k |} in
      if negb condition then
        (-1, {| tests_total := tests_total k;
                tests_passed := tests_passed k;
                tests_failed := tests_failed k + 1 |})
      else
        run_body rest {| tests_total := tests_total k;
                         tests_passed := tests_passed k + 1;
                         tests_failed := tests_failed k |}
  | Return value :: _ => (value, k)
  end.

(** [RUN_TEST(test_func)] *)
Definition RUN_TEST (test_func : list statement) (k : counters) : counters :=
  let (result, k) := run_body test_func k in
  let k :=
    if result =? 0 then
      {| tests_total := tests_total k;
         tests_passed := tests_passed k + 1;
         tests_failed := tests_failed k |}
    else
      {| tests_total := tests_total k;
         tests_passed := tests_passed k;
         tests_failed := tests_failed k + 1 |} in
  {| tests_total := tests_total k + 1;
     tests_passed := tests_passed k;
     tests_failed := tests_failed k |}.

(** [main] of [test_jwt.c] and of [test_plugin.c]: the counters are reset,
    the tests run in order, and the exit status is
    [tests_failed > 0 ? 1 : 0]. *)
Definition run_tests (tests : list (list statement)) (k : counters) : counters :=
  fold_left (fun k test_func => RUN_TEST test_func k) tests k.

Definition main (tests : list (list statement)) : Z * counters :=
  let k := run_tests tests
             {| tests_total := 0; tests_passed := 0; tests_failed := 0 |} in
  (if 0 <? tests_failed k then 1 else 0, k).

End TestFramework.

(** ** The mechanisms and the claims validator

    The plugin's server side (the wire parsers, the validator and the two
    state machines) is not among the sources at hand; what follows is
    written from the specification, sections 3, 4.4, 4.5, 6 and 7. *)

Module Wire.
Import TestUtils.

(** Modelled from the spec: the single-step wire format of section 6,
    [user=<name>^Aauth=Bearer <token>^A^A], which the missing
    single-step parser consumes. *)
Definition xoauth2_message (name token : string) : string :=
  ("user=" ++ name ++ String SOH "auth=Bearer " ++ token
     ++ String SOH (String SOH EmptyString))%string.

(** Modelled from the spec: the two-step initial client message of
    section 6, [n,a=<name>,^Aauth=Bearer <token>^A^A], which the missing
    two-step parser consumes. *)
Definition oauthbearer_message (name token : string) : string :=
  ("n,a=" ++ name ++ String "," (String SOH "auth=Bearer ") ++ token
     ++ String SOH (String SOH EmptyString))%string.

(** Modelled from the spec: the fixed literals of the wire formats of
    section 6 (the parsers are missing). The rest of [s] after the
    literal [p], when [s] starts with it. *)
Fixpoint strip_prefix (p s : string) : option string :=
  match p, s with
  | EmptyString, _ => Some s
  | String a p', String b s' => if Ascii.eqb a b then strip_prefix p' s' else None
  | String _ _, EmptyString => None
  end.

(** Modelled from the spec: the control-byte delimiter of section 6 (the
    parsers are missing). The field that ends at the first delimiter byte and what follows
    that byte; nothing when the delimiter is missing. *)
Fixpoint field (s : string) : option (string * string) :=
  match s with
  | EmptyString => None
  | String c s' =>
      if Ascii.eqb c SOH then Some (EmptyString, s')
      else match field s' with
           | Some (f, rest) => Some (String c f, rest)
           | None => None
           end
  end.

(** Modelled from the spec: the bearer-token field both mechanisms share
    (sections 4.5 and 6; the parsers are missing),
    [auth=Bearer <token>^A^A]. *)
Definition bearer_field (s : string) : option string :=
  match strip_prefix "auth=Bearer " s with
  | Some s1 =>
      match field s1 with
      | Some (token, rest) =>
          if String.eqb rest (String SOH EmptyString) then Some token else None
      | None => None
      end
  | None => None
  end.

(** Modelled from the spec: the wire parser of the single-step mechanism
    (section 4.5: a username field and a bearer-token field separated by
    fixed control-byte delimiters; a missing delimiter or a missing
    bearer prefix is a [FormatError], here [None]). *)
Definition parse_xoauth2 (msg : string) : option (string * string) :=
  match strip_prefix "user=" msg with
  | Some s1 =>
      match field s1 with
      | Some (name, s2) =>
          match bearer_field s2 with
          | Some token => Some (name, token)
          | None => None
          end
      | None => None
      end
  | None => None
  end.

(** Modelled from the spec: the comma that ends the identity header of
    the two-step message (section 6; the parser is missing). A string
    without its last character, when that character is [c]. *)
Fixpoint strip_last (c : ascii) (s : string) : option string :=
  match s with
  | EmptyString => None
  | String d EmptyString => if Ascii.eqb d c then Some EmptyString else None
  | String d s' =>
      match strip_last c s' with
      | Some r => Some (String d r)
      | None => None
      end
  end.

(** Modelled from the spec: the wire parser of the two-step mechanism
    (section 4.5: an authorization-identity header [n,a=<name>,] followed
    by the same control-byte-delimited bearer-token field). *)
Definition parse_oauthbearer (msg : string) : option (string * string) :=
  match strip_prefix "n,a=" msg with
  | Some s1 =>
      match field s1 with
      | Some (header, s2) =>
          match strip_last "," header, bearer_field s2 with
          | Some name, Some token => Some (name, token)
          | _, _ => None
          end
      | None => None
      end
  | None => None
  end.

End Wire.

Module Validator.

(** Modelled from the spec: the error taxonomy of section 7 (the
    validator's sources are missing). *)
Inductive ValidationError :=
| Expired | NotYetValid | IssuerMismatch | AudienceMismatch
| SignatureInvalid | MissingUsernameClaim.

(** Modelled from the spec: the per-attempt errors of section 7 (the
    validator and the mechanisms are missing). *)
Inductive AttemptError :=
| FormatError
| NetworkError
| Invalid (e : ValidationError)
| InternalError.

(** Modelled from the spec: the audience claim of section 3, a scalar or
    a list (the token parser is missing). *)
Inductive audience_claim :=
| AudAbsent
| AudScalar (a : string)
| AudList (l : list string).

(** Modelled from the spec: the claims the missing validator reads
    (section 3). *)
Record Claims := {
  iss : option string;
  aud : audience_claim;
  exp : option Z;
  nbf : option Z;
  iat : option Z;
  string_claim : string -> option string
}.

(** Modelled from the spec: the parsed token of section 3 (the token
    parser is missing). *)
Record Token := {
  header_alg : string;
  signing_input : string;
  signature : string;
  claims : Claims
}.

(** Modelled from the spec: the configured issuer and audience sets the
    missing validator consults (section 3), as the strings of a
    configured list. *)
Fixpoint entries (cells : list (option string)) : list string :=
  match cells with
  | [] => []
  | Some s :: r => s :: entries r
  | None :: r => entries r
  end.

(** Modelled from the spec: a configured set of section 3, empty when
    the list is not set (the validator is missing). *)
Definition configured (arr : option (list (option string))) : list string :=
  match arr with
  | Some cells => entries cells
  | None => []
  end.

(** Modelled from the spec: the audience set of a token, a scalar being
    a singleton (section 3; the validator is missing). *)
Definition token_audiences (a : audience_claim) : list string :=
  match a with
  | AudAbsent => []
  | AudScalar s => [s]
  | AudList l => l
  end.

(** Modelled from the spec: membership in a configured set (section 4.4;
    the validator is missing). *)
Definition member (s : string) (l : list string) : bool :=
  existsb (String.eqb s) l.

(** Modelled from the spec: a check of the missing validator passes
    ([None]) or names the error it rejects with (section 4.4). *)
Definition check := option AttemptError.

(** Modelled from the spec: section 4.4 step 2 (the validator is
    missing). Expiry at or before the
    current time is [Expired]; not-before strictly after it is
    [NotYetValid]; an absent claim is not checked. *)
Definition check_temporal (now : Z) (c : Claims) : check :=
  match exp c with
  | Some e => if e <=? now then Some (Invalid Expired)
              else match nbf c with
                   | Some n => if now <? n then Some (Invalid NotYetValid) else None
                   | None => None
                   end
  | None => match nbf c with
            | Some n => if now <? n then Some (Invalid NotYetValid) else None
            | None => None
            end
  end.

(** Modelled from the spec: section 4.4 step 3 (the validator is
    missing). The issuer claim must be
    a member of the configured issuer set; not checked when no issuer
    list is configured. *)
Definition check_issuer (cfg : oauth2_config_t) (c : Claims) : check :=
  match issuers cfg with
  | None => None
  | Some cells =>
      match iss c with
      | Some i => if member i (entries cells) then None
                  else Some (Invalid IssuerMismatch)
      | None => Some (Invalid IssuerMismatch)
      end
  end.

(** Modelled from the spec: section 4.4 step 4 (the validator is
    missing). A non-empty configured
    audience set must intersect the token's audiences. *)
Definition check_audience (cfg : oauth2_config_t) (c : Claims) : check :=
  match configured (audiences cfg) with
  | [] => None
  | auds =>
      if existsb (fun a => member a auds) (token_audiences (aud c)) then None
      else Some (Invalid AudienceMismatch)
  end.

Section WithResolver.

(** The Metadata Resolver of section 4.2 and the signature primitive,
    behind the narrow interface the spec gives them. *)
Variable KeySet : Type.
Variable resolve : oauth2_config_t -> Token -> option KeySet.
Variable verify : KeySet -> Token -> bool.
(** The Token Parser of section 4.3. *)
Variable parse_token : string -> option Token.

(** Modelled from the spec: section 4.4 step 5 (the validator is
    missing). With verification
    enabled, resolve the key set and verify; any mismatch or
    unsupported algorithm is [SignatureInvalid]. *)
Definition check_signature (cfg : oauth2_config_t) (t : Token) : check :=
  if verify_signature cfg =? 0 then None
  else match resolve cfg t with
       | None => Some NetworkError
       | Some keys => if verify keys t then None
                      else Some (Invalid SignatureInvalid)
       end.

(** Modelled from the spec: section 4.4 step 6 (the validator is
    missing), the username claim, [email] by default. *)
Definition extract_username (cfg : oauth2_config_t) (c : Claims)
  : string + AttemptError :=
  match string_claim c (Config.str_or (user_claim cfg) "email") with
  | Some u => inl u
  | None => inr (Invalid MissingUsernameClaim)
  end.

(** Modelled from the spec: fail fast (section 4.4; the validator is
    missing). Run a check, then the rest. *)
Definition and_then (c : check) (k : string + AttemptError)
  : string + AttemptError :=
  match c with
  | Some e => inr e
  | None => k
  end.

(** Modelled from the spec: [validate] of section 4.4 on a parsed
    token, the checks in the order the section lists them. *)
Definition validate_token (now : Z) (cfg : oauth2_config_t) (t : Token)
  : string + AttemptError :=
  and_then (check_temporal now (claims t))
    (and_then (check_issuer cfg (claims t))
       (and_then (check_audience cfg (claims t))
          (and_then (check_signature cfg t)
             (extract_username cfg (claims t))))).

(** Modelled from the spec: step 1 of section 4.4 (the validator is
    missing), which delegates to the Token Parser. *)
Definition validate (now : Z) (cfg : oauth2_config_t) (raw : string)
  : string + AttemptError :=
  match parse_token raw with
  | None => inr FormatError
  | Some t => validate_token now cfg t
  end.

End WithResolver.

End Validator.

Module Mechanism.
Import Validator.

(** Modelled from the spec: the states of the two-step mechanism
    (section 4.5) and the result codes of section 6. *)
Inductive state := Start | AwaitingContinuation | Done.

(** Modelled from the spec: the failure codes of section 6 (the
    mechanisms are missing). *)
Inductive failure_code :=
| MalformedInput | AuthenticationRejected | ResourceExhausted | InternalFailure.

(** Modelled from the spec: the JSON object of the error continuation
    (section 6; the mechanism is missing), as its members in order. *)
Definition json_object := list (string * string).

(** Modelled from the spec: the result a round gives the host framework
    (section 6; the mechanisms are missing). *)
Inductive step_result :=
| Success (username : string)
| Continue (serverout : json_object)
| Failure (code : failure_code).

(** Modelled from the spec: the SessionContext of section 3. *)
Record SessionContext := {
  mech_state : state;
  username : option string;
  last_error : option AttemptError
}.

(** Modelled from the spec: the context of a new attempt (section 3; the
    mechanisms are missing). *)
Definition new_session : SessionContext :=
  {| mech_state := Start; username := None; last_error := None |}.

(** Modelled from the spec: the name of the failure category in the
    taxonomy of section 7 (the mechanisms are missing). *)
Definition category (e : AttemptError) : string :=
  match e with
  | FormatError => "FormatError"
  | NetworkError => "NetworkError"
  | InternalError => "InternalError"
  | Invalid Expired => "Expired"
  | Invalid NotYetValid => "NotYetValid"
  | Invalid IssuerMismatch => "IssuerMismatch"
  | Invalid AudienceMismatch => "AudienceMismatch"
  | Invalid SignatureInvalid => "SignatureInvalid"
  | Invalid MissingUsernameClaim => "MissingUsernameClaim"
  end.

(** Modelled from the spec: the error continuation of section 6, a JSON
    object with a [status] member that identifies the failure category
    and a human-readable message. *)
Definition error_continuation (e : AttemptError) : json_object :=
  [("status", category e); ("message", "token validation failed")].

(** Modelled from the spec: whether a JSON object has a member (section
    6; the mechanisms are missing). *)
Definition has_member (k : string) (o : json_object) : bool :=
  existsb (fun kv => String.eqb (fst kv) k) o.

Section TwoStep.

Variable validate : string -> string + AttemptError.

(** Modelled from the spec: one round of the two-step mechanism
    (section 4.5). A malformed initial message is a terminal
    [FormatError]; a token that fails validation is answered by the
    error continuation and the machine waits for the client's empty
    acknowledgment, after which the exchange ends in failure. *)
Definition oauthbearer_step (ctx : SessionContext) (clientin : string)
  : SessionContext * step_result :=
  match mech_state ctx with
  | Start =>
      match Wire.parse_oauthbearer clientin with
      | None =>
          ({| mech_state := Done; username := None;
              last_error := Some FormatError |},
           Failure MalformedInput)
      | Some (_, token) =>
          match validate token with
          | inl user =>
              ({| mech_state := Done; username := Some user;
                  last_error := None |},
               Success user)
          | inr e =>
              ({| mech_state := AwaitingContinuation; username := None;
                  last_error := Some e |},
               Continue (error_continuation e))
          end
      end
  | AwaitingContinuation =>
      ({| mech_state := Done; username := None;
          last_error := last_error ctx |},
       Failure (if String.eqb clientin EmptyString
                then AuthenticationRejected else MalformedInput))
  | Done => (ctx, Failure MalformedInput)
  end.

(** Modelled from the spec: the rounds of one attempt of the missing
    two-step mechanism, a client message at a time (section 4.5). *)
Fixpoint run (ctx : SessionContext) (msgs : list string)
  : SessionContext * list step_result :=
  match msgs with
  | [] => (ctx, [])
  | msg :: rest =>
      let '(ctx1, r) := oauthbearer_step ctx msg in
      let '(ctx2, rs) := run ctx1 rest in
      (ctx2, r :: rs)
  end.

End TwoStep.

(** Modelled from the spec: a round that ends in success (section 6; the
    mechanisms are missing). *)
Definition is_success (r : step_result) : bool :=
  match r with Success _ => true | _ => false end.

(** Modelled from the spec: a round that asks for another client message
    (section 6; the mechanisms are missing). *)
Definition is_continue (r : step_result) : bool :=
  match r with Continue _ => true | _ => false end.

End Mechanism.

(* ===================================================================== *)
(** * Part II: the vocabulary of the properties                           *)
(* ===================================================================== *)

(** ** Lists of settings *)

(** The separators of a string list: space, tab, newline. *)
Definition separator (c : ascii) : bool :=
  Ascii.eqb c " " || Ascii.eqb c (ascii_of_nat 9) || Ascii.eqb c (ascii_of_nat 10).

Fixpoint all_chars (p : ascii -> bool) (s : string) : bool :=
  match s with
  | EmptyString => true
  | String c s' => p c && all_chars p s'
  end.

(** A blank string holds separators only. *)
Definition blank (s : string) : bool := all_chars separator s.
Arguments blank s /.

(** A token is a non-empty run of characters that are not separators. *)
Definition is_token (t : string) : Prop :=
  t <> EmptyString /\ all_chars (fun c => negb (separator c)) t = true.

(** [tokenises s toks]: [toks] are the maximal separator-free runs of
    [s], left to right. *)
Inductive tokenises : string -> list string -> Prop :=
| tokenises_blank s :
    blank s = true -> tokenises s []
| tokenises_end seps t :
    blank seps = true -> is_token t ->
    tokenises (seps ++ t)%string [t]
| tokenises_more seps t c rest toks :
    blank seps = true -> is_token t -> separator c = true ->
    tokenises rest toks ->
    tokenises (seps ++ t ++ String c rest)%string (t :: toks).

(** The tokens the [strtok] loops of [oauth2_parse_string_list] visit,
    from a loop state on. *)
Equations? visited (token : option string) (save : string)
  : list string by wf (tok_measure token save) lt :=
  visited None _ := [];
  visited (Some tok) save :=
    tok :: visited (fst (CStr.strtok Config.list_delims save))
                   (snd (CStr.strtok Config.list_delims save)).
Proof. apply strtok_decreases. Qed.

(** The tokens of a whole input. *)
Definition tokens_of (s : string) : list string :=
  visited (fst (CStr.strtok Config.list_delims s))
          (snd (CStr.strtok Config.list_delims s)).


(** ** Settings and the failures of the loader *)

(** A setting is present when [getopt] succeeds with a non-NULL value. *)
Definition present (utils : Sasl.sasl_utils_t) (key : string) : bool :=
  Config.is_set (Config.getopt_value utils key).

(** A setting string that yields no entry: absent or blank. *)
Definition no_entries (p : option string) : bool :=
  match p with
  | None => true
  | Some s => blank s
  end.

(** The structure [oauth2_config_init] hands to the loader. *)
Definition fresh_config : oauth2_config_t :=
  {| discovery_urls := None; discovery_urls_count := 0;
     issuers := None; issuers_count := 0;
     audiences := None; audiences_count := 0;
     client_id := None; client_secret := None;
     scope := None; user_claim := None;
     verify_signature := 0; ssl_verify := 0; timeout := 0; debug := 0;
     oauth2_log := true |}.

(** The errors the loader logs before it returns [SASL_FAIL]. *)
Definition err_conflict (plural singular : string) : log_call :=
  Config.log LOG_ERR "Cannot configure both %s and %s - use only one form"
    [LogStr plural; LogStr singular].

Definition err_no_provider (m : plugin_macros) : log_call :=
  Config.log LOG_ERR "Either %s/%s or %s/%s must be configured"
    [LogStr (OAUTH2_CONF_DISCOVERY_URLS m); LogStr (OAUTH2_CONF_DISCOVERY_URL m);
     LogStr (OAUTH2_CONF_ISSUERS m); LogStr (OAUTH2_CONF_ISSUER m)].

Definition err_no_client (m : plugin_macros) : log_call :=
  Config.log LOG_ERR "%s must be configured" [LogStr (OAUTH2_CONF_CLIENT_ID m)].

Definition failure (c : oauth2_config_t) (tr : list log_call) (e : log_call)
  : Config.load_result :=
  {| Config.rc := Sasl.SASL_FAIL; Config.config_out := Some c;
     Config.trace := tr ++ [e]; Config.sink_level := None |}.

(** The taxonomy of section 7 of the specification. The loader returns
    [SASL_FAIL] for both kinds and tells them apart by the error it
    logs last. *)
Inductive ConfigError := ConflictingSetting | MissingRequired.

Definition classify (e : log_call) : option ConfigError :=
  match level e with
  | LOG_ERR =>
      if String.eqb (fmt e) "Cannot configure both %s and %s - use only one form"
      then Some ConflictingSetting
      else if String.eqb (fmt e) "Either %s/%s or %s/%s must be configured"
              || String.eqb (fmt e) "%s must be configured"
      then Some MissingRequired
      else None
  | _ => None
  end.

Definition load_error (r : Config.load_result) : option ConfigError :=
  if Config.rc r =? Sasl.SASL_FAIL then
    match rev (Config.trace r) with
    | e :: _ => classify e
    | [] => None
    end
  else None.

Definition is_err (c : log_call) : bool :=
  match level c with LOG_ERR => true | _ => false end.

Section LoadVocabulary.

Variable m : plugin_macros.
Variable utils : Sasl.sasl_utils_t.

(** Both forms of a setting family are present. *)
Definition conflict (plural singular : string) : bool :=
  present utils plural && present utils singular.

(** The form the loader parses: the plural one when present. *)
Definition chosen (plural singular : string) : option string :=
  if present utils plural then Config.getopt_value utils plural
  else Config.getopt_value utils singular.

Definition discovery_conflict : bool :=
  conflict (OAUTH2_CONF_DISCOVERY_URLS m) (OAUTH2_CONF_DISCOVERY_URL m).
Definition issuer_conflict : bool :=
  conflict (OAUTH2_CONF_ISSUERS m) (OAUTH2_CONF_ISSUER m).
Definition audience_conflict : bool :=
  conflict (OAUTH2_CONF_AUDIENCES m) (OAUTH2_CONF_AUDIENCE m).

Definition chosen_discovery : option string :=
  chosen (OAUTH2_CONF_DISCOVERY_URLS m) (OAUTH2_CONF_DISCOVERY_URL m).
Definition chosen_issuers : option string :=
  chosen (OAUTH2_CONF_ISSUERS m) (OAUTH2_CONF_ISSUER m).

(** Neither the discovery-endpoint nor the issuer settings yield an
    entry. *)
Definition no_provider : bool :=
  no_entries chosen_discovery && no_entries chosen_issuers.

Definition client_missing : bool :=
  negb (present utils (OAUTH2_CONF_CLIENT_ID m)).

(** The checks in the order of the source text, with the error each one
    logs. *)
Definition expected_failure : option log_call :=
  if discovery_conflict then
    Some (err_conflict (OAUTH2_CONF_DISCOVERY_URLS m) (OAUTH2_CONF_DISCOVERY_URL m))
  else if issuer_conflict then
    Some (err_conflict (OAUTH2_CONF_ISSUERS m) (OAUTH2_CONF_ISSUER m))
  else if no_provider then Some (err_no_provider m)
  else if client_missing then Some (err_no_client m)
  else if audience_conflict then
    Some (err_conflict (OAUTH2_CONF_AUDIENCES m) (OAUTH2_CONF_AUDIENCE m))
  else None.

(** The structure behind [config] after each block of
    [oauth2_config_load], from the structure [config] it starts with. *)
Variable config : oauth2_config_t.

Definition parse_family
  (set : oauth2_config_t -> option (list (option string)) * Z -> oauth2_config_t)
  (c : oauth2_config_t) (plural singular : string) : oauth2_config_t :=
  if Config.is_set (Config.oauth2_config_get_string utils plural None) then
    set c (Config.oauth2_parse_string_list
             (Config.oauth2_config_get_string utils plural None))
  else if Config.is_set (Config.oauth2_config_get_string utils singular None) then
    set c (Config.oauth2_parse_string_list
             (Config.oauth2_config_get_string utils singular None))
  else c.

Definition stage_discovery : oauth2_config_t :=
  parse_family Config.set_discovery_urls config
    (OAUTH2_CONF_DISCOVERY_URLS m) (OAUTH2_CONF_DISCOVERY_URL m).

Definition stage_issuers : oauth2_config_t :=
  parse_family Config.set_issuers stage_discovery
    (OAUTH2_CONF_ISSUERS m) (OAUTH2_CONF_ISSUER m).

Definition stage_derive : oauth2_config_t :=
  match discovery_urls stage_issuers, issuers stage_issuers with
  | None, Some iss =>
      Config.set_discovery_urls stage_issuers
        (Some (Config.derive_loop iss (Z.to_nat (issuers_count stage_issuers)) 0 []),
         issuers_count stage_issuers)
  | _, _ => stage_issuers
  end.

Definition stage_client : oauth2_config_t :=
  Config.set_client stage_derive
    (Config.oauth2_config_get_string utils (OAUTH2_CONF_CLIENT_ID m) None)
    (Config.oauth2_config_get_string utils (OAUTH2_CONF_CLIENT_SECRET m) None).

Definition stage_audiences : oauth2_config_t :=
  parse_family Config.set_audiences stage_client
    (OAUTH2_CONF_AUDIENCES m) (OAUTH2_CONF_AUDIENCE m).

Definition stage_validation : oauth2_config_t :=
  Config.set_validation stage_audiences
    (Config.oauth2_config_get_string utils (OAUTH2_CONF_SCOPE m)
       (Some (OAUTH2_DEFAULT_SCOPE m)))
    (Config.oauth2_config_get_string utils (OAUTH2_CONF_USER_CLAIM m)
       (Some (OAUTH2_DEFAULT_USER_CLAIM m)))
    (Config.oauth2_config_get_bool utils (OAUTH2_CONF_VERIFY_SIGNATURE m)
       (OAUTH2_DEFAULT_VERIFY_SIGNATURE m)).

Definition stage_network : oauth2_config_t :=
  Config.set_network stage_validation
    (Config.oauth2_config_get_bool utils (OAUTH2_CONF_SSL_VERIFY m)
       (OAUTH2_DEFAULT_SSL_VERIFY m))
    (fst (Config.oauth2_config_get_int utils (OAUTH2_CONF_TIMEOUT m)
            (OAUTH2_DEFAULT_TIMEOUT m)))
    (Config.oauth2_config_get_bool utils (OAUTH2_CONF_DEBUG m)
       (OAUTH2_DEFAULT_DEBUG m)).

Definition trace_start : list log_call :=
  [Config.log LOG_DEBUG "Reading OAuth2 configuration from SASL" []].

Definition trace_client : list log_call :=
  trace_start ++ [Config.log LOG_DEBUG "Client ID configured: %s"
                    [LogStr (Config.str_or (client_id stage_client) "N/A")]].

(** The result of a load that passes every check. *)
Definition loaded : Config.load_result :=
  {| Config.rc := Sasl.SASL_OK;
     Config.config_out := Some stage_network;
     Config.trace :=
       (trace_client
          ++ snd (Config.oauth2_config_get_int utils (OAUTH2_CONF_TIMEOUT m)
                    (OAUTH2_DEFAULT_TIMEOUT m)))
       ++ [Config.log LOG_DEBUG "Network: SSL verify=%s, timeout=%ds, debug=%s"
             [LogStr (Config.yes_no (ssl_verify stage_network));
              LogInt (timeout stage_network);
              LogStr (Config.yes_no (debug stage_network))];
           Config.log LOG_INFO "OAuth2 configuration loaded: %d providers, %d audiences"
             [LogInt (discovery_urls_count stage_network);
              LogInt (audiences_count stage_network)];
           Config.log LOG_DEBUG "User claim: %s, signature verification: %s"
             [LogStr (Config.str_or (user_claim stage_network) "(null)");
              LogStr (if verify_signature stage_network =? 0
                      then "disabled" else "enabled")]];
     Config.sink_level :=
       if oauth2_log stage_network then
         Some (if debug stage_network =? 0 then OAUTH2_LOG_WARN
               else OAUTH2_LOG_TRACE1)
       else None |}.

End LoadVocabulary.

(** ** Concrete settings

    The setting names the tests use ([oauth2_issuers], [oauth2_audiences],
    [oauth2_client_id], [oauth2_user_claim], [oauth2_verify_signature]),
    the other names on the same pattern, and sample defaults. *)
Definition sample_macros : plugin_macros :=
  {| OAUTH2_CONF_DISCOVERY_URLS := "oauth2_discovery_urls";
     OAUTH2_CONF_DISCOVERY_URL := "oauth2_discovery_url";
     OAUTH2_CONF_ISSUERS := "oauth2_issuers";
     OAUTH2_CONF_ISSUER := "oauth2_issuer";
     OAUTH2_CONF_CLIENT_ID := "oauth2_client_id";
     OAUTH2_CONF_CLIENT_SECRET := "oauth2_client_secret";
     OAUTH2_CONF_AUDIENCES := "oauth2_audiences";
     OAUTH2_CONF_AUDIENCE := "oauth2_audience";
     OAUTH2_CONF_SCOPE := "oauth2_scope";
     OAUTH2_CONF_USER_CLAIM := "oauth2_user_claim";
     OAUTH2_CONF_VERIFY_SIGNATURE := "oauth2_verify_signature";
     OAUTH2_CONF_SSL_VERIFY := "oauth2_ssl_verify";
     OAUTH2_CONF_TIMEOUT := "oauth2_timeout";
     OAUTH2_CONF_DEBUG := "oauth2_debug";
     OAUTH2_DEFAULT_SCOPE := "openid";
     OAUTH2_DEFAULT_USER_CLAIM := "email";
     OAUTH2_DEFAULT_VERIFY_SIGNATURE := 1;
     OAUTH2_DEFAULT_SSL_VERIFY := 1;
     OAUTH2_DEFAULT_TIMEOUT := 10;
     OAUTH2_DEFAULT_DEBUG := 0 |}.

(** A settings callback that answers from a table of [oauth2] options,
    like [server_getopt]: a listed option is returned with [SASL_OK], any
    other request gets NULL and [SASL_FAIL]. *)
Fixpoint lookup (table : list (string * string)) (opt : string) : option string :=
  match table with
  | [] => None
  | (k, v) :: rest => if String.eqb opt k then Some v else lookup rest opt
  end.

Definition table_utils (table : list (string * string)) : Sasl.sasl_utils_t :=
  {| Sasl.getopt := fun plugin_name opt =>
       if String.eqb plugin_name "oauth2" then
         match lookup table opt with
         | Some v => (Sasl.SASL_OK, Some v)
         | None => (Sasl.SASL_FAIL, None)
         end
       else (Sasl.SASL_FAIL, None) |}.

(** The configuration of [test_plugin_init_partial_config] (issuers and
    audiences, no client identifier) with the singular audience form
    added. *)
Definition both_audiences_no_client : Sasl.sasl_utils_t :=
  table_utils [("oauth2_issuers", "https://test.issuer.com");
               ("oauth2_audiences", "test_audience");
               ("oauth2_audience", "other_audience")].

(** ** Discovery endpoints derived from issuers *)

(** An issuer without its single trailing slash, if it has one. *)
Fixpoint strip_slash (s : string) : string :=
  match s with
  | EmptyString => EmptyString
  | String c EmptyString => if Ascii.eqb c "/" then EmptyString else s
  | String c s' => String c (strip_slash s')
  end.

(** The discovery endpoint of an issuer. *)
Definition derived_endpoint (issuer : string) : string :=
  (strip_slash issuer ++ "/.well-known/openid-configuration")%string.

Definition both_issuers : Sasl.sasl_utils_t :=
  table_utils [("oauth2_issuers", "https://issuer1.com https://issuer2.com");
               ("oauth2_issuer", "https://test.issuer.com");
               ("oauth2_client_id", "test_client")].

Definition both_audiences : Sasl.sasl_utils_t :=
  table_utils [("oauth2_issuers", "https://test.issuer.com");
               ("oauth2_audiences", "test_audience");
               ("oauth2_audience", "other_audience");
               ("oauth2_client_id", "test_client")].

Definition no_settings : Sasl.sasl_utils_t := table_utils [].

Definition only_issuer (issuer : string) : Sasl.sasl_utils_t :=
  table_utils [("oauth2_issuer", issuer); ("oauth2_client_id", "test_client")].

(** ** Boolean and integer settings *)

(** A setting string as C holds it: no NUL inside. *)
Definition c_string (s : string) : Prop :=
  all_chars (fun c => negb (Ascii.eqb c Ascii.zero)) s = true.

Fixpoint lower (s : string) : string :=
  match s with
  | EmptyString => EmptyString
  | String c s' => String (CStr.tolower c) (lower s')
  end.

(** Equal to [yes], [true] or [1] when case is ignored. *)
Definition truthy (v : string) : Prop :=
  lower v = "yes" \/ lower v = "true" \/ lower v = "1".

Definition verify_no : Sasl.sasl_utils_t :=
  table_utils [("oauth2_verify_signature", "no"); ("oauth2_debug", "TRUE")].

(** The value of a run of decimal digits, by position. *)
Fixpoint decimal_value (ds : string) : Z :=
  match ds with
  | EmptyString => 0
  | String c r => (CStr.code c - 48) * 10 ^ Z.of_nat (String.length r) + decimal_value r
  end.

Definition signed (sg : string) (n : Z) : Z :=
  if String.eqb sg "-" then - n else n.

(** A well-formed decimal integer: optional white space, an optional
    sign, one or more digits, and nothing after them. *)
Inductive decimal_literal : string -> Z -> Prop :=
| decimal_literal_intro ws sg ds :
    all_chars CStr.isspace ws = true ->
    sg = EmptyString \/ sg = "+" \/ sg = "-" ->
    ds <> EmptyString -> all_chars CStr.isdigit ds = true ->
    decimal_literal (ws ++ sg ++ ds)%string (signed sg (decimal_value ds)).

(** No digit anywhere; a last character that is not a digit. *)
Definition has_digit (s : string) : bool :=
  negb (all_chars (fun c => negb (CStr.isdigit c)) s).

Fixpoint ends_with_digit (s : string) : bool :=
  match s with
  | EmptyString => false
  | String c EmptyString => CStr.isdigit c
  | String _ s' => ends_with_digit s'
  end.

(** The three ways of not being numeric: empty, without a digit, with
    something other than a digit at the end. *)
Definition non_numeric (v : string) : Prop :=
  v = EmptyString \/ has_digit v = false \/ ends_with_digit v = false.

(** The value [strtol] reports for the integer [v]. *)
Definition clamp_long (v : Z) : Z := Z.max CStr.LONG_MIN (Z.min CStr.LONG_MAX v).

Definition in_int_range (n : Z) : Prop := CStr.INT_MIN <= n <= CStr.INT_MAX.

Definition is_warning (c : log_call) : bool :=
  match level c with LOG_WARN => true | _ => false end.

Definition with_timeout (value : string) : Sasl.sasl_utils_t :=
  table_utils [("oauth2_issuers", "https://test.issuer.com");
               ("oauth2_client_id", "test_client");
               ("oauth2_timeout", value)].

(** ** Wire messages *)

(** A field that does not hold the delimiter byte 0x01. *)
Definition no_soh (s : string) : Prop :=
  all_chars (fun c => negb (Ascii.eqb c TestUtils.SOH)) s = true.

(** Two (name, token) pairs whose single-step messages coincide. *)
Definition name_with_soh : string :=
  String "a" (String TestUtils.SOH "auth=Bearer x").
Definition token_with_soh : string :=
  String "x" (String TestUtils.SOH "auth=Bearer y").

(** ** The claims validator *)

(** The error of the first check that rejects, if any. *)
Fixpoint first_error (checks : list Validator.check) : option Validator.AttemptError :=
  match checks with
  | [] => None
  | Some e :: _ => Some e
  | None :: rest => first_error rest
  end.

(** A token that every check rejects, and a configuration for it. *)
Definition bad_claims : Validator.Claims :=
  {| Validator.iss := Some "https://evil.example";
     Validator.aud := Validator.AudScalar "other";
     Validator.exp := Some 100;
     Validator.nbf := Some 5000;
     Validator.iat := None;
     Validator.string_claim := fun _ => None |}.

Definition bad_token : Validator.Token :=
  {| Validator.header_alg := "none";
     Validator.signing_input := "e30.e30";
     Validator.signature := "";
     Validator.claims := bad_claims |}.

Definition strict_config : oauth2_config_t :=
  {| discovery_urls := Some [Some "https://test.issuer.com/.well-known/openid-configuration"];
     discovery_urls_count := 1;
     issuers := Some [Some "https://test.issuer.com"; None]; issuers_count := 1;
     audiences := Some [Some "test_audience"; None]; audiences_count := 1;
     client_id := Some "test_client"; client_secret := None;
     scope := Some "openid"; user_claim := Some "email";
     verify_signature := 1; ssl_verify := 1; timeout := 10; debug := 0;
     oauth2_log := true |}.

(** A resolver with no key set and a primitive that accepts nothing. *)
Definition no_keys (_ : oauth2_config_t) (_ : Validator.Token) : option unit := None.
Definition reject_all (_ : unit) (_ : Validator.Token) : bool := false.

(** ** The two-step mechanism *)

(** A validator that finds every token expired. *)
Definition always_expired (_ : string) : string + Validator.AttemptError :=
  inr (Validator.Invalid Validator.Expired).

Definition is_failure (r : Mechanism.step_result) : bool :=
  match r with Mechanism.Failure _ => true | _ => false end.

(* ===================================================================== *)
(** * Further vocabulary: the rest of the loader and of the test code     *)
(* ===================================================================== *)

(** ** Lists and their counts *)


(** The entries a setting string yields. *)
Definition entries_of (p : option string) : list string :=
  match p with
  | None => []
  | Some s => tokens_of s
  end.

(** The names of the settings the loader asks for. *)
Definition setting_names (m : plugin_macros) : list string :=
  [OAUTH2_CONF_DISCOVERY_URLS m; OAUTH2_CONF_DISCOVERY_URL m;
   OAUTH2_CONF_ISSUERS m; OAUTH2_CONF_ISSUER m;
   OAUTH2_CONF_CLIENT_ID m; OAUTH2_CONF_CLIENT_SECRET m;
   OAUTH2_CONF_AUDIENCES m; OAUTH2_CONF_AUDIENCE m;
   OAUTH2_CONF_SCOPE m; OAUTH2_CONF_USER_CLAIM m;
   OAUTH2_CONF_VERIFY_SIGNATURE m; OAUTH2_CONF_SSL_VERIFY m;
   OAUTH2_CONF_TIMEOUT m; OAUTH2_CONF_DEBUG m].

(** The last character of a string is a slash. *)
Fixpoint ends_with_slash (s : string) : bool :=
  match s with
  | EmptyString => false
  | String c EmptyString => Ascii.eqb c "/"
  | String _ s' => ends_with_slash s'
  end.

Definition issuers_and_discovery : Sasl.sasl_utils_t :=
  table_utils [("oauth2_discovery_urls", "https://a.example/meta  https://b.example/meta");
               ("oauth2_issuers", "https://a.example/ https://b.example");
               ("oauth2_client_id", "test_client");
               ("oauth2_debug", "yes")].

Definition chosen_audiences (m : plugin_macros) (utils : Sasl.sasl_utils_t)
  : option string :=
  chosen utils (OAUTH2_CONF_AUDIENCES m) (OAUTH2_CONF_AUDIENCE m).

(** The array and count [oauth2_parse_string_list] returns for the
    entries [l]. *)
Definition listed (l : list string) : option (list (option string)) * Z :=
  match l with
  | [] => (None, 0)
  | _ => (Some (map Some l ++ [None]), Z.of_nat (List.length l))
  end.

(** The discovery endpoints a load ends with: the explicit ones when
    there are any, otherwise one derived from each issuer. *)
Definition providers (d i : list string) : option (list (option string)) * Z :=
  match d, i with
  | [], [] => (None, 0)
  | [], _ => (Some (map (fun x => Some (derived_endpoint x)) i),
              Z.of_nat (List.length i))
  | _, _ => listed d
  end.

(** The value of an [int] setting is accepted: a decimal literal in the
    range of [int]. *)
Definition accepted_int (v : string) : Prop :=
  exists n, decimal_literal v n /\ in_int_range n.

Definition other_namespace : Sasl.sasl_utils_t :=
  {| Sasl.getopt := fun plugin_name opt =>
       if String.eqb plugin_name "oauth2" then
         MiniServer.server_getopt plugin_name opt
       else (Sasl.SASL_OK, Some "unrelated") |}.

(** *** The base64 decoder *)

(** The alphabet of RFC 4648, section 4. *)
Definition alphabet : string :=
  "ABCDEFGHIJKLMNOPQRSTUVWXYZabcdefghijklmnopqrstuvwxyz0123456789+/".

Definition in_alphabet (c : ascii) : bool :=
  existsb (Ascii.eqb c) (list_ascii_of_string alphabet).

(** The characters the loop of the decoder looks up: those before the
    first ['=']. *)
Fixpoint data_part (s : string) : string :=
  match s with
  | EmptyString => EmptyString
  | String c rest =>
      if Ascii.eqb c "=" then EmptyString else String c (data_part rest)
  end.

Definition data_chars (s : string) : list ascii :=
  list_ascii_of_string (data_part s).

(** The size of the allocation for the source text [s]. *)
Definition padding_of (s : string) : Z :=
  if 2 <=? CStr.strlen s then
    (if Ascii.eqb (TestFramework.char_at s (CStr.strlen s - 1)) "=" then 1 else 0)
    + (if Ascii.eqb (TestFramework.char_at s (CStr.strlen s - 2)) "=" then 1 else 0)
  else 0.

Definition capacity_of (s : string) : Z :=
  TestFramework.size_t
    (TestFramework.size_t
       (TestFramework.size_t (CStr.strlen s * 3) / 4 - padding_of s) + 1).

(** The text a base64 encoder writes for [bytes], without and with its
    padding. *)
Definition digit (v : Z) : ascii := TestFramework.char_at alphabet v.

Fixpoint sextets (bytes : list Z) : list Z :=
  match bytes with
  | a :: b :: c :: rest =>
      a / 4 :: a mod 4 * 16 + b / 16 :: b mod 16 * 4 + c / 64 :: c mod 64
        :: sextets rest
  | [a; b] => [a / 4; a mod 4 * 16 + b / 16; b mod 16 * 4]
  | [a] => [a / 4; a mod 4 * 16]
  | [] => []
  end.

Definition base64 (bytes : list Z) : string :=
  string_of_list_ascii (map digit (sextets bytes)).

Definition pad (bytes : list Z) : string :=
  match (List.length bytes mod 3)%nat with
  | 1%nat => "=="
  | 2%nat => "="
  | _ => EmptyString
  end.

Definition is_byte (b : Z) : Prop := 0 <= b < 256.

(** *** The counting macros of the unit tests *)

(** The value a test function returns. *)
Fixpoint returns (body : list TestFramework.statement) : Z :=
  match body with
  | [] => 0
  | TestFramework.TEST_ASSERT condition :: rest =>
      if condition then returns rest else -1
  | TestFramework.Return value :: _ => value
  end.

(** The number of assertions it evaluates. *)
Fixpoint asserts_run (body : list TestFramework.statement) : Z :=
  match body with
  | [] => 0
  | TestFramework.TEST_ASSERT condition :: rest =>
      1 + (if condition then asserts_run rest else 0)
  | TestFramework.Return _ :: _ => 0
  end.

(** Whether it stops at an assertion that does not hold. *)
Fixpoint assert_fails (body : list TestFramework.statement) : bool :=
  match body with
  | [] => false
  | TestFramework.TEST_ASSERT condition :: rest =>
      if condition then assert_fails rest else true
  | TestFramework.Return _ :: _ => false
  end.

Definition flag (b : bool) : Z := if b then 1 else 0.

Definition sum (f : list TestFramework.statement -> Z)
    (tests : list (list TestFramework.statement)) : Z :=
  fold_right (fun t acc => f t + acc) 0 tests.
(* ===================================================================== *)
(** * Part III: the properties                                            *)
(* ===================================================================== *)

(** ** [strtok] on the separators of a string list *)

Lemma mem_list_delims c : CStr.mem Config.list_delims c = separator c.
Proof.
  unfold Config.list_delims, separator; simpl.
  now rewrite orb_false_r, orb_assoc.
Qed.

Section Tokens.

(** Any delimiter set that holds exactly the separators. *)
Variable d : string.
Hypothesis mem_d : forall c, CStr.mem d c = separator c.

Lemma skip_span_blank seps s :
  blank seps = true ->
  CStr.skip_span d (seps ++ s)%string = CStr.skip_span d s.
Proof.
  induction seps as [|c seps IH]; simpl; [reflexivity|].
  intros H; apply andb_true_iff in H as [Hc Hs].
  rewrite mem_d, Hc. now apply IH.
Qed.

Lemma skip_span_all_blank s :
  blank s = true -> CStr.skip_span d s = EmptyString.
Proof.
  induction s as [|c s IH]; simpl; [reflexivity|].
  intros H; apply andb_true_iff in H as [Hc Hs].
  rewrite mem_d, Hc. now apply IH.
Qed.

Lemma skip_span_empty_blank s :
  CStr.skip_span d s = EmptyString -> blank s = true.
Proof.
  induction s as [|c s IH]; simpl; [reflexivity|].
  rewrite mem_d. destruct (separator c); simpl; [exact IH|discriminate].
Qed.

Lemma skip_span_split s :
  exists seps, blank seps = true /\ s = (seps ++ CStr.skip_span d s)%string.
Proof.
  induction s as [|c s (seps & Hb & Hs)]; simpl.
  - exists EmptyString; split; reflexivity.
  - rewrite mem_d. destruct (separator c) eqn:Hc.
    + exists (String c seps); simpl in *; rewrite Hc, Hb; split; [reflexivity|].
      now rewrite <- Hs.
    + exists EmptyString; split; reflexivity.
Qed.

Lemma scan_token_end t :
  all_chars (fun c => negb (separator c)) t = true ->
  CStr.scan_token d t = (t, EmptyString).
Proof.
  induction t as [|c t IH]; simpl; [reflexivity|].
  intros H; apply andb_true_iff in H as [Hc Ht].
  rewrite mem_d. apply negb_true_iff in Hc. rewrite Hc.
  now rewrite (IH Ht).
Qed.

Lemma scan_token_sep t c rest :
  all_chars (fun c => negb (separator c)) t = true ->
  separator c = true ->
  CStr.scan_token d (t ++ String c rest)%string = (t, rest).
Proof.
  intros Ht Hc. induction t as [|a t IH]; simpl.
  - now rewrite mem_d, Hc.
  - simpl in Ht; apply andb_true_iff in Ht as [Ha Ht].
    rewrite mem_d. apply negb_true_iff in Ha. rewrite Ha.
    now rewrite (IH Ht).
Qed.

Lemma scan_token_split s :
  all_chars (fun c => negb (separator c)) (fst (CStr.scan_token d s)) = true
  /\ (s = fst (CStr.scan_token d s) /\ snd (CStr.scan_token d s) = EmptyString
      \/ exists c, separator c = true
           /\ s = (fst (CStr.scan_token d s)
                     ++ String c (snd (CStr.scan_token d s)))%string).
Proof.
  induction s as [|a s (Hall & Hs)]; simpl.
  - split; [reflexivity|]. left; split; reflexivity.
  - rewrite mem_d. destruct (separator a) eqn:Ha; simpl.
    + split; [reflexivity|]. right. exists a. split; [exact Ha|reflexivity].
    + destruct (CStr.scan_token d s) as [tok save]; simpl in *.
      rewrite Ha, Hall. split; [reflexivity|].
      destruct Hs as [[-> ->]|(c & Hc & ->)].
      * left; split; reflexivity.
      * right. exists c. split; [exact Hc|reflexivity].
Qed.

Lemma strtok_blank s :
  blank s = true -> CStr.strtok d s = (None, EmptyString).
Proof. intros H. unfold CStr.strtok. now rewrite skip_span_all_blank. Qed.

Lemma skip_span_token t s :
  is_token t -> CStr.skip_span d (t ++ s)%string = (t ++ s)%string.
Proof.
  intros [Hne Hall]. destruct t as [|c t]; [congruence|]. simpl in *.
  apply andb_true_iff in Hall as [Hc _]. apply negb_true_iff in Hc.
  now rewrite mem_d, Hc.
Qed.

Lemma strtok_live s :
  CStr.skip_span d s <> EmptyString ->
  CStr.strtok d s
  = (Some (fst (CStr.scan_token d (CStr.skip_span d s))),
     snd (CStr.scan_token d (CStr.skip_span d s))).
Proof.
  intros H. unfold CStr.strtok.
  destruct (CStr.skip_span d s) as [|c r]; [congruence|].
  now destruct (CStr.scan_token d (String c r)).
Qed.

Lemma token_app_live t s : is_token t -> (t ++ s)%string <> EmptyString.
Proof. intros [Hne _]. destruct t; [congruence|discriminate]. Qed.

Lemma append_empty_r s : (s ++ "")%string = s.
Proof. induction s; simpl; congruence. Qed.

Lemma strtok_end seps t :
  blank seps = true -> is_token t ->
  CStr.strtok d (seps ++ t)%string = (Some t, EmptyString).
Proof.
  intros Hb Ht.
  assert (E : CStr.skip_span d (seps ++ t)%string = t).
  { rewrite skip_span_blank by exact Hb.
    pose proof (skip_span_token t EmptyString Ht) as H.
    now rewrite append_empty_r in H. }
  rewrite strtok_live; rewrite E.
  - now rewrite (scan_token_end _ (proj2 Ht)).
  - exact (proj1 Ht).
Qed.

Lemma strtok_more seps t c rest :
  blank seps = true -> is_token t -> separator c = true ->
  CStr.strtok d (seps ++ t ++ String c rest)%string = (Some t, rest).
Proof.
  intros Hb Ht Hc.
  assert (E : CStr.skip_span d (seps ++ t ++ String c rest)%string
              = (t ++ String c rest)%string).
  { rewrite skip_span_blank by exact Hb. now apply skip_span_token. }
  rewrite strtok_live; rewrite E.
  - now rewrite (scan_token_sep _ _ _ (proj2 Ht) Hc).
  - now apply token_app_live.
Qed.

(** What a live [strtok] result says about its input. *)
Lemma strtok_split s t save :
  CStr.strtok d s = (Some t, save) ->
  exists seps, blank seps = true /\ is_token t
    /\ (s = (seps ++ t)%string /\ save = EmptyString
        \/ exists c, separator c = true
             /\ s = (seps ++ t ++ String c save)%string).
Proof.
  unfold CStr.strtok. intros H.
  destruct (skip_span_split s) as (seps & Hb & Hs).
  destruct (CStr.skip_span d s) as [|a r] eqn:E; [discriminate|].
  pose proof (skip_span_head _ _ _ _ E) as Ha. rewrite mem_d in Ha.
  pose proof (scan_token_split (String a r)) as (Hall & Hsplit).
  destruct (CStr.scan_token d (String a r)) as [tok sv] eqn:Es.
  injection H as <- <-. simpl in Hall, Hsplit.
  exists seps. split; [exact Hb|]. split.
  - split; [|exact Hall].
    simpl in Es. rewrite mem_d, Ha in Es.
    destruct (CStr.scan_token d r); injection Es as <- _. discriminate.
  - destruct Hsplit as [[Ht Hsv]|(c & Hc & Ht)].
    + left. split; [now rewrite Hs, Ht at 1|exact Hsv].
    + right. exists c. split; [exact Hc|]. now rewrite Hs, Ht at 1.
Qed.

End Tokens.

(** ** [oauth2_parse_string_list] *)

Section ParseList.

Lemma strtok_dead s save :
  CStr.strtok Config.list_delims s = (None, save) -> blank s = true.
Proof.
  unfold CStr.strtok. intros H.
  destruct (CStr.skip_span Config.list_delims s) as [|c r] eqn:E.
  - exact (skip_span_empty_blank Config.list_delims mem_list_delims s E).
  - destruct (CStr.scan_token Config.list_delims (String c r)); discriminate.
Qed.

Lemma tokens_of_empty : tokens_of EmptyString = [].
Proof. reflexivity. Qed.

Lemma tokens_of_blank s : blank s = true -> tokens_of s = [].
Proof.
  intros H. unfold tokens_of.
  rewrite (strtok_blank Config.list_delims mem_list_delims s H). simpl. now simp visited.
Qed.

(** The loops visit the tokens of every tokenisation: there is one. *)
Lemma tokenises_tokens_of s toks : tokenises s toks -> tokens_of s = toks.
Proof.
  induction 1 as [s Hb|seps t Hb Ht|seps t c rest toks Hb Ht Hc _ IH].
  - now apply tokens_of_blank.
  - unfold tokens_of. rewrite (strtok_end Config.list_delims mem_list_delims _ _ Hb Ht).
    simpl. now simp visited.
  - unfold tokens_of.
    rewrite (strtok_more Config.list_delims mem_list_delims _ _ _ _ Hb Ht Hc).
    simpl. simp visited. fold (tokens_of rest). now rewrite IH.
Qed.

Lemma tokens_of_tokenises_len n :
  forall s, (String.length s < n)%nat -> tokenises s (tokens_of s).
Proof.
  induction n as [|n IH]; intros s Hlen; [lia|].
  destruct (CStr.strtok Config.list_delims s) as [[t|] save] eqn:E.
  - destruct (strtok_split Config.list_delims mem_list_delims s t save E)
      as (seps & Hb & Ht & [[Hs Hsave]|(c & Hc & Hs)]).
    + assert (Et : tokens_of s = [t]).
      { unfold tokens_of. rewrite E, Hsave. simpl. now simp visited. }
      rewrite Et, Hs. now constructor.
    + assert (Et : tokens_of s = t :: tokens_of save).
      { unfold tokens_of at 1. rewrite E. simpl. now simp visited. }
      rewrite Et. rewrite Hs at 1. constructor; try assumption.
      apply IH. pose proof (strtok_decreases Config.list_delims s) as Hd.
      rewrite E in Hd. simpl in Hd. lia.
  - assert (Hb := strtok_dead s save E).
    rewrite (tokens_of_blank s Hb). now constructor.
Qed.

Lemma tokens_of_tokenises s : tokenises s (tokens_of s).
Proof. exact (tokens_of_tokenises_len (S (String.length s)) s (Nat.lt_succ_diag_r _)). Qed.

(** The first pass counts the tokens. *)
Lemma count_loop_visited token save n :
  Config.count_loop token save n = n + Z.of_nat (List.length (visited token save)).
Proof.
  funelim (Config.count_loop token save n); simp visited; simpl List.length; lia.
Qed.

(** The second pass stores them, in order, when the array has room. *)
Lemma fill_loop_visited k token save cells i :
  i + Z.of_nat (List.length (visited token save)) <= k ->
  Config.fill_loop k token save cells i
  = (cells ++ map Some (visited token save),
     i + Z.of_nat (List.length (visited token save))).
Proof.
  funelim (Config.fill_loop k token save cells i); simp visited;
    simpl List.length; simpl map; intros Hk.
  - destruct (i <? item_count) eqn:Hi.
    + match goal with IH : _ -> Config.fill_loop _ _ _ _ _ = _ |- _ =>
        rewrite IH by lia end.
      rewrite <- app_assoc. simpl. f_equal. lia.
    + apply Z.ltb_ge in Hi. lia.
  - rewrite app_nil_r. f_equal. lia.
Qed.

Lemma parse_string_list_tokens s :
  Config.oauth2_parse_string_list (Some s)
  = match tokens_of s with
    | [] => (None, 0)
    | toks => (Some (map Some toks ++ [None]), Z.of_nat (List.length toks))
    end.
Proof.
  unfold Config.oauth2_parse_string_list, CStr.strlen.
  destruct s as [|c s]; [reflexivity|].
  change (Z.of_nat (String.length (String c s)) =? 0) with false.
  cbv iota. unfold tokens_of.
  destruct (CStr.strtok Config.list_delims (String c s)) as [token save]. simpl fst; simpl snd.
  rewrite count_loop_visited. simpl (0 + _).
  destruct (visited token save) as [|t toks] eqn:Ev; [reflexivity|].
  change (Z.of_nat (List.length (t :: toks)) =? 0) with false. cbv iota.
  rewrite fill_loop_visited by (rewrite Ev; lia).
  rewrite Ev. reflexivity.
Qed.

Lemma parse_string_list_live s toks :
  tokenises s toks -> toks <> [] ->
  Config.oauth2_parse_string_list (Some s)
  = (Some (map Some toks ++ [None]), Z.of_nat (List.length toks)).
Proof.
  intros Ht Hne. rewrite parse_string_list_tokens.
  rewrite (tokenises_tokens_of s toks Ht).
  destruct toks; [congruence|reflexivity].
Qed.

End ParseList.

(** C9. For every input, [oauth2_parse_string_list] either returns NULL
    with [*count] set to 0, which happens exactly when the input is NULL,
    empty, or holds no token with respect to the separators space, tab and
    newline; or it returns a NULL-terminated array whose entries before
    the terminator are exactly the tokens of the input in their original
    order, their number being the value stored in [*count]. Every input
    string has such a tokenisation. *)
Theorem parse_string_list_spec (input : option string) :
  (fst (Config.oauth2_parse_string_list input) = None
   <-> input = None \/ input = Some EmptyString
       \/ exists s, input = Some s /\ tokenises s [])
  /\ (fst (Config.oauth2_parse_string_list input) = None ->
      snd (Config.oauth2_parse_string_list input) = 0)
  /\ (forall s toks,
        input = Some s -> tokenises s toks -> toks <> [] ->
        Config.oauth2_parse_string_list input
        = (Some (map Some toks ++ [None]), Z.of_nat (List.length toks)))
  /\ (forall s, input = Some s -> exists toks, tokenises s toks).
Proof.
  destruct input as [s|].
  - rewrite parse_string_list_tokens.
    pose proof (tokens_of_tokenises s) as Htok.
    destruct (tokens_of s) as [|t toks] eqn:E; simpl.
    + repeat split.
      * intros _. right; right. exists s. now split.
      * intros s' l [= <-] Hl Hne. apply tokenises_tokens_of in Hl. congruence.
      * intros s' [= <-]. now exists [].
    + repeat split; try discriminate.
      * intros [H|[H|(s' & H & Hl)]]; try discriminate.
        -- injection H as ->. discriminate.
        -- injection H as <-. apply tokenises_tokens_of in Hl. congruence.
      * intros s' l [= <-] Hl _. apply tokenises_tokens_of in Hl.
        rewrite E in Hl. now subst l.
      * intros s' [= <-]. now exists (t :: toks).
  - simpl. repeat split; try discriminate. now left.
Qed.

Lemma parse_string_list_spec_witness :
  Config.oauth2_parse_string_list (Some "https://issuer1.com https://issuer2.com")
  = (Some [Some "https://issuer1.com"; Some "https://issuer2.com"; None], 2).
Proof.
  destruct (parse_string_list_spec (Some "https://issuer1.com https://issuer2.com"))
    as (_ & _ & H & _).
  apply (H "https://issuer1.com https://issuer2.com"
           ["https://issuer1.com"; "https://issuer2.com"]).
  - reflexivity.
  - apply (tokenises_more "" "https://issuer1.com" " " "https://issuer2.com"
             ["https://issuer2.com"]).
    + reflexivity.
    + split; [discriminate|reflexivity].
    + reflexivity.
    + apply (tokenises_end "" "https://issuer2.com").
      * reflexivity.
      * split; [discriminate|reflexivity].
  - discriminate.
Defined.

(** ** [oauth2_config_load], block by block *)

Section LoadBlocks.

Variable m : plugin_macros.
Variable utils : Sasl.sasl_utils_t.
Variable config : oauth2_config_t.

Lemma get_string_present key :
  Config.is_set (Config.oauth2_config_get_string utils key None)
  = present utils key.
Proof.
  unfold Config.oauth2_config_get_string, present.
  now destruct (Config.getopt_value utils key).
Qed.

Lemma get_string_value key :
  Config.oauth2_config_get_string utils key None = Config.getopt_value utils key.
Proof.
  unfold Config.oauth2_config_get_string.
  now destruct (Config.getopt_value utils key).
Qed.

(** The loader is the chain of its five checks around its blocks. *)
Lemma load_blocks :
  Config.oauth2_config_load m (Some config) (Some utils)
  = if discovery_conflict m utils then
      failure config trace_start
        (err_conflict (OAUTH2_CONF_DISCOVERY_URLS m) (OAUTH2_CONF_DISCOVERY_URL m))
    else if issuer_conflict m utils then
      failure (stage_discovery m utils config) trace_start
        (err_conflict (OAUTH2_CONF_ISSUERS m) (OAUTH2_CONF_ISSUER m))
    else if negb (Config.is_set (discovery_urls (stage_issuers m utils config)))
            && negb (Config.is_set (issuers (stage_issuers m utils config))) then
      failure (stage_issuers m utils config) trace_start (err_no_provider m)
    else if client_missing m utils then
      failure (stage_client m utils config) trace_start (err_no_client m)
    else if audience_conflict m utils then
      failure (stage_client m utils config) (trace_client m utils config)
        (err_conflict (OAUTH2_CONF_AUDIENCES m) (OAUTH2_CONF_AUDIENCE m))
    else loaded m utils config.
Proof.
  unfold discovery_conflict, issuer_conflict, audience_conflict, client_missing,
    conflict.
  rewrite <- !get_string_present.
  unfold Config.oauth2_config_load, loaded, stage_network.
  destruct (Config.oauth2_config_get_int utils (OAUTH2_CONF_TIMEOUT m)
              (OAUTH2_DEFAULT_TIMEOUT m)) as [t w].
  reflexivity.
Qed.

End LoadBlocks.

(** ** The checks of the loader on a fresh configuration *)

Lemma tokenises_nil_blank s : tokenises s [] -> blank s = true.
Proof. inversion 1; assumption. Qed.

Lemma parse_is_set p :
  Config.is_set (fst (Config.oauth2_parse_string_list p)) = negb (no_entries p).
Proof.
  destruct p as [s|]; [|reflexivity].
  rewrite parse_string_list_tokens. unfold no_entries.
  destruct (blank s) eqn:Hb.
  - now rewrite (tokens_of_blank s Hb).
  - pose proof (tokens_of_tokenises s) as Ht.
    destruct (tokens_of s) as [|t toks]; [|reflexivity].
    apply tokenises_nil_blank in Ht. congruence.
Qed.

Section FreshLoad.

Variable m : plugin_macros.
Variable utils : Sasl.sasl_utils_t.

Lemma parse_family_chosen set c plural singular :
  parse_family utils set c plural singular
  = if present utils plural || present utils singular
    then set c (Config.oauth2_parse_string_list (chosen utils plural singular))
    else c.
Proof.
  unfold parse_family, chosen. rewrite !get_string_present, !get_string_value.
  destruct (present utils plural); [reflexivity|].
  now destruct (present utils singular).
Qed.

Lemma chosen_absent plural singular :
  present utils plural || present utils singular = false ->
  chosen utils plural singular = None.
Proof.
  unfold chosen, present. intros H. apply orb_false_iff in H as [H1 H2].
  unfold present in H1. rewrite H1.
  now destruct (Config.getopt_value utils singular).
Qed.

Lemma fresh_discovery_urls :
  discovery_urls (stage_issuers m utils fresh_config)
  = fst (Config.oauth2_parse_string_list (chosen_discovery m utils)).
Proof.
  unfold stage_issuers, stage_discovery, chosen_discovery.
  rewrite !parse_family_chosen.
  destruct (present utils (OAUTH2_CONF_DISCOVERY_URLS m)
            || present utils (OAUTH2_CONF_DISCOVERY_URL m)) eqn:Hd;
    destruct (present utils (OAUTH2_CONF_ISSUERS m)
              || present utils (OAUTH2_CONF_ISSUER m)); simpl;
    try reflexivity; now rewrite (chosen_absent _ _ Hd).
Qed.

Lemma fresh_discovery_urls_count :
  discovery_urls_count (stage_issuers m utils fresh_config)
  = snd (Config.oauth2_parse_string_list (chosen_discovery m utils)).
Proof.
  unfold stage_issuers, stage_discovery, chosen_discovery.
  rewrite !parse_family_chosen.
  destruct (present utils (OAUTH2_CONF_DISCOVERY_URLS m)
            || present utils (OAUTH2_CONF_DISCOVERY_URL m)) eqn:Hd;
    destruct (present utils (OAUTH2_CONF_ISSUERS m)
              || present utils (OAUTH2_CONF_ISSUER m)); simpl;
    try reflexivity; now rewrite (chosen_absent _ _ Hd).
Qed.

Lemma fresh_issuers :
  issuers (stage_issuers m utils fresh_config)
  = fst (Config.oauth2_parse_string_list (chosen_issuers m utils))
  /\ issuers_count (stage_issuers m utils fresh_config)
     = snd (Config.oauth2_parse_string_list (chosen_issuers m utils)).
Proof.
  unfold stage_issuers, stage_discovery, chosen_issuers.
  rewrite !parse_family_chosen.
  destruct (present utils (OAUTH2_CONF_ISSUERS m)
            || present utils (OAUTH2_CONF_ISSUER m)) eqn:Hi;
    destruct (present utils (OAUTH2_CONF_DISCOVERY_URLS m)
              || present utils (OAUTH2_CONF_DISCOVERY_URL m)); simpl;
    try (split; reflexivity); now rewrite (chosen_absent _ _ Hi).
Qed.

Lemma fresh_no_provider :
  negb (Config.is_set (discovery_urls (stage_issuers m utils fresh_config)))
  && negb (Config.is_set (issuers (stage_issuers m utils fresh_config)))
  = no_provider m utils.
Proof.
  rewrite fresh_discovery_urls, (proj1 fresh_issuers), !parse_is_set.
  unfold no_provider. now rewrite !negb_involutive.
Qed.

(** On a fresh configuration each check reads the settings only. *)
Lemma load_fresh :
  Config.oauth2_config_load m (Some fresh_config) (Some utils)
  = if discovery_conflict m utils then
      failure fresh_config trace_start
        (err_conflict (OAUTH2_CONF_DISCOVERY_URLS m) (OAUTH2_CONF_DISCOVERY_URL m))
    else if issuer_conflict m utils then
      failure (stage_discovery m utils fresh_config) trace_start
        (err_conflict (OAUTH2_CONF_ISSUERS m) (OAUTH2_CONF_ISSUER m))
    else if no_provider m utils then
      failure (stage_issuers m utils fresh_config) trace_start (err_no_provider m)
    else if client_missing m utils then
      failure (stage_client m utils fresh_config) trace_start (err_no_client m)
    else if audience_conflict m utils then
      failure (stage_client m utils fresh_config)
        (trace_client m utils fresh_config)
        (err_conflict (OAUTH2_CONF_AUDIENCES m) (OAUTH2_CONF_AUDIENCE m))
    else loaded m utils fresh_config.
Proof. rewrite load_blocks. now rewrite fresh_no_provider. Qed.

Lemma load_error_failure c tr e : load_error (failure c tr e) = classify e.
Proof. unfold load_error, failure; simpl. now rewrite rev_app_distr. Qed.

(** A failing load logs the error of the first check that fails, and
    no other error. *)
Lemma load_fresh_expected :
  let r := Config.oauth2_config_load m (Some fresh_config) (Some utils) in
  match expected_failure m utils with
  | Some e =>
      Config.rc r = Sasl.SASL_FAIL
      /\ load_error r = classify e
      /\ exists tr, Config.trace r = tr ++ [e] /\ existsb is_err tr = false
  | None => r = loaded m utils fresh_config
  end.
Proof.
  cbv zeta. rewrite load_fresh. unfold expected_failure.
  destruct (discovery_conflict m utils);
    [|destruct (issuer_conflict m utils);
      [|destruct (no_provider m utils);
        [|destruct (client_missing m utils);
          [|destruct (audience_conflict m utils); [|reflexivity]]]]];
    (split; [reflexivity|]); rewrite load_error_failure;
    (split; [reflexivity|]); eexists; (split; [reflexivity|reflexivity]).
Qed.

End FreshLoad.

(** ** The order of the checks and the two kinds of configuration error *)

(** C10. [oauth2_config_load] checks configuration errors in a fixed
    order: discovery-endpoint form conflict, issuer form conflict, missing
    discovery endpoints and issuers, missing client identifier, audience
    form conflict. The load fails with the error of the first check that
    fails, logs no other error, and succeeds when none fails. As a
    consequence a configuration with both audience forms present and no
    client identifier, which passes the first three checks, fails with the
    missing-client-identifier error and not with the audience conflict. *)
Theorem load_check_order (m : plugin_macros) (utils : Sasl.sasl_utils_t) :
  let r := Config.oauth2_config_load m (Config.oauth2_config_init utils) (Some utils) in
  match expected_failure m utils with
  | Some e =>
      Config.rc r = Sasl.SASL_FAIL
      /\ exists tr, Config.trace r = tr ++ [e] /\ existsb is_err tr = false
  | None => Config.rc r = Sasl.SASL_OK
  end
  /\ (audience_conflict m utils = true -> client_missing m utils = true ->
      discovery_conflict m utils = false -> issuer_conflict m utils = false ->
      no_provider m utils = false ->
      expected_failure m utils = Some (err_no_client m)
      /\ load_error r = Some MissingRequired).
Proof.
  cbv zeta. change (Config.oauth2_config_init utils) with (Some fresh_config).
  pose proof (load_fresh_expected m utils) as H. cbv zeta in H.
  split.
  - destruct (expected_failure m utils) as [e|].
    + destruct H as (Hrc & _ & Htr). now split.
    + now rewrite H.
  - intros Ha Hc Hd Hi Hp.
    assert (E : expected_failure m utils = Some (err_no_client m)).
    { unfold expected_failure. now rewrite Hd, Hi, Hp, Hc. }
    rewrite E in H. destruct H as (_ & Hle & _). now split.
Qed.

Lemma load_check_order_witness :
  expected_failure sample_macros both_audiences_no_client
  = Some (err_no_client sample_macros)
  /\ load_error (Config.oauth2_config_load sample_macros
                   (Config.oauth2_config_init both_audiences_no_client)
                   (Some both_audiences_no_client))
     = Some MissingRequired.
Proof.
  apply (load_check_order sample_macros both_audiences_no_client); reflexivity.
Defined.

(** C1, as amended. When both forms of the discovery-endpoint family, or
    both forms of the issuer family, are present, [oauth2_config_load]
    fails with [ConflictingSetting] whatever the other settings and the
    incoming structure are. When both forms of the audience family are
    present it fails with [ConflictingSetting] provided the
    discovery-endpoint or issuer settings yield at least one entry and the
    client identifier is present: the audience check comes after those
    two. *)
Theorem conflicting_setting (m : plugin_macros) (utils : Sasl.sasl_utils_t) :
  (forall config,
      discovery_conflict m utils = true \/ issuer_conflict m utils = true ->
      Config.rc (Config.oauth2_config_load m (Some config) (Some utils))
      = Sasl.SASL_FAIL
      /\ load_error (Config.oauth2_config_load m (Some config) (Some utils))
         = Some ConflictingSetting)
  /\ (audience_conflict m utils = true ->
      no_provider m utils = false -> client_missing m utils = false ->
      Config.rc (Config.oauth2_config_load m (Config.oauth2_config_init utils)
                   (Some utils)) = Sasl.SASL_FAIL
      /\ load_error (Config.oauth2_config_load m (Config.oauth2_config_init utils)
                       (Some utils)) = Some ConflictingSetting).
Proof.
  split.
  - intros config H. rewrite load_blocks.
    destruct (discovery_conflict m utils);
      [rewrite load_error_failure; now split|].
    destruct H as [H|H]; [discriminate|]. rewrite H.
    rewrite load_error_failure; now split.
  - intros Ha Hp Hc.
    change (Config.oauth2_config_init utils) with (Some fresh_config).
    rewrite load_fresh, Hp, Hc, Ha.
    destruct (discovery_conflict m utils);
      [rewrite load_error_failure; now split|].
    destruct (issuer_conflict m utils); rewrite load_error_failure; now split.
Qed.

Lemma conflicting_setting_witness :
  load_error (Config.oauth2_config_load sample_macros (Some fresh_config)
                (Some both_issuers)) = Some ConflictingSetting
  /\ load_error (Config.oauth2_config_load sample_macros
                   (Config.oauth2_config_init both_audiences)
                   (Some both_audiences)) = Some ConflictingSetting.
Proof.
  split.
  - apply (proj1 (conflicting_setting sample_macros both_issuers) fresh_config).
    right; reflexivity.
  - apply (proj2 (conflicting_setting sample_macros both_audiences)); reflexivity.
Defined.

(** C1 as stated fails: with both audience forms present and no client
    identifier the load reports the missing client identifier, a
    [MissingRequired], not a [ConflictingSetting]. *)
Lemma conflicting_setting_counterexample :
  audience_conflict sample_macros both_audiences_no_client = true
  /\ load_error (Config.oauth2_config_load sample_macros
                   (Config.oauth2_config_init both_audiences_no_client)
                   (Some both_audiences_no_client))
     = Some MissingRequired
  /\ load_error (Config.oauth2_config_load sample_macros
                   (Config.oauth2_config_init both_audiences_no_client)
                   (Some both_audiences_no_client))
     <> Some ConflictingSetting.
Proof.
  split; [vm_compute; reflexivity|].
  split; [vm_compute; reflexivity|].
  vm_compute; discriminate.
Qed.

(** C2, as amended. With no form conflict in the discovery-endpoint and
    issuer families, [oauth2_config_load] fails with [MissingRequired]
    when neither family yields an entry, and when the client identifier is
    absent. *)
Theorem missing_required (m : plugin_macros) (utils : Sasl.sasl_utils_t) :
  discovery_conflict m utils = false -> issuer_conflict m utils = false ->
  no_provider m utils = true \/ client_missing m utils = true ->
  Config.rc (Config.oauth2_config_load m (Config.oauth2_config_init utils)
               (Some utils)) = Sasl.SASL_FAIL
  /\ load_error (Config.oauth2_config_load m (Config.oauth2_config_init utils)
                   (Some utils)) = Some MissingRequired.
Proof.
  intros Hd Hi H.
  change (Config.oauth2_config_init utils) with (Some fresh_config).
  rewrite load_fresh, Hd, Hi.
  destruct (no_provider m utils);
    [rewrite load_error_failure; now split|].
  destruct H as [H|H]; [discriminate|]. rewrite H.
  rewrite load_error_failure; now split.
Qed.

Lemma missing_required_witness :
  Config.rc (Config.oauth2_config_load sample_macros
               (Config.oauth2_config_init no_settings) (Some no_settings))
  = Sasl.SASL_FAIL
  /\ load_error (Config.oauth2_config_load sample_macros
                   (Config.oauth2_config_init no_settings) (Some no_settings))
     = Some MissingRequired.
Proof.
  apply (missing_required sample_macros no_settings);
    [reflexivity|reflexivity|left; reflexivity].
Defined.

(** C2 as stated fails: the test server configures neither form of the
    discovery-endpoint family (and only one audience form), and the load
    succeeds. *)
Lemma missing_required_counterexample :
  present MiniServer.server_utils (OAUTH2_CONF_DISCOVERY_URLS sample_macros) = false
  /\ present MiniServer.server_utils (OAUTH2_CONF_DISCOVERY_URL sample_macros) = false
  /\ Config.rc (Config.oauth2_config_load sample_macros
                  (Config.oauth2_config_init MiniServer.server_utils)
                  (Some MiniServer.server_utils)) = Sasl.SASL_OK
  /\ load_error (Config.oauth2_config_load sample_macros
                   (Config.oauth2_config_init MiniServer.server_utils)
                   (Some MiniServer.server_utils)) = None.
Proof. repeat split; vm_compute; reflexivity. Qed.

(** ** Discovery endpoints derived from the issuers *)

Lemma substring_full s : String.substring 0 (String.length s) s = s.
Proof. induction s as [|c s IH]; simpl; [reflexivity|now rewrite IH]. Qed.

Lemma clean_issuer_cons c d s :
  Config.clean_issuer (String c (String d s))
  = String c (Config.clean_issuer (String d s)).
Proof.
  assert (Hpos : forall n, (0 <? Z.of_nat (S n)) = true)
    by (intros n; apply Z.ltb_lt; lia).
  unfold Config.clean_issuer, CStr.strlen. cbn [String.length].
  replace (S (S (String.length s)) - 1)%nat with (S (String.length s)) by lia.
  replace (S (String.length s) - 1)%nat with (String.length s) by lia.
  cbn [String.get]. rewrite !Hpos.
  destruct (match String.length s with
            | O => Some d
            | S n' => String.get n' s
            end) as [a|]; [|reflexivity].
  destruct (Ascii.eqb a "/"); reflexivity.
Qed.

Lemma clean_issuer_strip s : Config.clean_issuer s = strip_slash s.
Proof.
  induction s as [|c s IH]; [reflexivity|].
  destruct s as [|d s].
  - unfold Config.clean_issuer; simpl. now destruct (Ascii.eqb c "/").
  - rewrite clean_issuer_cons, IH. reflexivity.
Qed.

Lemma string_length_append a b :
  String.length (a ++ b)%string = (String.length a + String.length b)%nat.
Proof. induction a as [|c a IH]; simpl; [reflexivity|now rewrite IH]. Qed.

(** [snprintf] is given room for the whole text. *)
Lemma discovery_url_of_derived issuer :
  Config.discovery_url_of issuer = derived_endpoint issuer.
Proof.
  unfold Config.discovery_url_of, derived_endpoint, CStr.snprintf, CStr.strlen.
  rewrite clean_issuer_strip. fold Config.well_known.
  replace (Z.to_nat (Z.of_nat (String.length (strip_slash issuer))
                     + Z.of_nat (String.length Config.well_known) + 1 - 1))
    with (String.length (strip_slash issuer ++ Config.well_known)%string)
    by (rewrite string_length_append; lia).
  apply substring_full.
Qed.

Lemma array_get_cell iss k x :
  nth_error iss k = Some x ->
  Config.array_get (map Some iss ++ [None]) (Z.of_nat k) = x.
Proof.
  intros H. unfold Config.array_get. rewrite Nat2Z.id.
  rewrite nth_error_app1 by (rewrite length_map; apply nth_error_Some; congruence).
  now rewrite nth_error_map, H.
Qed.

Lemma skipn_cell {A} (l : list A) k x :
  nth_error l k = Some x -> skipn k l = x :: skipn (S k) l.
Proof.
  revert k; induction l as [|a l IH]; intros [|k] H; simpl in *;
    try discriminate.
  - now injection H as ->.
  - now apply IH.
Qed.

(** The loop derives the endpoints cell by cell, in the order of the
    issuers. *)
Lemma derive_loop_map iss n :
  forall k urls,
    (k + n <= List.length iss)%nat ->
    Config.derive_loop (map Some iss ++ [None]) n (Z.of_nat k) urls
    = urls ++ map (fun i => Some (derived_endpoint i)) (firstn n (skipn k iss)).
Proof.
  induction n as [|n IH]; intros k urls Hk; simpl.
  - now rewrite app_nil_r.
  - destruct (nth_error iss k) as [x|] eqn:Hx;
      [|apply nth_error_None in Hx; lia].
    rewrite (array_get_cell _ _ _ Hx), discovery_url_of_derived.
    replace (Z.of_nat k + 1) with (Z.of_nat (S k)) by lia.
    rewrite IH by lia. rewrite (skipn_cell _ _ _ Hx). simpl.
    now rewrite <- app_assoc.
Qed.

Lemma tokenises_live s toks : tokenises s toks -> toks <> [] -> blank s = false.
Proof.
  intros H Hne. destruct (blank s) eqn:Hb; [|reflexivity].
  apply tokenises_tokens_of in H. rewrite (tokens_of_blank s Hb) in H. congruence.
Qed.

Section DerivedEndpoints.

Variable m : plugin_macros.
Variable utils : Sasl.sasl_utils_t.

(** The blocks after the derivation leave the discovery endpoints and
    the issuers alone. *)
Lemma stage_network_providers config :
  discovery_urls (stage_network m utils config)
  = discovery_urls (stage_derive m utils config)
  /\ discovery_urls_count (stage_network m utils config)
     = discovery_urls_count (stage_derive m utils config)
  /\ issuers (stage_network m utils config) = issuers (stage_derive m utils config).
Proof.
  unfold stage_network, stage_validation, stage_audiences.
  rewrite parse_family_chosen.
  destruct (present utils (OAUTH2_CONF_AUDIENCES m)
            || present utils (OAUTH2_CONF_AUDIENCE m));
    repeat split; reflexivity.
Qed.

Lemma stage_derive_fresh s iss :
  no_entries (chosen_discovery m utils) = true ->
  chosen_issuers m utils = Some s -> tokenises s iss -> iss <> [] ->
  discovery_urls (stage_derive m utils fresh_config)
  = Some (map (fun i => Some (derived_endpoint i)) iss)
  /\ discovery_urls_count (stage_derive m utils fresh_config)
     = Z.of_nat (List.length iss)
  /\ issuers (stage_derive m utils fresh_config) = Some (map Some iss ++ [None]).
Proof.
  intros Hd Hs Ht Hne. unfold stage_derive.
  pose proof (parse_is_set (chosen_discovery m utils)) as Hset.
  rewrite Hd in Hset. rewrite <- fresh_discovery_urls in Hset.
  destruct (discovery_urls (stage_issuers m utils fresh_config));
    [discriminate|].
  destruct (fresh_issuers m utils) as [Hi Hc]. rewrite Hs in Hi, Hc.
  rewrite (parse_string_list_live s iss Ht Hne) in Hi, Hc. simpl in Hi, Hc.
  rewrite Hi, Hc. simpl. rewrite Nat2Z.id.
  pose proof (derive_loop_map iss (List.length iss) 0 [] ltac:(lia)) as Hl.
  simpl in Hl. rewrite firstn_all in Hl. rewrite Hl.
  repeat split; try reflexivity; exact Hi.
Qed.

End DerivedEndpoints.

(** C3. For every configuration that provides issuers (one form of the
    issuer family, with at least one entry) and no explicit discovery
    endpoint (no discovery form with an entry), [oauth2_config_load]
    leaves in the configuration exactly one discovery endpoint per issuer,
    in the order of the issuer list, each the issuer without its single
    trailing slash, if any, followed by
    [/.well-known/openid-configuration]. The issuer
    [https://idp.example/realm/] yields
    [https://idp.example/realm/.well-known/openid-configuration]. *)
Theorem issuer_derived_endpoints (m : plugin_macros) (utils : Sasl.sasl_utils_t)
  (s : string) (iss : list string) :
  discovery_conflict m utils = false ->
  no_entries (chosen_discovery m utils) = true ->
  issuer_conflict m utils = false ->
  chosen_issuers m utils = Some s -> tokenises s iss -> iss <> [] ->
  (exists c,
      Config.config_out (Config.oauth2_config_load m (Config.oauth2_config_init utils)
                           (Some utils)) = Some c
      /\ discovery_urls c = Some (map (fun i => Some (derived_endpoint i)) iss)
      /\ discovery_urls_count c = Z.of_nat (List.length iss)
      /\ issuers c = Some (map Some iss ++ [None]))
  /\ derived_endpoint "https://idp.example/realm/"
     = "https://idp.example/realm/.well-known/openid-configuration".
Proof.
  intros Hdc Hd Hic Hs Ht Hne. split; [|reflexivity].
  change (Config.oauth2_config_init utils) with (Some fresh_config).
  rewrite load_fresh, Hdc, Hic.
  assert (Hp : no_provider m utils = false).
  { unfold no_provider. rewrite Hs. simpl no_entries.
    change (all_chars separator s) with (blank s).
    rewrite (tokenises_live s iss Ht Hne). apply andb_false_r. }
  rewrite Hp.
  pose proof (stage_derive_fresh m utils s iss Hd Hs Ht Hne) as Hderive.
  destruct (client_missing m utils);
    [|destruct (audience_conflict m utils)].
  - exists (stage_client m utils fresh_config). split; [reflexivity|exact Hderive].
  - exists (stage_client m utils fresh_config). split; [reflexivity|exact Hderive].
  - exists (stage_network m utils fresh_config). split; [reflexivity|].
    destruct (stage_network_providers m utils fresh_config) as (-> & -> & ->).
    exact Hderive.
Qed.

Lemma issuer_derived_endpoints_witness :
  exists c,
    Config.config_out
      (Config.oauth2_config_load sample_macros
         (Config.oauth2_config_init (only_issuer "https://idp.example/realm/"))
         (Some (only_issuer "https://idp.example/realm/"))) = Some c
    /\ discovery_urls c
       = Some [Some "https://idp.example/realm/.well-known/openid-configuration"]
    /\ discovery_urls_count c = 1
    /\ issuers c = Some [Some "https://idp.example/realm/"; None].
Proof.
  apply (issuer_derived_endpoints sample_macros
           (only_issuer "https://idp.example/realm/")
           "https://idp.example/realm/" ["https://idp.example/realm/"]);
    try reflexivity.
  - apply (tokenises_end "" "https://idp.example/realm/");
      [reflexivity|split; [discriminate|reflexivity]].
  - discriminate.
Defined.

(** ** A load that returns [SASL_OK] *)

Lemma load_ok (m : plugin_macros) (utils : Sasl.sasl_utils_t) (config : oauth2_config_t) :
  Config.rc (Config.oauth2_config_load m (Some config) (Some utils)) = Sasl.SASL_OK ->
  Config.oauth2_config_load m (Some config) (Some utils) = loaded m utils config.
Proof.
  rewrite load_blocks.
  destruct (discovery_conflict m utils); [discriminate|].
  destruct (issuer_conflict m utils); [discriminate|].
  destruct (negb _ && negb _); [discriminate|].
  destruct (client_missing m utils); [discriminate|].
  destruct (audience_conflict m utils); [discriminate|reflexivity].
Qed.

(** ** Boolean settings *)

Lemma code_inj a b : CStr.code a = CStr.code b -> a = b.
Proof.
  unfold CStr.code. intros H. apply Nat2Z.inj in H.
  rewrite <- (ascii_nat_embedding a), <- (ascii_nat_embedding b). now rewrite H.
Qed.

Lemma tolower_nul c : CStr.code (CStr.tolower c) = 0 -> c = Ascii.zero.
Proof.
  destruct c as [[] [] [] [] [] [] [] []]; vm_compute; intros H;
    first [reflexivity | discriminate H].
Qed.

Lemma strcasecmp_lower v :
  forall lit, c_string v -> c_string lit ->
    (CStr.strcasecmp v lit = 0 <-> lower v = lower lit).
Proof.
  unfold c_string.
  induction v as [|c v IH]; intros [|d lit] Hv Hl; simpl in *.
  - split; reflexivity.
  - apply andb_true_iff in Hl as [Hd _]. split; [|discriminate].
    intros H. assert (d = Ascii.zero) by (apply tolower_nul; lia).
    subst d. discriminate.
  - apply andb_true_iff in Hv as [Hc _]. split; [|discriminate].
    intros H. assert (c = Ascii.zero) by (apply tolower_nul; lia).
    subst c. discriminate.
  - apply andb_true_iff in Hv as [_ Hv]. apply andb_true_iff in Hl as [_ Hl].
    destruct (CStr.code (CStr.tolower c) - CStr.code (CStr.tolower d) =? 0) eqn:E.
    + apply Z.eqb_eq in E.
      assert (Hcd : CStr.tolower c = CStr.tolower d) by (apply code_inj; lia).
      rewrite Hcd, (IH lit Hv Hl). split; [now intros ->|now intros [= ->]].
    + apply Z.eqb_neq in E. split; [intros H; contradiction|].
      intros [= Hcd _]. rewrite Hcd in E. lia.
Qed.

Lemma get_bool_value utils key d v :
  Config.getopt_value utils key = Some v -> c_string v ->
  (truthy v -> Config.oauth2_config_get_bool utils key d = 1)
  /\ (~ truthy v -> Config.oauth2_config_get_bool utils key d = 0).
Proof.
  intros Hv Hc. unfold Config.oauth2_config_get_bool, truthy. rewrite Hv.
  pose proof (strcasecmp_lower v "yes" Hc eq_refl) as Hy.
  pose proof (strcasecmp_lower v "true" Hc eq_refl) as Ht.
  pose proof (strcasecmp_lower v "1" Hc eq_refl) as H1.
  change (lower "yes") with "yes" in Hy. change (lower "true") with "true" in Ht.
  change (lower "1") with "1" in H1.
  destruct (CStr.strcasecmp v "yes" =? 0) eqn:Ey;
    destruct (CStr.strcasecmp v "true" =? 0) eqn:Et;
    destruct (CStr.strcasecmp v "1" =? 0) eqn:E1; simpl;
    rewrite ?Z.eqb_eq, ?Z.eqb_neq in *;
    (split; [reflexivity || tauto | reflexivity || tauto]).
Qed.

(** C7. For every present boolean setting the value
    [oauth2_config_get_bool] returns is true (1) exactly when the
    setting's string equals [yes], [true] or [1] with case ignored, and
    false (0) for every other present value; a successful load stores
    these values for the signature-verification, TLS-verification and
    debug settings. *)
Theorem bool_setting_truthy (m : plugin_macros) (utils : Sasl.sasl_utils_t) :
  (forall key d v,
      Config.getopt_value utils key = Some v -> c_string v ->
      (truthy v -> Config.oauth2_config_get_bool utils key d = 1)
      /\ (~ truthy v -> Config.oauth2_config_get_bool utils key d = 0))
  /\ (forall config,
        Config.rc (Config.oauth2_config_load m (Some config) (Some utils))
        = Sasl.SASL_OK ->
        exists c,
          Config.config_out (Config.oauth2_config_load m (Some config) (Some utils))
          = Some c
          /\ verify_signature c
             = Config.oauth2_config_get_bool utils (OAUTH2_CONF_VERIFY_SIGNATURE m)
                 (OAUTH2_DEFAULT_VERIFY_SIGNATURE m)
          /\ ssl_verify c
             = Config.oauth2_config_get_bool utils (OAUTH2_CONF_SSL_VERIFY m)
                 (OAUTH2_DEFAULT_SSL_VERIFY m)
          /\ debug c
             = Config.oauth2_config_get_bool utils (OAUTH2_CONF_DEBUG m)
                 (OAUTH2_DEFAULT_DEBUG m)).
Proof.
  split.
  - intros key d v. apply get_bool_value.
  - intros config Hrc. rewrite (load_ok m utils config Hrc).
    exists (stage_network m utils config). repeat split; reflexivity.
Qed.

Lemma bool_setting_truthy_witness :
  Config.oauth2_config_get_bool verify_no "oauth2_debug" 0 = 1
  /\ Config.oauth2_config_get_bool verify_no "oauth2_verify_signature" 1 = 0.
Proof.
  destruct (bool_setting_truthy sample_macros verify_no) as [H _].
  split.
  - apply (H "oauth2_debug" 0 "TRUE"); [reflexivity|reflexivity|].
    right; left; reflexivity.
  - apply (H "oauth2_verify_signature" 1 "no"); [reflexivity|reflexivity|].
    intros [E|[E|E]]; discriminate E.
Defined.

(** ** Integer settings: [strtol] and [oauth2_config_get_int] *)

Lemma skip_space_split s :
  exists ws, all_chars CStr.isspace ws = true /\ s = (ws ++ CStr.skip_space s)%string
    /\ match CStr.skip_space s with
       | EmptyString => True
       | String c _ => CStr.isspace c = false
       end.
Proof.
  induction s as [|c s (ws & Hws & Hs & Hh)]; simpl.
  - exists EmptyString. repeat split.
  - destruct (CStr.isspace c) eqn:Hc.
    + exists (String c ws). simpl. rewrite Hc, Hws. repeat split; [|exact Hh].
      now rewrite <- Hs.
    + exists EmptyString. repeat split. exact Hc.
Qed.

Lemma skip_space_app ws s :
  all_chars CStr.isspace ws = true ->
  match s with
  | EmptyString => True
  | String c _ => CStr.isspace c = false
  end ->
  CStr.skip_space (ws ++ s)%string = s.
Proof.
  intros Hws Hs. induction ws as [|c ws IH]; simpl in *.
  - destruct s as [|c r]; [reflexivity|]. simpl. now rewrite Hs.
  - apply andb_true_iff in Hws as [Hc Hws]. rewrite Hc. now apply IH.
Qed.

Lemma scan_digits_literal ds :
  forall acc, all_chars CStr.isdigit ds = true ->
    CStr.scan_digits acc ds
    = (acc * 10 ^ Z.of_nat (String.length ds) + decimal_value ds, EmptyString).
Proof.
  induction ds as [|c ds IH]; intros acc Hd;
    cbn [CStr.scan_digits decimal_value String.length all_chars] in *.
  - f_equal. change (10 ^ Z.of_nat 0) with 1. lia.
  - apply andb_true_iff in Hd as [Hc Hd]. rewrite Hc, (IH _ Hd). f_equal.
    rewrite Nat2Z.inj_succ, Z.pow_succ_r by lia. lia.
Qed.

Lemma scan_digits_split s :
  forall acc, exists ds,
    all_chars CStr.isdigit ds = true
    /\ s = (ds ++ snd (CStr.scan_digits acc s))%string
    /\ fst (CStr.scan_digits acc s)
       = acc * 10 ^ Z.of_nat (String.length ds) + decimal_value ds.
Proof.
  induction s as [|c s IH]; intros acc; cbn [CStr.scan_digits].
  - exists EmptyString. repeat split. cbn [fst String.length decimal_value].
    change (10 ^ Z.of_nat 0) with 1. lia.
  - destruct (CStr.isdigit c) eqn:Hc.
    + destruct (IH (10 * acc + (CStr.code c - 48))) as (ds & Hd & Hs & Hv).
      exists (String c ds).
      cbn [all_chars String.length decimal_value append]. rewrite Hc, Hd.
      repeat split.
      * now rewrite <- Hs.
      * rewrite Hv, Nat2Z.inj_succ, Z.pow_succ_r by lia. lia.
    + exists EmptyString. repeat split. cbn [fst String.length decimal_value].
      change (10 ^ Z.of_nat 0) with 1. lia.
Qed.

Lemma digit_not_space c : CStr.isdigit c = true -> CStr.isspace c = false.
Proof.
  unfold CStr.isdigit, CStr.isspace. intros H.
  apply andb_true_iff in H as [H1 H2]. apply Z.leb_le in H1, H2.
  apply orb_false_iff. split; [apply Z.eqb_neq; lia|].
  apply andb_false_iff. right. apply Z.leb_gt. lia.
Qed.

Lemma split_sign_digit c r :
  CStr.isdigit c = true -> CStr.split_sign (String c r) = (false, String c r).
Proof.
  destruct c as [[] [] [] [] [] [] [] []]; vm_compute; intros H;
    first [reflexivity | discriminate H].
Qed.

Lemma split_sign_cases s :
  exists sg s1,
    (sg = EmptyString \/ sg = "+" \/ sg = "-")
    /\ s = (sg ++ s1)%string
    /\ CStr.split_sign s = (String.eqb sg "-", s1).
Proof.
  destruct s as [|a r].
  - exists EmptyString, EmptyString. repeat split. now left.
  - destruct (Ascii.eqb a "-") eqn:Em.
    + apply Ascii.eqb_eq in Em. subst a. exists "-", r. repeat split.
      now right; right.
    + destruct (Ascii.eqb a "+") eqn:Ep.
      * apply Ascii.eqb_eq in Ep. subst a. exists "+", r. repeat split.
        now right; left.
      * exists EmptyString, (String a r). split; [now left|]. split; [reflexivity|].
        destruct a as [[] [] [] [] [] [] [] []];
          first [reflexivity | discriminate Em | discriminate Ep].
Qed.

(** A decimal literal is converted whole. *)
Lemma strtol_literal v n :
  decimal_literal v n -> CStr.strtol v = (clamp_long n, EmptyString).
Proof.
  intros [ws sg ds Hws Hsg Hne Hds]. unfold CStr.strtol.
  destruct ds as [|c ds]; [congruence|].
  pose proof Hds as Hds'. simpl in Hds'. apply andb_true_iff in Hds' as [Hc _].
  assert (Hskip : CStr.skip_space (ws ++ sg ++ String c ds)%string
                  = (sg ++ String c ds)%string).
  { apply skip_space_app; [exact Hws|].
    destruct Hsg as [->|[->| ->]]; simpl; [now apply digit_not_space| |];
      reflexivity. }
  rewrite Hskip.
  destruct Hsg as [->|[->| ->]]; simpl append.
  - rewrite (split_sign_digit c ds Hc). cbv beta iota zeta. rewrite Hc.
    rewrite (scan_digits_literal _ 0 Hds). reflexivity.
  - change (CStr.split_sign (String "+" (String c ds))) with (false, String c ds).
    cbv beta iota zeta. rewrite Hc.
    rewrite (scan_digits_literal _ 0 Hds). reflexivity.
  - change (CStr.split_sign (String "-" (String c ds))) with (true, String c ds).
    cbv beta iota zeta. rewrite Hc.
    rewrite (scan_digits_literal _ 0 Hds). reflexivity.
Qed.

Lemma same_ptr_refl s : CStr.same_ptr s s = true.
Proof. apply Nat.eqb_refl. Qed.

(** A conversion that consumes the whole string read a decimal literal. *)
Lemma strtol_whole v p :
  CStr.strtol v = (p, EmptyString) -> CStr.same_ptr EmptyString v = false ->
  exists n, decimal_literal v n /\ p = clamp_long n.
Proof.
  unfold CStr.strtol. intros H Hptr.
  destruct (skip_space_split v) as (ws & Hws & Hv & _).
  set (s := CStr.skip_space v) in *.
  destruct (split_sign_cases s) as (sg & s1 & Hsg & Hs & Hm).
rewrite Hm in H.
  destruct s1 as [|c r].
  - injection H as Hp Hend. rewrite Hend in Hptr. discriminate.
  - destruct (CStr.isdigit c) eqn:Hc.
    + destruct (scan_digits_split (String c r) 0) as (ds & Hds & Hsplit & Hval).
      destruct (CStr.scan_digits 0 (String c r)) as [mag e]. simpl in *.
      injection H as Hp He. subst e.
      rewrite append_empty_r in Hsplit.
      exists (signed sg (decimal_value ds)). split.
      * rewrite Hv, Hs, Hsplit. constructor; try assumption.
        intros ->. discriminate.
      * rewrite <- Hp, Hval. unfold clamp_long, signed.
        destruct (String.eqb sg "-"); f_equal; f_equal; lia.
    + injection H as Hp Hend. rewrite Hend in Hptr. discriminate.
Qed.

Lemma all_chars_app p a b :
  all_chars p (a ++ b)%string = all_chars p a && all_chars p b.
Proof.
  induction a as [|c a IH]; simpl; [reflexivity|].
  now rewrite IH, andb_assoc.
Qed.

Lemma ends_with_digit_app a b :
  b <> EmptyString -> ends_with_digit (a ++ b)%string = ends_with_digit b.
Proof.
  intros Hb. induction a as [|c a IH]; [reflexivity|].
  simpl append. cbn [ends_with_digit].
  destruct (a ++ b)%string eqn:E; [|exact IH].
  destruct a; simpl in E; [congruence|discriminate].
Qed.

Lemma digits_end_with_digit ds :
  ds <> EmptyString -> all_chars CStr.isdigit ds = true -> ends_with_digit ds = true.
Proof.
  induction ds as [|c ds IH]; [congruence|]. intros _ H.
  simpl in H. apply andb_true_iff in H as [Hc Hd].
  destruct ds as [|d ds]; [exact Hc|].
  cbn [ends_with_digit]. apply IH; [discriminate|exact Hd].
Qed.

Lemma literal_not_non_numeric v n : decimal_literal v n -> ~ non_numeric v.
Proof.
  intros [ws sg ds Hws Hsg Hne Hds] [H|[H|H]].
  - destruct ws; [|discriminate]. simpl in H.
    destruct Hsg as [->|[->| ->]]; simpl in H; congruence.
  - unfold has_digit in H. apply negb_false_iff in H.
    rewrite !all_chars_app in H. apply andb_true_iff in H as [_ H].
    apply andb_true_iff in H as [_ H].
    destruct ds as [|c ds]; [congruence|]. simpl in H, Hds.
    apply andb_true_iff in H as [H _]. apply andb_true_iff in Hds as [Hc _].
    rewrite Hc in H. discriminate.
  - rewrite ends_with_digit_app in H.
    + rewrite ends_with_digit_app in H by exact Hne.
      rewrite (digits_end_with_digit ds Hne Hds) in H. discriminate.
    + destruct sg; [exact Hne|discriminate].
Qed.

Lemma literal_live v n : decimal_literal v n -> CStr.same_ptr EmptyString v = false.
Proof.
  intros [ws sg ds Hws Hsg Hne Hds]. unfold CStr.same_ptr.
  rewrite !string_length_append. destruct ds; [congruence|].
  apply Nat.eqb_neq. simpl. lia.
Qed.

Section GetInt.

Variable utils : Sasl.sasl_utils_t.
Variables (key v : string) (d : Z).
Hypothesis Hv : Config.getopt_value utils key = Some v.

Lemma get_int_literal n :
  decimal_literal v n ->
  Config.oauth2_config_get_int utils key d
  = if (CStr.INT_MAX <? clamp_long n) || (clamp_long n <? CStr.INT_MIN)
    then (d, [Config.log LOG_WARN
                "Integer value out of range for %s: %ld, using default %d"
                [LogStr key; LogInt (clamp_long n); LogInt d]])
    else (clamp_long n, []).
Proof.
  intros Hl. unfold Config.oauth2_config_get_int. rewrite Hv.
  rewrite (strtol_literal v n Hl), (literal_live v n Hl). reflexivity.
Qed.

Lemma get_int_in_range n :
  decimal_literal v n -> in_int_range n ->
  Config.oauth2_config_get_int utils key d = (n, []).
Proof.
  intros Hl [Hlo Hhi]. rewrite (get_int_literal n Hl).
  unfold CStr.INT_MIN, CStr.INT_MAX in *.
  assert (E : clamp_long n = n)
    by (unfold clamp_long, CStr.LONG_MIN, CStr.LONG_MAX; lia).
  rewrite E.
  destruct (2147483647 <? n) eqn:E1; [apply Z.ltb_lt in E1; lia|].
  destruct (n <? -2147483648) eqn:E2; [apply Z.ltb_lt in E2; lia|].
  reflexivity.
Qed.

Lemma get_int_out_of_range n :
  decimal_literal v n -> ~ in_int_range n ->
  fst (Config.oauth2_config_get_int utils key d) = d
  /\ existsb is_warning (snd (Config.oauth2_config_get_int utils key d)) = true.
Proof.
  intros Hl Hout. rewrite (get_int_literal n Hl).
  unfold in_int_range, CStr.INT_MIN, CStr.INT_MAX in *.
  destruct (2147483647 <? clamp_long n) eqn:E1; [now split|].
  destruct (clamp_long n <? -2147483648) eqn:E2; [now split|].
  apply Z.ltb_ge in E1, E2.
  unfold clamp_long, CStr.LONG_MIN, CStr.LONG_MAX in *. lia.
Qed.

Lemma get_int_not_literal :
  (forall n, ~ decimal_literal v n) ->
  fst (Config.oauth2_config_get_int utils key d) = d
  /\ existsb is_warning (snd (Config.oauth2_config_get_int utils key d)) = true.
Proof.
  intros Hnot. unfold Config.oauth2_config_get_int. rewrite Hv.
  destruct (CStr.strtol v) as [p e] eqn:E.
  destruct (CStr.same_ptr e v) eqn:Hp; [now split|].
  destruct e as [|c e]; [|now split].
  destruct (strtol_whole v p E Hp) as (n & Hl & _).
  now destruct (Hnot n).
Qed.

End GetInt.

(** C6. A present integer setting that is not a well-formed decimal
    integer (in particular one that is empty, has no digit, or ends in
    something other than a digit), or whose value is outside the range of
    [int], makes [oauth2_config_get_int] return the default it is given
    and log a warning; a present setting that is a well-formed decimal
    integer in the range of [int] makes it return that integer. The load
    does not fail for it: when the five checks of the loader pass, the
    load returns [SASL_OK] and the timeout is what
    [oauth2_config_get_int] returned for [OAUTH2_DEFAULT_TIMEOUT]. *)
Theorem int_setting_strict (m : plugin_macros) (utils : Sasl.sasl_utils_t)
  (key v : string) (d : Z) :
  Config.getopt_value utils key = Some v ->
  (forall n, decimal_literal v n -> in_int_range n ->
     Config.oauth2_config_get_int utils key d = (n, []))
  /\ (forall n, decimal_literal v n -> ~ in_int_range n ->
        fst (Config.oauth2_config_get_int utils key d) = d
        /\ existsb is_warning (snd (Config.oauth2_config_get_int utils key d)) = true)
  /\ (non_numeric v \/ (forall n, ~ decimal_literal v n) ->
        fst (Config.oauth2_config_get_int utils key d) = d
        /\ existsb is_warning (snd (Config.oauth2_config_get_int utils key d)) = true)
  /\ (key = OAUTH2_CONF_TIMEOUT m -> d = OAUTH2_DEFAULT_TIMEOUT m ->
      expected_failure m utils = None ->
      Config.rc (Config.oauth2_config_load m (Config.oauth2_config_init utils)
                   (Some utils)) = Sasl.SASL_OK
      /\ exists c,
           Config.config_out (Config.oauth2_config_load m
                                (Config.oauth2_config_init utils) (Some utils))
           = Some c
           /\ timeout c = fst (Config.oauth2_config_get_int utils key d)).
Proof.
  intros Hv. repeat split.
  - intros n. now apply get_int_in_range.
  - now apply (get_int_out_of_range utils key v d Hv n).
  - now apply (get_int_out_of_range utils key v d Hv n).
  - destruct H as [H|H]; apply (get_int_not_literal utils key v d Hv);
      [|exact H].
    intros n Hl. exact (literal_not_non_numeric v n Hl H).
  - destruct H as [H|H]; apply (get_int_not_literal utils key v d Hv);
      [|exact H].
    intros n Hl. exact (literal_not_non_numeric v n Hl H).
  - change (Config.oauth2_config_init utils) with (Some fresh_config).
    pose proof (load_fresh_expected m utils) as Hl. cbv zeta in Hl.
    rewrite H1 in Hl. now rewrite Hl.
  - change (Config.oauth2_config_init utils) with (Some fresh_config).
    pose proof (load_fresh_expected m utils) as Hl. cbv zeta in Hl.
    rewrite H1 in Hl. rewrite Hl. subst key d.
    exists (stage_network m utils fresh_config). split; reflexivity.
Qed.

Lemma int_setting_strict_witness :
  fst (Config.oauth2_config_get_int (with_timeout "30s") "oauth2_timeout" 10) = 10
  /\ Config.oauth2_config_get_int (with_timeout "30") "oauth2_timeout" 10 = (30, [])
  /\ Config.rc (Config.oauth2_config_load sample_macros
                  (Config.oauth2_config_init (with_timeout "30s"))
                  (Some (with_timeout "30s"))) = Sasl.SASL_OK.
Proof.
  destruct (int_setting_strict sample_macros (with_timeout "30s")
              "oauth2_timeout" "30s" 10 eq_refl) as (_ & _ & Hbad & Hload).
  destruct (int_setting_strict sample_macros (with_timeout "30")
              "oauth2_timeout" "30" 10 eq_refl) as (Hgood & _).
  split; [|split].
  - apply Hbad. left. right; right. reflexivity.
  - apply (Hgood 30).
    + apply (decimal_literal_intro "" "" "30");
        [reflexivity|now left|discriminate|reflexivity].
    + unfold in_int_range, CStr.INT_MIN, CStr.INT_MAX. lia.
  - apply Hload; reflexivity.
Defined.

(** ** The single-step wire format *)

Lemma strip_prefix_app p s : Wire.strip_prefix p (p ++ s)%string = Some s.
Proof.
  induction p as [|c p IH]; simpl; [reflexivity|].
  now rewrite Ascii.eqb_refl.
Qed.

Lemma field_app f rest :
  no_soh f -> Wire.field (f ++ String TestUtils.SOH rest)%string = Some (f, rest).
Proof.
  unfold no_soh. induction f as [|c f IH]; simpl; intros H.
  - reflexivity.
  - apply andb_true_iff in H as [Hc Hf]. apply negb_true_iff in Hc.
    rewrite Hc. now rewrite (IH Hf).
Qed.

Lemma bearer_field_token t :
  no_soh t ->
  Wire.bearer_field
    ("auth=Bearer " ++ t ++ String TestUtils.SOH (String TestUtils.SOH EmptyString))%string
  = Some t.
Proof.
  intros Ht. unfold Wire.bearer_field.
  rewrite strip_prefix_app, (field_app t _ Ht). reflexivity.
Qed.

(** The test helper writes its text whole: [snprintf] has room for it.
    The text is not the documented message: the byte after the name is
    0x1A and the letter [a] of [auth] is gone (see [lit_x01auth_Bearer]). *)
Lemma create_xoauth2_string_text u t :
  TestUtils.create_xoauth2_string (Some u) (Some t)
  = Some ("user=" ++ u ++ String (ascii_of_nat 26) "uth=Bearer " ++ t
            ++ String TestUtils.SOH (String TestUtils.SOH EmptyString))%string.
Proof.
  unfold TestUtils.create_xoauth2_string, CStr.snprintf, CStr.strlen. f_equal.
  fold TestUtils.lit_x01auth_Bearer TestUtils.lit_x01x01.
  set (text := ("user=" ++ u ++ TestUtils.lit_x01auth_Bearer ++ t
                  ++ TestUtils.lit_x01x01)%string).
  replace (Z.to_nat _) with (String.length text); [apply substring_full|].
  unfold text. rewrite !string_length_append. lia.
Qed.

Lemma create_xoauth2_string_unparsed :
  TestUtils.create_xoauth2_string (Some "test@test.com") (Some "tok")
  <> Some (Wire.xoauth2_message "test@test.com" "tok")
  /\ Wire.parse_xoauth2
       (Config.str_or
          (TestUtils.create_xoauth2_string (Some "test@test.com") (Some "tok")) "")
     = None.
Proof. split; [vm_compute; discriminate|vm_compute; reflexivity]. Qed.

(** C8, as amended. For every username and token that do not hold the
    delimiter byte 0x01, parsing the single-step wire message
    [user=<u>^Aauth=Bearer <t>^A^A] with the single-step wire parser
    recovers exactly the username and the token. *)
Theorem xoauth2_roundtrip (u t : string) :
  no_soh u -> no_soh t ->
  Wire.parse_xoauth2 (Wire.xoauth2_message u t) = Some (u, t).
Proof.
  intros Hu Ht. unfold Wire.parse_xoauth2.
  change (Wire.xoauth2_message u t)
    with ("user=" ++ u ++ String TestUtils.SOH
            ("auth=Bearer " ++ t
               ++ String TestUtils.SOH (String TestUtils.SOH EmptyString)))%string.
  rewrite strip_prefix_app, (field_app u _ Hu).
  now rewrite (bearer_field_token t Ht).
Qed.

Lemma xoauth2_roundtrip_witness :
  Wire.parse_xoauth2 (Wire.xoauth2_message "test@test.com" "invalid.jwt.token")
  = Some ("test@test.com", "invalid.jwt.token").
Proof.
  apply (xoauth2_roundtrip "test@test.com" "invalid.jwt.token"); reflexivity.
Defined.

(** C8 as stated fails: a username that holds the delimiter is not
    recovered, and cannot be by any parser, since another (username,
    token) pair has the same message. *)
Lemma xoauth2_roundtrip_counterexample :
  Wire.parse_xoauth2 (Wire.xoauth2_message name_with_soh "y")
  <> Some (name_with_soh, "y")
  /\ Wire.xoauth2_message name_with_soh "y" = Wire.xoauth2_message "a" token_with_soh
  /\ (name_with_soh, "y") <> ("a", token_with_soh).
Proof.
  split; [vm_compute; discriminate|].
  split; [reflexivity|discriminate].
Qed.

(** ** The order of the validation checks *)

Section ValidationOrder.

Variable KeySet : Type.
Variable resolve : oauth2_config_t -> Validator.Token -> option KeySet.
Variable verify : KeySet -> Validator.Token -> bool.

Lemma validate_token_first_error now cfg t :
  Validator.validate_token KeySet resolve verify now cfg t
  = match first_error
            [Validator.check_temporal now (Validator.claims t);
             Validator.check_issuer cfg (Validator.claims t);
             Validator.check_audience cfg (Validator.claims t);
             Validator.check_signature KeySet resolve verify cfg t] with
    | Some e => inr e
    | None => Validator.extract_username cfg (Validator.claims t)
    end.
Proof.
  unfold Validator.validate_token, Validator.and_then. simpl.
  destruct (Validator.check_temporal now (Validator.claims t)); [reflexivity|].
  destruct (Validator.check_issuer cfg (Validator.claims t)); [reflexivity|].
  destruct (Validator.check_audience cfg (Validator.claims t)); [reflexivity|].
  now destruct (Validator.check_signature KeySet resolve verify cfg t).
Qed.

End ValidationOrder.

(** C4. Within one attempt the validator runs its checks in the fixed
    order temporal, issuer, audience, signature and stops at the first
    one that rejects: the error it reports is the error of the first
    rejecting check in that order, whatever the later checks would say,
    for every token, configuration, clock, resolver and signature
    primitive. *)
Theorem validation_order (KeySet : Type)
  (resolve : oauth2_config_t -> Validator.Token -> option KeySet)
  (verify : KeySet -> Validator.Token -> bool)
  (now : Z) (cfg : oauth2_config_t) (t : Validator.Token) :
  let result := Validator.validate_token KeySet resolve verify now cfg t in
  let temporal := Validator.check_temporal now (Validator.claims t) in
  let issuer := Validator.check_issuer cfg (Validator.claims t) in
  let audience := Validator.check_audience cfg (Validator.claims t) in
  let sig := Validator.check_signature KeySet resolve verify cfg t in
  result = match first_error [temporal; issuer; audience; sig] with
           | Some e => inr e
           | None => Validator.extract_username cfg (Validator.claims t)
           end
  /\ (forall e, temporal = Some e -> result = inr e)
  /\ (forall e, temporal = None -> issuer = Some e -> result = inr e)
  /\ (forall e, temporal = None -> issuer = None -> audience = Some e ->
        result = inr e)
  /\ (forall e, temporal = None -> issuer = None -> audience = None ->
        sig = Some e -> result = inr e).
Proof.
  cbv zeta. rewrite validate_token_first_error.
  split; [reflexivity|].
  repeat split; intros e; intros; simpl;
    repeat match goal with H : _ = _ |- _ => rewrite H end; reflexivity.
Qed.

Lemma validation_order_witness :
  Validator.validate_token unit no_keys reject_all 1000 strict_config bad_token
  = inr (Validator.Invalid Validator.Expired)
  /\ Validator.check_issuer strict_config bad_claims
     = Some (Validator.Invalid Validator.IssuerMismatch)
  /\ Validator.check_audience strict_config bad_claims
     = Some (Validator.Invalid Validator.AudienceMismatch)
  /\ Validator.check_signature unit no_keys reject_all strict_config bad_token
     = Some Validator.NetworkError.
Proof.
  split; [|repeat split; reflexivity].
  destruct (validation_order unit no_keys reject_all 1000 strict_config bad_token)
    as (_ & Htemporal & _).
  apply Htemporal. reflexivity.
Defined.

(** ** The two-step mechanism on an invalid token *)

Lemma strip_last_app c s : Wire.strip_last c (s ++ String c EmptyString)%string = Some s.
Proof.
  induction s as [|a s IH]; simpl.
  - now rewrite Ascii.eqb_refl.
  - rewrite IH. destruct (s ++ String c EmptyString)%string eqn:E; [|reflexivity].
    destruct s; discriminate.
Qed.

Lemma append_cons_middle a c rest :
  (a ++ String c rest)%string = ((a ++ String c EmptyString) ++ rest)%string.
Proof. induction a as [|x a IH]; simpl; [reflexivity|now rewrite IH]. Qed.

Lemma parse_oauthbearer_message name token :
  no_soh name -> no_soh token ->
  Wire.parse_oauthbearer (Wire.oauthbearer_message name token) = Some (name, token).
Proof.
  intros Hn Ht. unfold Wire.parse_oauthbearer.
  change (Wire.oauthbearer_message name token)
    with ("n,a=" ++ name ++ String ","
            (String TestUtils.SOH
               ("auth=Bearer " ++ token
                  ++ String TestUtils.SOH (String TestUtils.SOH EmptyString))))%string.
  rewrite strip_prefix_app, append_cons_middle.
  rewrite field_app.
  - now rewrite strip_last_app, (bearer_field_token token Ht).
  - unfold no_soh in *. now rewrite all_chars_app, Hn.
Qed.

Section TwoStepFailure.

Variable validate : string -> string + Validator.AttemptError.

(** Once the error continuation is out, every later round fails. *)
Lemma run_after_error ctx msgs :
  Mechanism.mech_state ctx <> Mechanism.Start ->
  Mechanism.username ctx = None ->
  forallb is_failure (snd (Mechanism.run validate ctx msgs)) = true
  /\ Mechanism.username (fst (Mechanism.run validate ctx msgs)) = None.
Proof.
  revert ctx. induction msgs as [|msg msgs IH]; intros ctx Hst Hun; simpl.
  - now split.
  - unfold Mechanism.oauthbearer_step.
    destruct (Mechanism.mech_state ctx) eqn:Est; [congruence| |].
    + match goal with |- context [Mechanism.run validate ?c msgs] =>
        destruct (IH c) as [Hf Hu]; [simpl; discriminate|reflexivity|];
        destruct (Mechanism.run validate c msgs) as [ctx2 rs] end.
      simpl in *. now rewrite Hf.
    + destruct (IH ctx) as [Hf Hu]; [congruence|exact Hun|].
      destruct (Mechanism.run validate ctx msgs) as [ctx2 rs].
      simpl in *. now rewrite Hf.
Qed.

Lemma failures_only rs :
  forallb is_failure rs = true ->
  existsb Mechanism.is_success rs = false /\ filter Mechanism.is_continue rs = [].
Proof.
  induction rs as [|r rs IH]; simpl; [now split|].
  intros H. apply andb_true_iff in H as [Hr Hrs].
  destruct (IH Hrs) as [Hs Hc]. destruct r; try discriminate.
  simpl. now rewrite Hs, Hc.
Qed.

End TwoStepFailure.

(** C5. For every invalid token presented to the two-step mechanism in a
    well-formed initial message, the round that detects the failure does
    not end the exchange: it answers with one JSON error continuation that
    has a [status] member and moves to [AwaitingContinuation]; the empty
    acknowledgment of the client then ends the exchange in failure.
    Whatever the client sends afterwards, no round succeeds, no username is
    set, and the error continuation is the only continuation sent. *)
Theorem two_step_invalid_token
  (validate : string -> string + Validator.AttemptError)
  (name token : string) (e : Validator.AttemptError) :
  no_soh name -> no_soh token -> validate token = inr e ->
  let first := Mechanism.oauthbearer_step validate Mechanism.new_session
                 (Wire.oauthbearer_message name token) in
  snd first = Mechanism.Continue (Mechanism.error_continuation e)
  /\ Mechanism.has_member "status" (Mechanism.error_continuation e) = true
  /\ Mechanism.mech_state (fst first) = Mechanism.AwaitingContinuation
  /\ Mechanism.oauthbearer_step validate (fst first) EmptyString
     = ({| Mechanism.mech_state := Mechanism.Done;
           Mechanism.username := None;
           Mechanism.last_error := Some e |},
        Mechanism.Failure Mechanism.AuthenticationRejected)
  /\ (forall msgs,
        let attempt := Mechanism.run validate Mechanism.new_session
                         (Wire.oauthbearer_message name token :: msgs) in
        existsb Mechanism.is_success (snd attempt) = false
        /\ filter Mechanism.is_continue (snd attempt)
           = [Mechanism.Continue (Mechanism.error_continuation e)]
        /\ Mechanism.username (fst attempt) = None).
Proof.
  intros Hn Ht He. cbv zeta.
  assert (Hfirst :
            Mechanism.oauthbearer_step validate Mechanism.new_session
              (Wire.oauthbearer_message name token)
            = ({| Mechanism.mech_state := Mechanism.AwaitingContinuation;
                  Mechanism.username := None;
                  Mechanism.last_error := Some e |},
               Mechanism.Continue (Mechanism.error_continuation e))).
  { unfold Mechanism.oauthbearer_step. simpl Mechanism.mech_state. cbv iota.
    rewrite (parse_oauthbearer_message name token Hn Ht). now rewrite He. }
  rewrite Hfirst.
  split; [reflexivity|]. split; [reflexivity|]. split; [reflexivity|].
  split; [reflexivity|].
  intros msgs. cbn [Mechanism.run]. rewrite Hfirst.
  match goal with |- context [Mechanism.run validate ?c msgs] =>
    destruct (run_after_error validate c msgs) as [Hf Hu];
      [simpl; discriminate|reflexivity|];
    destruct (Mechanism.run validate c msgs) as [ctx2 rs] end.
  simpl in *. destruct (failures_only rs Hf) as [Hs Hc].
  now rewrite Hs, Hc.
Qed.

Lemma two_step_invalid_token_witness :
  snd (Mechanism.run always_expired Mechanism.new_session
         [Wire.oauthbearer_message "test@test.com" "invalid.jwt.token"; ""])
  = [Mechanism.Continue
       (Mechanism.error_continuation (Validator.Invalid Validator.Expired));
     Mechanism.Failure Mechanism.AuthenticationRejected]
  /\ filter Mechanism.is_continue
       (snd (Mechanism.run always_expired Mechanism.new_session
               [Wire.oauthbearer_message "test@test.com" "invalid.jwt.token"; ""]))
     = [Mechanism.Continue
          (Mechanism.error_continuation (Validator.Invalid Validator.Expired))].
Proof.
  split; [reflexivity|].
  destruct (two_step_invalid_token always_expired "test@test.com"
              "invalid.jwt.token" (Validator.Invalid Validator.Expired)
              eq_refl eq_refl eq_refl) as (_ & _ & _ & _ & H).
  exact (proj1 (proj2 (H [""]))).
Defined.

(* ===================================================================== *)
(** * Part IV: further properties of the code                             *)
(* ===================================================================== *)

(** ** [oauth2_parse_string_list]: writing a list and reading it back *)

Lemma append_assoc_s a b c : ((a ++ b) ++ c)%string = (a ++ b ++ c)%string.
Proof. induction a as [|x a IH]; simpl; [reflexivity|now rewrite IH]. Qed.

Lemma tokenises_blank_prefix b s toks :
  blank b = true -> tokenises s toks -> tokenises (b ++ s)%string toks.
Proof.
  intros Hb H. destruct H as [s Hs|seps t Hs Ht|seps t c rest toks Hs Ht Hc Hr].
  - apply tokenises_blank. unfold blank in *. now rewrite all_chars_app, Hb, Hs.
  - rewrite <- append_assoc_s. apply tokenises_end; [|exact Ht].
    unfold blank in *. now rewrite all_chars_app, Hb, Hs.
  - rewrite <- append_assoc_s. apply tokenises_more; try assumption.
    unfold blank in *. now rewrite all_chars_app, Hb, Hs.
Qed.





(** ** The lists a load leaves in the configuration *)


Lemma parse_entries p :
  Config.oauth2_parse_string_list p = listed (entries_of p).
Proof.
  destruct p as [s|]; [|reflexivity].
  rewrite parse_string_list_tokens. simpl entries_of. unfold listed.
  now destruct (tokens_of s).
Qed.


Lemma no_entries_iff p : no_entries p = true <-> entries_of p = [].
Proof.
  pose proof (parse_is_set p) as H. rewrite parse_entries in H.
  destruct (entries_of p); simpl in H; destruct (no_entries p); simpl in H;
    split; congruence.
Qed.

Lemma derive_loop_listed i :
  Config.derive_loop (map Some i ++ [None]) (Z.to_nat (Z.of_nat (List.length i))) 0 []
  = map (fun x => Some (derived_endpoint x)) i.
Proof.
  rewrite Nat2Z.id.
  pose proof (derive_loop_map i (List.length i) 0 [] ltac:(lia)) as H.
  simpl in H. now rewrite firstn_all in H.
Qed.

Section FreshLists.

Variable m : plugin_macros.
Variable utils : Sasl.sasl_utils_t.

Let d := entries_of (chosen_discovery m utils).
Let i := entries_of (chosen_issuers m utils).
Let a := entries_of (chosen_audiences m utils).

Lemma stage_issuers_lists :
  (discovery_urls (stage_issuers m utils fresh_config),
   discovery_urls_count (stage_issuers m utils fresh_config)) = listed d
  /\ (issuers (stage_issuers m utils fresh_config),
      issuers_count (stage_issuers m utils fresh_config)) = listed i
  /\ (audiences (stage_issuers m utils fresh_config),
      audiences_count (stage_issuers m utils fresh_config)) = (None, 0).
Proof.
  rewrite fresh_discovery_urls, fresh_discovery_urls_count.
  destruct (fresh_issuers m utils) as [-> ->].
  rewrite <- !surjective_pairing, !parse_entries. repeat split.
  unfold stage_issuers, stage_discovery. rewrite !parse_family_chosen.
  destruct (_ || _); destruct (_ || _); reflexivity.
Qed.


Lemma stage_derive_lists :
  (discovery_urls (stage_derive m utils fresh_config),
   discovery_urls_count (stage_derive m utils fresh_config)) = providers d i
  /\ (issuers (stage_derive m utils fresh_config),
      issuers_count (stage_derive m utils fresh_config)) = listed i
  /\ (audiences (stage_derive m utils fresh_config),
      audiences_count (stage_derive m utils fresh_config)) = (None, 0).
Proof.
  destruct stage_issuers_lists as (Hd & Hi & Ha).
  unfold stage_derive.
  pose proof (f_equal fst Hd) as Hd1. pose proof (f_equal snd Hd) as Hd2.
  pose proof (f_equal fst Hi) as Hi1. pose proof (f_equal snd Hi) as Hi2.
  cbn [fst snd] in Hd1, Hd2, Hi1, Hi2.
  rewrite Hd1, Hi1, Hi2. clear Hd Hi.
  destruct d as [|d0 dr]; cbn [listed fst snd] in *.
  - destruct i as [|i0 ir]; cbn [listed fst snd providers] in *.
    + rewrite ?Hd1, ?Hd2, ?Hi1, ?Hi2, ?Ha. now repeat split.
    + rewrite (derive_loop_listed (i0 :: ir)).
      cbn [Config.set_discovery_urls discovery_urls discovery_urls_count
           issuers issuers_count audiences audiences_count fst snd].
      rewrite ?Hi1, ?Hi2, ?Ha. now repeat split.
  - cbn [providers listed]. rewrite ?Hd1, ?Hd2, ?Hi1, ?Hi2, ?Ha.
    rewrite <- surjective_pairing. now repeat split.
Qed.

Lemma stage_network_lists :
  (discovery_urls (stage_network m utils fresh_config),
   discovery_urls_count (stage_network m utils fresh_config)) = providers d i
  /\ (issuers (stage_network m utils fresh_config),
      issuers_count (stage_network m utils fresh_config)) = listed i
  /\ (audiences (stage_network m utils fresh_config),
      audiences_count (stage_network m utils fresh_config)) = listed a.
Proof.
  destruct stage_derive_lists as (Hd & Hi & Ha).
  unfold stage_network, stage_validation, stage_audiences.
  rewrite parse_family_chosen.
  destruct (_ || _) eqn:E; simpl.
  - rewrite <- surjective_pairing, parse_entries. now repeat split.
  - unfold a, chosen_audiences. rewrite (chosen_absent _ _ _ E). now repeat split.
Qed.

End FreshLists.

(** X2. After a successful load of a fresh configuration the discovery
    endpoints are the explicit ones whenever the discovery setting yields
    an entry, whatever the issuers are, and otherwise one endpoint derived
    from each issuer; issuers and audiences are the entries of their own
    settings (NULL with count 0 when there is none); and there is always
    at least one discovery endpoint. *)
Theorem loaded_lists (m : plugin_macros) (utils : Sasl.sasl_utils_t) :
  Config.rc (Config.oauth2_config_load m (Config.oauth2_config_init utils)
               (Some utils)) = Sasl.SASL_OK ->
  exists c,
    Config.config_out (Config.oauth2_config_load m (Config.oauth2_config_init utils)
                         (Some utils)) = Some c
    /\ (discovery_urls c, discovery_urls_count c)
       = providers (entries_of (chosen_discovery m utils))
           (entries_of (chosen_issuers m utils))
    /\ (issuers c, issuers_count c) = listed (entries_of (chosen_issuers m utils))
    /\ (audiences c, audiences_count c)
       = listed (entries_of (chosen_audiences m utils))
    /\ discovery_urls c <> None /\ 0 < discovery_urls_count c.
Proof.
  change (Config.oauth2_config_init utils) with (Some fresh_config).
  intros Hrc. rewrite (load_ok m utils fresh_config Hrc).
  exists (stage_network m utils fresh_config). split; [reflexivity|].
  destruct (stage_network_lists m utils) as (Hd & Hi & Ha).
  split; [exact Hd|]. split; [exact Hi|]. split; [exact Ha|].
  assert (Hp : no_provider m utils = false).
  { rewrite load_fresh in Hrc.
    destruct (discovery_conflict m utils); [discriminate|].
    destruct (issuer_conflict m utils); [discriminate|].
    now destruct (no_provider m utils). }
  pose proof (f_equal fst Hd) as Hd1. pose proof (f_equal snd Hd) as Hd2.
  cbn [fst snd] in Hd1, Hd2. rewrite Hd1, Hd2.
  unfold no_provider in Hp.
  destruct (entries_of (chosen_discovery m utils)) as [|d0 dr] eqn:Ed.
  - apply no_entries_iff in Ed. rewrite Ed in Hp. simpl in Hp.
    destruct (entries_of (chosen_issuers m utils)) as [|i0 ir] eqn:Ei.
    + apply no_entries_iff in Ei. congruence.
    + cbn [providers fst snd]. split; [discriminate|]. simpl List.length. lia.
  - cbn [providers listed fst snd]. split; [discriminate|]. simpl List.length. lia.
Qed.

Lemma loaded_lists_witness :
  exists c,
    Config.config_out
      (Config.oauth2_config_load sample_macros
         (Config.oauth2_config_init issuers_and_discovery)
         (Some issuers_and_discovery)) = Some c
    /\ discovery_urls c
       = Some [Some "https://a.example/meta"; Some "https://b.example/meta"; None]
    /\ issuers c = Some [Some "https://a.example/"; Some "https://b.example"; None]
    /\ audiences c = None /\ audiences_count c = 0.
Proof.
  destruct (loaded_lists sample_macros issuers_and_discovery eq_refl)
    as (c & Hc & Hd & Hi & Ha & _).
  exists c. split; [exact Hc|].
  pose proof (f_equal fst Hd) as Hd1. pose proof (f_equal fst Hi) as Hi1.
  pose proof (f_equal fst Ha) as Ha1. pose proof (f_equal snd Ha) as Ha2.
  repeat split; assumption.
Defined.





(** ** What the loader reads *)

Lemma getopt_value_agree u1 u2 key :
  Sasl.getopt u1 "oauth2" key = Sasl.getopt u2 "oauth2" key ->
  Config.getopt_value u1 key = Config.getopt_value u2 key.
Proof. unfold Config.getopt_value. now intros ->. Qed.

(** X4. The result of a load depends on the settings store only through
    the fourteen options of the [oauth2] namespace it asks for: two stores
    that answer those alike give the same return code, structure, log and
    sink level, whatever else they hold. *)
Theorem load_reads_only_its_settings (m : plugin_macros)
  (u1 u2 : Sasl.sasl_utils_t) (config : option oauth2_config_t) :
  (forall key, In key (setting_names m) ->
     Sasl.getopt u1 "oauth2" key = Sasl.getopt u2 "oauth2" key) ->
  Config.oauth2_config_load m config (Some u1)
  = Config.oauth2_config_load m config (Some u2).
Proof.
  intros H. destruct config as [config|]; [|reflexivity].
  assert (Hv : forall key, In key (setting_names m) ->
             Config.getopt_value u1 key = Config.getopt_value u2 key)
    by (intros key Hk; apply getopt_value_agree, H, Hk).
  unfold setting_names in Hv.
  unfold Config.oauth2_config_load, Config.oauth2_config_get_string,
    Config.oauth2_config_get_bool, Config.oauth2_config_get_int.
  rewrite (Hv (OAUTH2_CONF_DISCOVERY_URLS m)) by (simpl; tauto).
  rewrite (Hv (OAUTH2_CONF_DISCOVERY_URL m)) by (simpl; tauto).
  rewrite (Hv (OAUTH2_CONF_ISSUERS m)) by (simpl; tauto).
  rewrite (Hv (OAUTH2_CONF_ISSUER m)) by (simpl; tauto).
  rewrite (Hv (OAUTH2_CONF_CLIENT_ID m)) by (simpl; tauto).
  rewrite (Hv (OAUTH2_CONF_CLIENT_SECRET m)) by (simpl; tauto).
  rewrite (Hv (OAUTH2_CONF_AUDIENCES m)) by (simpl; tauto).
  rewrite (Hv (OAUTH2_CONF_AUDIENCE m)) by (simpl; tauto).
  rewrite (Hv (OAUTH2_CONF_SCOPE m)) by (simpl; tauto).
  rewrite (Hv (OAUTH2_CONF_USER_CLAIM m)) by (simpl; tauto).
  rewrite (Hv (OAUTH2_CONF_VERIFY_SIGNATURE m)) by (simpl; tauto).
  rewrite (Hv (OAUTH2_CONF_SSL_VERIFY m)) by (simpl; tauto).
  rewrite (Hv (OAUTH2_CONF_TIMEOUT m)) by (simpl; tauto).
  rewrite (Hv (OAUTH2_CONF_DEBUG m)) by (simpl; tauto).
  reflexivity.
Qed.

Lemma load_reads_only_its_settings_witness :
  Config.oauth2_config_load sample_macros (Some fresh_config) (Some other_namespace)
  = Config.oauth2_config_load sample_macros (Some fresh_config)
      (Some MiniServer.server_utils).
Proof.
  apply (load_reads_only_its_settings sample_macros other_namespace
           MiniServer.server_utils (Some fresh_config)).
  intros key Hk. reflexivity.
Defined.

(** ** Missing settings and defaults *)




(** ** [oauth2_config_get_int]: range and warnings *)

Lemma literal_strtol_in_range v n n' :
  decimal_literal v n -> decimal_literal v n' -> in_int_range n' -> n = n'.
Proof.
  intros Hn Hn' [Hlo Hhi].
  pose proof (strtol_literal v n Hn) as E. rewrite (strtol_literal v n' Hn') in E.
  injection E as E.
  unfold clamp_long, CStr.LONG_MIN, CStr.LONG_MAX, CStr.INT_MIN, CStr.INT_MAX in *.
  lia.
Qed.

(** X6. [oauth2_config_get_int] returns its default or a value in the
    range of [int], so its final cast never truncates. A missing setting
    gives the default without a word; a present one is logged about
    exactly when it is not an accepted integer, and then with a single
    warning that names the setting, the default being returned. *)
Theorem get_int_fallback (utils : Sasl.sasl_utils_t) (key : string) (d : Z) :
  (fst (Config.oauth2_config_get_int utils key d) = d
   \/ in_int_range (fst (Config.oauth2_config_get_int utils key d)))
  /\ (Config.getopt_value utils key = None ->
      Config.oauth2_config_get_int utils key d = (d, []))
  /\ (forall v, Config.getopt_value utils key = Some v ->
        (accepted_int v -> snd (Config.oauth2_config_get_int utils key d) = [])
        /\ (~ accepted_int v ->
            fst (Config.oauth2_config_get_int utils key d) = d
            /\ exists f a,
                 snd (Config.oauth2_config_get_int utils key d)
                 = [Config.log LOG_WARN f (LogStr key :: a)])).
Proof.
  split; [|split].
  - unfold Config.oauth2_config_get_int.
    destruct (Config.getopt_value utils key) as [v|]; [|now left].
    destruct (CStr.strtol v) as [p e].
    destruct (CStr.same_ptr e v || _); [now left|].
    destruct ((CStr.INT_MAX <? p) || (p <? CStr.INT_MIN)) eqn:E; [now left|].
    right. apply orb_false_iff in E as [E1 E2].
    apply Z.ltb_ge in E1, E2. simpl. split; assumption.
  - intros H. unfold Config.oauth2_config_get_int. now rewrite H.
  - intros v Hv. split.
    + intros (n & Hl & Hr). now rewrite (get_int_in_range utils key v d Hv n Hl Hr).
    + intros Hno. unfold Config.oauth2_config_get_int. rewrite Hv.
      destruct (CStr.strtol v) as [p e] eqn:Es.
      destruct (CStr.same_ptr e v) eqn:Hp; cbn [orb].
      { split; [reflexivity|]. eexists; eexists; reflexivity. }
      destruct e as [|c e]; cbn [negb];
        [|split; [reflexivity|]; eexists; eexists; reflexivity].
      destruct (strtol_whole v p Es Hp) as (n & Hl & Hpn).
      destruct ((CStr.INT_MAX <? p) || (p <? CStr.INT_MIN)) eqn:E.
      { split; [reflexivity|]. eexists; eexists; reflexivity. }
      exfalso. apply Hno. exists n. split; [exact Hl|].
      apply orb_false_iff in E as [E1 E2]. apply Z.ltb_ge in E1, E2.
      subst p. unfold in_int_range.
      unfold clamp_long, CStr.LONG_MIN, CStr.LONG_MAX, CStr.INT_MIN,
        CStr.INT_MAX in *. lia.
Qed.

Lemma get_int_fallback_witness :
  snd (Config.oauth2_config_get_int (with_timeout "99999999999") "oauth2_timeout" 10)
  <> []
  /\ fst (Config.oauth2_config_get_int (with_timeout "99999999999")
            "oauth2_timeout" 10) = 10.
Proof.
  destruct (get_int_fallback (with_timeout "99999999999") "oauth2_timeout" 10)
    as (_ & _ & H).
  destruct (H "99999999999" eq_refl) as [_ Hrej].
  assert (Hno : ~ accepted_int "99999999999").
  { intros (n & Hl & Hr).
    assert (Hlit : decimal_literal "99999999999" 99999999999).
    { apply (decimal_literal_intro "" "" "99999999999");
        [reflexivity|now left|discriminate|reflexivity]. }
    pose proof (literal_strtol_in_range _ _ _ Hlit Hl Hr) as E. subst n.
    unfold in_int_range, CStr.INT_MAX in Hr. lia. }
  destruct (Hrej Hno) as [Hd (f & a & Hw)].
  split; [rewrite Hw; discriminate|exact Hd].
Defined.

(** ** Return codes, errors and the sink level *)





Lemma stage_network_log m utils config :
  oauth2_log (stage_network m utils config) = oauth2_log config.
Proof.
  unfold stage_network, stage_validation, stage_audiences, stage_client,
    stage_derive, stage_issuers, stage_discovery.
  rewrite !parse_family_chosen.
  repeat match goal with
         | |- context [if ?b then _ else _] => destruct b
         | |- context [match ?x with Some _ => _ | None => _ end] => destruct x
         end; reflexivity.
Qed.

(** X8. A successful load of a configuration that has its logging context
    sets the level of the liboauth2 stderr sink from the debug setting
    alone: [OAUTH2_LOG_TRACE1] when the loaded debug flag is set, and
    [OAUTH2_LOG_WARN] otherwise; without a logging context the sink is
    left alone. *)
Theorem sink_level_follows_debug (m : plugin_macros) (utils : Sasl.sasl_utils_t)
  (config : oauth2_config_t) :
  Config.rc (Config.oauth2_config_load m (Some config) (Some utils)) = Sasl.SASL_OK ->
  Config.sink_level (Config.oauth2_config_load m (Some config) (Some utils))
  = if oauth2_log config then
      Some (if Config.oauth2_config_get_bool utils (OAUTH2_CONF_DEBUG m)
                 (OAUTH2_DEFAULT_DEBUG m) =? 0
            then OAUTH2_LOG_WARN else OAUTH2_LOG_TRACE1)
    else None.
Proof.
  intros Hrc. rewrite (load_ok m utils config Hrc).
  unfold loaded. cbn [Config.sink_level]. rewrite stage_network_log.
  reflexivity.
Qed.

Lemma sink_level_follows_debug_witness :
  Config.sink_level
    (Config.oauth2_config_load sample_macros (Some fresh_config)
       (Some issuers_and_discovery)) = Some OAUTH2_LOG_TRACE1.
Proof.
  apply (sink_level_follows_debug sample_macros issuers_and_discovery fresh_config).
  reflexivity.
Defined.

(** ** Issuers that differ by a trailing slash *)

Lemma strip_slash_added i : strip_slash (i ++ "/")%string = i.
Proof.
  induction i as [|c i IH]; [reflexivity|].
  simpl append. destruct (i ++ "/")%string as [|d r] eqn:E.
  - destruct i; discriminate.
  - change (strip_slash (String c (String d r)))
      with (String c (strip_slash (String d r))).
    now rewrite IH.
Qed.

Lemma strip_slash_none i : ends_with_slash i = false -> strip_slash i = i.
Proof.
  induction i as [|c i IH]; [reflexivity|].
  destruct i as [|d i].
  - simpl. now intros ->.
  - intros H.
    change (strip_slash (String c (String d i)))
      with (String c (strip_slash (String d i))).
    change (ends_with_slash (String c (String d i)))
      with (ends_with_slash (String d i)) in H.
    now rewrite (IH H).
Qed.

(** X9. An issuer and the same issuer followed by a slash derive the same
    discovery endpoint: the issuer itself followed by
    [/.well-known/openid-configuration]. Only one slash is dropped: of two
    trailing slashes one stays. *)
Theorem trailing_slash_ignored (issuer : string) :
  Config.discovery_url_of (issuer ++ "/")%string
  = (issuer ++ "/.well-known/openid-configuration")%string
  /\ (ends_with_slash issuer = false ->
      Config.discovery_url_of issuer
      = (issuer ++ "/.well-known/openid-configuration")%string)
  /\ Config.discovery_url_of (issuer ++ "//")%string
     = (issuer ++ "//.well-known/openid-configuration")%string.
Proof.
  rewrite !discovery_url_of_derived. unfold derived_endpoint.
  split; [now rewrite strip_slash_added|].
  split; [intros H; now rewrite (strip_slash_none issuer H)|].
  rewrite (append_cons_middle issuer "/" "/"), strip_slash_added.
  now rewrite append_assoc_s.
Qed.

Lemma trailing_slash_ignored_witness :
  Config.discovery_url_of "https://test.issuer.com"
  = "https://test.issuer.com/.well-known/openid-configuration".
Proof.
  apply (trailing_slash_ignored "https://test.issuer.com"). reflexivity.
Defined.

(** ** Loading twice *)

Lemma config_ext (c c' : oauth2_config_t) :
  (discovery_urls c, discovery_urls_count c) = (discovery_urls c', discovery_urls_count c') ->
  (issuers c, issuers_count c) = (issuers c', issuers_count c') ->
  (audiences c, audiences_count c) = (audiences c', audiences_count c') ->
  (client_id c, client_secret c, scope c, user_claim c)
  = (client_id c', client_secret c', scope c', user_claim c') ->
  (verify_signature c, ssl_verify c, timeout c, debug c, oauth2_log c)
  = (verify_signature c', ssl_verify c', timeout c', debug c', oauth2_log c') ->
  c = c'.
Proof. destruct c, c'; simpl. intros [= -> ->] [= -> ->] [= -> ->] [= -> -> -> ->] [= -> -> -> -> ->]. reflexivity. Qed.

Section Reload.

Variable m : plugin_macros.
Variable utils : Sasl.sasl_utils_t.

Let d := entries_of (chosen_discovery m utils).
Let i := entries_of (chosen_issuers m utils).
Let a := entries_of (chosen_audiences m utils).

Lemma stage_network_scalars c c' :
  (client_id (stage_network m utils c), client_secret (stage_network m utils c),
   scope (stage_network m utils c), user_claim (stage_network m utils c))
  = (client_id (stage_network m utils c'), client_secret (stage_network m utils c'),
     scope (stage_network m utils c'), user_claim (stage_network m utils c'))
  /\ (verify_signature (stage_network m utils c), ssl_verify (stage_network m utils c),
      timeout (stage_network m utils c), debug (stage_network m utils c))
     = (verify_signature (stage_network m utils c'), ssl_verify (stage_network m utils c'),
        timeout (stage_network m utils c'), debug (stage_network m utils c')).
Proof.
  unfold stage_network, stage_validation, stage_audiences.
  rewrite !parse_family_chosen. destruct (_ || _); split; reflexivity.
Qed.

Lemma stage_network_flags c :
  (verify_signature (stage_network m utils (stage_network m utils c)),
   ssl_verify (stage_network m utils (stage_network m utils c)),
   timeout (stage_network m utils (stage_network m utils c)),
   debug (stage_network m utils (stage_network m utils c)),
   oauth2_log (stage_network m utils (stage_network m utils c)))
  = (verify_signature (stage_network m utils c),
     ssl_verify (stage_network m utils c),
     timeout (stage_network m utils c),
     debug (stage_network m utils c),
     oauth2_log (stage_network m utils c)).
Proof. rewrite !stage_network_log. reflexivity. Qed.

(** The lists a successful load leaves are kept by the blocks of a second
    load with the same settings. *)
Lemma stage_issuers_again c :
  (discovery_urls c, discovery_urls_count c) = providers d i ->
  (issuers c, issuers_count c) = listed i ->
  ((discovery_urls (stage_issuers m utils c),
    discovery_urls_count (stage_issuers m utils c)) = providers d i
   \/ (discovery_urls (stage_issuers m utils c),
       discovery_urls_count (stage_issuers m utils c)) = listed d)
  /\ (issuers (stage_issuers m utils c), issuers_count (stage_issuers m utils c))
     = listed i
  /\ (audiences (stage_issuers m utils c), audiences_count (stage_issuers m utils c))
     = (audiences c, audiences_count c).
Proof.
  intros Hd Hi. unfold stage_issuers, stage_discovery.
  rewrite !parse_family_chosen.
  destruct (present utils (OAUTH2_CONF_DISCOVERY_URLS m)
            || present utils (OAUTH2_CONF_DISCOVERY_URL m)) eqn:Pd;
    destruct (present utils (OAUTH2_CONF_ISSUERS m)
              || present utils (OAUTH2_CONF_ISSUER m)) eqn:Pi;
    cbn [Config.set_issuers Config.set_discovery_urls discovery_urls
         discovery_urls_count issuers issuers_count audiences audiences_count];
    rewrite <- ?surjective_pairing, ?parse_entries;
    fold (chosen_discovery m utils) (chosen_issuers m utils);
    fold d i.
  all: split; [|split; [|reflexivity]].
  all: try (right; reflexivity).
  all: try (left; exact Hd).
  all: try reflexivity.
  all: exact Hi.
Qed.

Lemma stage_derive_again c :
  (discovery_urls c, discovery_urls_count c) = providers d i ->
  (issuers c, issuers_count c) = listed i ->
  (discovery_urls (stage_derive m utils c), discovery_urls_count (stage_derive m utils c))
  = providers d i
  /\ (issuers (stage_derive m utils c), issuers_count (stage_derive m utils c))
     = listed i
  /\ (audiences (stage_derive m utils c), audiences_count (stage_derive m utils c))
     = (audiences c, audiences_count c).
Proof.
  intros Hd Hi.
  destruct (stage_issuers_again c Hd Hi) as (Hd' & Hi' & Ha').
  unfold stage_derive.
  pose proof (f_equal fst Hi') as Hi1. pose proof (f_equal snd Hi') as Hi2.
  cbn [fst snd] in Hi1, Hi2.
  destruct Hd' as [Hd'|Hd'];
    pose proof (f_equal fst Hd') as Hd1; pose proof (f_equal snd Hd') as Hd2;
    cbn [fst snd] in Hd1, Hd2; rewrite Hd1, Hi1.
  - destruct d as [|d0 dr]; [destruct i as [|i0 ir]|];
      cbn [providers listed fst snd] in *;
      rewrite ?Hd1, ?Hd2, ?Hi1, ?Hi2, ?Ha', <- ?surjective_pairing;
      now repeat split.
  - destruct d as [|d0 dr]; [destruct i as [|i0 ir]|];
      cbn [providers listed fst snd] in *.
    + rewrite ?Hd1, ?Hd2, ?Hi1, ?Hi2, ?Ha', <- ?surjective_pairing.
      now repeat split.
    + rewrite Hi2, (derive_loop_listed (i0 :: ir)).
      cbn [Config.set_discovery_urls discovery_urls discovery_urls_count
           issuers issuers_count audiences audiences_count fst snd].
      rewrite ?Hi1, ?Hi2, ?Ha', <- ?surjective_pairing. now repeat split.
    + rewrite ?Hd1, ?Hd2, ?Hi1, ?Hi2, ?Ha', <- ?surjective_pairing.
      now repeat split.
Qed.

Lemma stage_network_again c :
  (discovery_urls c, discovery_urls_count c) = providers d i ->
  (issuers c, issuers_count c) = listed i ->
  (audiences c, audiences_count c) = listed a ->
  (discovery_urls (stage_network m utils c), discovery_urls_count (stage_network m utils c))
  = providers d i
  /\ (issuers (stage_network m utils c), issuers_count (stage_network m utils c))
     = listed i
  /\ (audiences (stage_network m utils c), audiences_count (stage_network m utils c))
     = listed a.
Proof.
  intros Hd Hi Ha.
  destruct (stage_derive_again c Hd Hi) as (Hd' & Hi' & Ha').
  unfold stage_network, stage_validation, stage_audiences.
  rewrite parse_family_chosen.
  destruct (_ || _) eqn:E; simpl.
  - rewrite <- surjective_pairing, parse_entries. now repeat split.
  - rewrite Ha', Ha. now repeat split.
Qed.

End Reload.

(** X10. Loading again, with the same settings, the structure that a
    successful load of a fresh configuration has filled returns the same
    result: the same return code, structure, log and sink level. The
    derived discovery endpoints are kept, not derived a second time from
    scratch or lost. *)
Theorem reload_same_settings (m : plugin_macros) (utils : Sasl.sasl_utils_t) :
  let r := Config.oauth2_config_load m (Config.oauth2_config_init utils) (Some utils) in
  Config.rc r = Sasl.SASL_OK ->
  Config.oauth2_config_load m (Config.config_out r) (Some utils) = r.
Proof.
  cbv zeta. change (Config.oauth2_config_init utils) with (Some fresh_config).
  intros Hrc. pose proof Hrc as Hrc'. rewrite load_fresh in Hrc'.
  rewrite (load_ok m utils fresh_config Hrc).
  change (Config.config_out (loaded m utils fresh_config))
    with (Some (stage_network m utils fresh_config)).
  destruct (discovery_conflict m utils) eqn:C1; [discriminate|].
  destruct (issuer_conflict m utils) eqn:C2; [discriminate|].
  destruct (no_provider m utils) eqn:C3; [discriminate|].
  destruct (client_missing m utils) eqn:C4; [discriminate|].
  destruct (audience_conflict m utils) eqn:C5; [discriminate|].
  destruct (stage_network_lists m utils) as (Hd & Hi & Ha).
  set (c1 := stage_network m utils fresh_config) in *.
  destruct (stage_issuers_again m utils c1 Hd Hi) as (Hd' & Hi' & _).
  destruct (stage_network_again m utils c1 Hd Hi Ha) as (Nd & Ni & Na).
  rewrite load_blocks, C1, C2, C4, C5.
  assert (Hset : negb (Config.is_set (discovery_urls (stage_issuers m utils c1)))
                 && negb (Config.is_set (issuers (stage_issuers m utils c1))) = false).
  { pose proof (f_equal fst Hi') as Hi1. cbn [fst] in Hi1. rewrite Hi1.
    unfold no_provider in C3.
    destruct (entries_of (chosen_issuers m utils)) as [|i0 ir] eqn:Ei;
      [|cbn [listed fst Config.is_set negb]; apply andb_false_r].
    destruct (entries_of (chosen_discovery m utils)) as [|d0 dr] eqn:Ed.
    - apply no_entries_iff in Ei, Ed. rewrite Ei, Ed in C3. discriminate.
    - destruct Hd' as [Hd'|Hd']; pose proof (f_equal fst Hd') as Hd1;
        cbn [fst] in Hd1; rewrite Hd1; reflexivity. }
  rewrite Hset.
  assert (Heq : stage_network m utils c1 = c1).
  { destruct (stage_network_scalars m utils c1 fresh_config) as [S1 S2].
    apply config_ext.
    - now rewrite Nd, Hd.
    - now rewrite Ni, Hi.
    - now rewrite Na, Ha.
    - exact S1.
    - exact (stage_network_flags m utils fresh_config). }
  unfold loaded. rewrite Heq. reflexivity.
Qed.

Lemma reload_same_settings_witness :
  Config.oauth2_config_load sample_macros
    (Config.config_out
       (Config.oauth2_config_load sample_macros
          (Config.oauth2_config_init (only_issuer "https://idp.example/realm/"))
          (Some (only_issuer "https://idp.example/realm/"))))
    (Some (only_issuer "https://idp.example/realm/"))
  = Config.oauth2_config_load sample_macros
      (Config.oauth2_config_init (only_issuer "https://idp.example/realm/"))
      (Some (only_issuer "https://idp.example/realm/")).
Proof.
  apply (reload_same_settings sample_macros (only_issuer "https://idp.example/realm/")).
  reflexivity.
Defined.

(** ** The wire-message builders of the integration tests *)

Lemma string_get_app a b k :
  String.get (String.length a + k) (a ++ b)%string = String.get k b.
Proof. induction a as [|c a IH]; simpl; [reflexivity|exact IH]. Qed.

Lemma snprintf_whole text :
  CStr.snprintf (Z.of_nat (String.length text) + 1) text = text.
Proof.
  unfold CStr.snprintf.
  replace (Z.to_nat (Z.of_nat (String.length text) + 1 - 1))
    with (String.length text) by lia.
  apply substring_full.
Qed.

Lemma create_oauthbearer_string_text u t :
  TestUtils.create_oauthbearer_string (Some u) (Some t)
  = Some ("n,a=" ++ u ++ String "," (String (ascii_of_nat 26) "uth=Bearer ") ++ t
            ++ String TestUtils.SOH (String TestUtils.SOH EmptyString))%string.
Proof.
  unfold TestUtils.create_oauthbearer_string, CStr.strlen. f_equal.
  fold TestUtils.lit_x01auth_Bearer TestUtils.lit_x01x01.
  set (text := ("n,a=" ++ u ++ String "," TestUtils.lit_x01auth_Bearer ++ t
                  ++ TestUtils.lit_x01x01)%string).
  rewrite <- (snprintf_whole text) at 2. f_equal.
  unfold text. rewrite !string_length_append. simpl String.length. lia.
Qed.

(** X11. Each of the two builders returns NULL exactly when the username
    or the token is NULL. Otherwise it returns its whole text, never cut
    short, of [strlen(username) + strlen(token) + 19] characters; the
    username and the token stand in it unchanged, and the character between
    them and the text [uth=Bearer ] is the byte 0x1A. *)
Theorem wire_builders_text (username token : option string) :
  (TestUtils.create_xoauth2_string username token = None
   <-> username = None \/ token = None)
  /\ (TestUtils.create_oauthbearer_string username token = None
      <-> username = None \/ token = None)
  /\ (forall u t, username = Some u -> token = Some t ->
        exists x o,
          TestUtils.create_xoauth2_string username token = Some x
          /\ TestUtils.create_oauthbearer_string username token = Some o
          /\ x = ("user=" ++ u ++ String (ascii_of_nat 26) "uth=Bearer " ++ t
                    ++ String TestUtils.SOH (String TestUtils.SOH EmptyString))%string
          /\ o = ("n,a=" ++ u ++ String "," (String (ascii_of_nat 26) "uth=Bearer ")
                    ++ t ++ String TestUtils.SOH (String TestUtils.SOH EmptyString))%string
          /\ String.length x = (String.length u + String.length t + 19)%nat
          /\ String.length o = (String.length u + String.length t + 19)%nat
          /\ String.get (5 + String.length u) x = Some (ascii_of_nat 26)
          /\ String.get (5 + String.length u) o = Some (ascii_of_nat 26)).
Proof.
  split; [|split].
  - destruct username, token; simpl; split; try discriminate; try tauto;
      intros [H|H]; discriminate.
  - destruct username, token; simpl; split; try discriminate; try tauto;
      intros [H|H]; discriminate.
  - intros u t -> ->. eexists; eexists.
    split; [apply create_xoauth2_string_text|].
    split; [apply create_oauthbearer_string_text|].
    split; [reflexivity|]. split; [reflexivity|].
    split; [rewrite !string_length_append; simpl String.length; lia|].
    split; [rewrite !string_length_append; simpl String.length; lia|].
    split.
    + change ("user=" ++ u ++ ?r)%string with ("user=" ++ (u ++ r))%string.
      change (5 + String.length u)%nat
        with (String.length "user=" + String.length u)%nat.
      rewrite string_get_app.
      rewrite <- (Nat.add_0_r (String.length u)). now rewrite string_get_app.
    + change (5 + String.length u)%nat with (4 + S (String.length u))%nat.
      change 4%nat with (String.length "n,a=").
      rewrite string_get_app.
      replace (S (String.length u)) with (String.length u + 1)%nat by lia.
      now rewrite string_get_app.
Qed.

Lemma wire_builders_text_witness :
  TestUtils.create_xoauth2_string (Some "test@test.com") (Some "invalid.jwt.token")
  = Some ("user=test@test.com" ++ String (ascii_of_nat 26) "uth=Bearer invalid.jwt.token"
            ++ String TestUtils.SOH (String TestUtils.SOH EmptyString))%string.
Proof.
  destruct (wire_builders_text (Some "test@test.com") (Some "invalid.jwt.token"))
    as (_ & _ & H).
  destruct (H "test@test.com" "invalid.jwt.token" eq_refl eq_refl)
    as (x & o & Hx & _ & Ex & _).
  rewrite Hx, Ex. reflexivity.
Defined.

(** ** The base64 decoder of the unit tests *)

Lemma table_alphabet c : (0 <=? TestFramework.table_at c) = in_alphabet c.
Proof. destruct c as [[] [] [] [] [] [] [] []]; reflexivity. Qed.

Lemma lor_shiftl_add X s : 0 <= X -> 0 <= s < 64 ->
  Z.lor (Z.shiftl X 6) s = X * 64 + s.
Proof.
  intros HX Hs.
  rewrite Z.shiftl_mul_pow2 by lia. change (2 ^ 6) with 64.
  rewrite <- Z.lxor_lor, <- Z.add_nocarry_lxor; try reflexivity.
  all: apply Z.bits_inj'; intros n Hn; rewrite Z.land_spec, Z.bits_0;
    destruct (Z.ltb_spec n 6).
  all: try (replace (X * 64) with (X * 2 ^ 6) by lia; rewrite Z.mul_pow2_bits_low by lia; reflexivity).
  all: destruct (Z.eq_dec s 0) as [->|]; [rewrite Z.bits_0; apply andb_false_r|];
    rewrite (Z.bits_above_log2 s n); [apply andb_false_r|lia|];
    apply Z.log2_lt_pow2; [lia|]; apply Z.lt_le_trans with (2 ^ 6); [simpl; lia|];
    apply Z.pow_le_mono_r; lia.
Qed.

Lemma emit X s' s k : 0 <= X -> 0 <= s' < 64 -> 0 <= s < 64 ->
  k = 0 \/ k = 2 \/ k = 4 ->
  Z.land (Z.shiftr (TestFramework.uint32_t (Z.lor (Z.shiftl
    (TestFramework.uint32_t (Z.lor (Z.shiftl X 6) s')) 6) s)) k) 255
  = ((s' * 64 + s) / 2 ^ k) mod 256.
Proof.
  intros HX Hs' Hs Hk.
  rewrite (lor_shiftl_add X s') by lia.
  unfold TestFramework.uint32_t.
  rewrite lor_shiftl_add; [|apply Z.mod_pos_bound; lia|lia].
  change 255 with (Z.ones 8). rewrite Z.land_ones by lia.
  rewrite Z.shiftr_div_pow2 by lia.
  change (2 ^ 32) with 4294967296. change (2 ^ 8) with 256.
  destruct Hk as [->|[->| ->]]; simpl (2 ^ _);
    Z.div_mod_to_equations; lia.
Qed.

Lemma digit_table v : 0 <= v < 64 ->
  TestFramework.table_at (digit v) = v /\ Ascii.eqb (digit v) "=" = false.
Proof.
  intros H.
  assert (A : forallb (fun n =>
                (TestFramework.table_at (digit (Z.of_nat n)) =? Z.of_nat n)
                && negb (Ascii.eqb (digit (Z.of_nat n)) "="))
              (seq 0 64) = true) by (vm_compute; reflexivity).
  rewrite forallb_forall in A. specialize (A (Z.to_nat v)).
  rewrite Z2Nat.id in A by lia.
  assert (I : In (Z.to_nat v) (seq 0 64)) by (apply in_seq; lia).
  apply A in I. apply andb_true_iff in I as [I1 I2].
  split; [lia|]. now destruct (Ascii.eqb (digit v) "=").
Qed.

Lemma decode_step_keep cap v rest out buf : 0 <= v < 64 ->
  TestFramework.decode_loop cap (String (digit v) rest) out buf 0
  = TestFramework.decode_loop cap rest out
      (TestFramework.uint32_t (Z.lor (Z.shiftl buf 6) v)) 6.
Proof.
  intros H. destruct (digit_table v H) as [T E].
  cbn [TestFramework.decode_loop]. rewrite E, T.
  destruct (Z.ltb_spec v 0); [lia|]. reflexivity.
Qed.

Lemma decode_step_emit cap v rest out buf k : 0 <= v < 64 -> 0 <= k ->
  Z.of_nat (List.length out) < cap ->
  TestFramework.decode_loop cap (String (digit v) rest) out buf (k + 2)
  = TestFramework.decode_loop cap rest
      (out ++ [Z.land (Z.shiftr (TestFramework.uint32_t (Z.lor (Z.shiftl buf 6) v)) k) 255])
      (TestFramework.uint32_t (Z.lor (Z.shiftl buf 6) v)) k.
Proof.
  intros H Hk Hc. destruct (digit_table v H) as [T E].
  cbn [TestFramework.decode_loop]. rewrite E, T.
  destruct (Z.ltb_spec v 0); [lia|].
  destruct (Z.leb_spec 8 (k + 2 + 6)); [|lia].
  destruct (Z.ltb_spec (Z.of_nat (List.length out)) cap); [|lia].
  replace (k + 2 + 6 - 8) with k by lia. reflexivity.
Qed.

Lemma decode_loop_stop cap tail out buf buf_len :
  data_part tail = EmptyString ->
  TestFramework.decode_loop cap tail out buf buf_len = TestFramework.Stopped out.
Proof.
  destruct tail as [|c r]; [reflexivity|]. simpl.
  destruct (Ascii.eqb c "="); [reflexivity|discriminate].
Qed.

Lemma uint32_nonneg x : 0 <= TestFramework.uint32_t x.
Proof. unfold TestFramework.uint32_t. apply Z.mod_pos_bound. reflexivity. Qed.

Lemma list_ind3 {A} (P : list A -> Prop) :
  P [] -> (forall a, P [a]) -> (forall a b, P [a; b]) ->
  (forall a b c r, P r -> P (a :: b :: c :: r)) ->
  forall l, P l.
Proof.
  intros H0 H1 H2 H3 l.
  enough (P l /\ (forall a, P (a :: l)) /\ (forall a b, P (a :: b :: l))) by tauto.
  induction l as [|x l (IH0 & IH1 & IH2)]; [auto|].
  split; [apply IH1|]. split; [intro; apply IH2|]. intros a b. now apply H3.
Qed.

Lemma sextets_range bytes : Forall is_byte bytes ->
  Forall (fun v => 0 <= v < 64) (sextets bytes).
Proof.
  unfold is_byte.
  induction bytes as [|a|a b|a b c r IH] using list_ind3; intros F.
  - constructor.
  - inversion_clear F. cbn [sextets]. repeat constructor; Z.div_mod_to_equations; lia.
  - inversion_clear F as [|? ? ? F']. inversion_clear F'.
    cbn [sextets]. repeat constructor; Z.div_mod_to_equations; lia.
  - inversion_clear F as [|? ? ? F']. inversion_clear F' as [|? ? ? F''].
    inversion_clear F''. cbn [sextets].
    repeat (constructor; [Z.div_mod_to_equations; lia|]). now apply IH.
Qed.

Lemma decode_loop_encoded bytes : Forall is_byte bytes ->
  forall cap tail out X, 0 <= X ->
    Z.of_nat (List.length out) + Z.of_nat (List.length bytes) <= cap ->
    data_part tail = EmptyString ->
    TestFramework.decode_loop cap (base64 bytes ++ tail)%string out X 0
    = TestFramework.Stopped (out ++ bytes).
Proof.
  unfold base64.
  induction bytes as [|a|a b|a b c r IH] using list_ind3;
    intros F cap tail out X HX Hcap Htail.
  - cbn. rewrite app_nil_r. now apply decode_loop_stop.
  - inversion_clear F as [|? ? Ha _]. unfold is_byte in Ha.
    cbn [sextets map string_of_list_ascii append]. cbn [List.length] in Hcap.
    rewrite decode_step_keep by (Z.div_mod_to_equations; lia).
    rewrite (decode_step_emit _ _ _ _ _ 4) by (try (Z.div_mod_to_equations; lia); lia).
    rewrite emit by (try (Z.div_mod_to_equations; lia); auto).
    rewrite decode_loop_stop by assumption.
    repeat f_equal. simpl (2 ^ 4). Z.div_mod_to_equations; lia.
  - inversion_clear F as [|? ? Ha F']. inversion_clear F' as [|? ? Hb _].
    unfold is_byte in Ha, Hb.
    cbn [sextets map string_of_list_ascii append]. cbn [List.length] in Hcap.
    rewrite decode_step_keep by (Z.div_mod_to_equations; lia).
    rewrite (decode_step_emit _ _ _ _ _ 4) by (try (Z.div_mod_to_equations; lia); lia).
    rewrite (decode_step_emit _ _ _ _ _ 2)
      by (try (Z.div_mod_to_equations; lia); rewrite ?length_app; cbn [List.length]; lia).
    rewrite !emit by (try (Z.div_mod_to_equations; lia); auto using uint32_nonneg).
    rewrite decode_loop_stop by assumption.
    rewrite <- app_assoc. cbn [app].
    repeat f_equal; simpl (2 ^ _); Z.div_mod_to_equations; lia.
  - inversion_clear F as [|? ? Ha F']. inversion_clear F' as [|? ? Hb F''].
    inversion_clear F'' as [|? ? Hc F]. unfold is_byte in Ha, Hb, Hc.
    cbn [sextets map string_of_list_ascii append]. cbn [List.length] in Hcap.
    rewrite decode_step_keep by (Z.div_mod_to_equations; lia).
    rewrite (decode_step_emit _ _ _ _ _ 4) by (try (Z.div_mod_to_equations; lia); lia).
    rewrite (decode_step_emit _ _ _ _ _ 2)
      by (try (Z.div_mod_to_equations; lia); rewrite ?length_app; cbn [List.length]; lia).
    rewrite (decode_step_emit _ _ _ _ _ 0)
      by (try (Z.div_mod_to_equations; lia); rewrite ?length_app; cbn [List.length]; lia).
    rewrite !emit by (try (Z.div_mod_to_equations; lia); auto using uint32_nonneg).
    rewrite IH; [|assumption|apply uint32_nonneg| |assumption].
    + rewrite <- !app_assoc. cbn [app].
      repeat f_equal; simpl (2 ^ _); Z.div_mod_to_equations; lia.
    + rewrite !length_app. cbn [List.length]. lia.
Qed.

Lemma decode_blocks s :
  TestFramework.test_base64_decode (Some s) true true
  = if CStr.strlen s =? 0 then TestFramework.Refused
    else match TestFramework.decode_loop (capacity_of s) s [] 0 0 with
         | TestFramework.BadChar => TestFramework.Invalid
         | TestFramework.Overrun index => TestFramework.OutOfBounds (capacity_of s) index
         | TestFramework.Stopped out =>
             if Z.of_nat (List.length out) <? capacity_of s
             then TestFramework.Decoded (capacity_of s) out
             else TestFramework.OutOfBounds (capacity_of s) (Z.of_nat (List.length out))
         end.
Proof. reflexivity. Qed.

Lemma padding_range s : 0 <= padding_of s <= 2.
Proof.
  unfold padding_of.
  destruct (2 <=? CStr.strlen s); [|lia].
  destruct (Ascii.eqb _ "="), (Ascii.eqb _ "="); lia.
Qed.

Lemma capacity_value s :
  s <> EmptyString -> CStr.strlen s < 2 ^ 62 ->
  capacity_of s = CStr.strlen s * 3 / 4 - padding_of s + 1.
Proof.
  intros Hs Hlen. unfold capacity_of, TestFramework.size_t.
  assert (0 < CStr.strlen s)
    by (unfold CStr.strlen; destruct s; [congruence|simpl; lia]).
  pose proof (padding_range s) as Hp.
  assert (CStr.strlen s < 2 -> padding_of s = 0).
  { unfold padding_of. destruct (Z.leb_spec 2 (CStr.strlen s)); [lia|reflexivity]. }
  change (2 ^ 62) with 4611686018427387904 in Hlen.
  change (2 ^ 64) with 18446744073709551616.
  rewrite (Z.mod_small (CStr.strlen s * 3)) by lia.
  rewrite Z.add_mod_idemp_l by lia.
  apply Z.mod_small. Z.div_mod_to_equations; lia.
Qed.

Lemma get_pad_data s : forall i,
  String.get i s = Some "="%char -> (String.length (data_part s) <= i)%nat.
Proof.
  induction s as [|c r IH]; intros i H; [simpl; lia|].
  simpl. destruct (Ascii.eqb_spec c "="); [simpl; lia|].
  destruct i as [|i]; simpl in H; [congruence|].
  simpl. apply IH in H. lia.
Qed.

Lemma char_at_pad s i : 0 <= i ->
  Ascii.eqb (TestFramework.char_at s i) "=" = true ->
  (String.length (data_part s) <= Z.to_nat i)%nat.
Proof.
  intros Hi H. apply get_pad_data. unfold TestFramework.char_at in H.
  destruct (String.get (Z.to_nat i) s) as [c|]; [|discriminate].
  apply Ascii.eqb_eq in H. now subst.
Qed.

Lemma data_part_le s : (String.length (data_part s) <= String.length s)%nat.
Proof.
  induction s as [|c r IH]; simpl; [lia|].
  destruct (Ascii.eqb c "="); simpl; lia.
Qed.

Lemma data_len_padding s :
  CStr.strlen (data_part s) <= CStr.strlen s - padding_of s.
Proof.
  unfold padding_of, CStr.strlen. pose proof (data_part_le s).
  fold (CStr.strlen s).
  destruct (Z.leb_spec 2 (CStr.strlen s)) as [L|L]; [|unfold CStr.strlen; lia].
  destruct (Ascii.eqb _ "=") eqn:E1, (Ascii.eqb (TestFramework.char_at s (CStr.strlen s - 2)) "=") eqn:E2;
    try (apply char_at_pad in E1; [|lia]);
    try (apply char_at_pad in E2; [|lia]);
    unfold CStr.strlen in *; lia.
Qed.

Lemma padding_none s : data_part s = s -> padding_of s = 0.
Proof.
  intros H. pose proof (data_len_padding s) as A. rewrite H in A.
  pose proof (padding_range s). lia.
Qed.

Lemma data_part_app d tail :
  data_part d = d -> data_part (d ++ tail)%string = (d ++ data_part tail)%string.
Proof.
  induction d as [|c r IH]; intros H; [reflexivity|].
  simpl in *. destruct (Ascii.eqb c "="); [discriminate|].
  injection H as H. now rewrite IH.
Qed.

Lemma char_at_app d tail k : 0 <= k ->
  TestFramework.char_at (d ++ tail)%string (CStr.strlen d + k)
  = TestFramework.char_at tail k.
Proof.
  intros Hk. unfold TestFramework.char_at, CStr.strlen.
  replace (Z.to_nat (Z.of_nat (String.length d) + k))
    with (Z.to_nat k + String.length d)%nat by lia.
  now rewrite <- append_correct2.
Qed.

Lemma padding_one d : data_part d = d -> d <> EmptyString ->
  padding_of (d ++ "=")%string = 1.
Proof.
  intros Hd Hne.
  pose proof (data_len_padding (d ++ "=")) as A.
  rewrite data_part_app in A by assumption. simpl data_part in A.
  assert (L : CStr.strlen (d ++ "=") = CStr.strlen d + 1)
    by (unfold CStr.strlen; rewrite string_length_append; simpl; lia).
  assert (0 < CStr.strlen d)
    by (unfold CStr.strlen; destruct d; [congruence|simpl; lia]).
  rewrite append_empty_r in A.
  enough (1 <= padding_of (d ++ "=")) by lia.
  unfold padding_of. rewrite L.
  destruct (Z.leb_spec 2 (CStr.strlen d + 1)); [|lia].
  replace (CStr.strlen d + 1 - 1) with (CStr.strlen d + 0) by lia.
  rewrite char_at_app by lia. change (TestFramework.char_at "=" 0) with "="%char.
  simpl (Ascii.eqb "=" "="). destruct (Ascii.eqb _ "="); lia.
Qed.

Lemma padding_two d : padding_of (d ++ "==")%string = 2.
Proof.
  assert (L : CStr.strlen (d ++ "==") = CStr.strlen d + 2)
    by (unfold CStr.strlen; rewrite string_length_append; simpl; lia).
  assert (0 <= CStr.strlen d) by (unfold CStr.strlen; lia).
  unfold padding_of. rewrite L.
  destruct (Z.leb_spec 2 (CStr.strlen d + 2)); [|lia].
  replace (CStr.strlen d + 2 - 1) with (CStr.strlen d + 1) by lia.
  replace (CStr.strlen d + 2 - 2) with (CStr.strlen d + 0) by lia.
  rewrite !char_at_app by lia. reflexivity.
Qed.

Lemma data_part_digits l : Forall (fun v => 0 <= v < 64) l ->
  data_part (string_of_list_ascii (map digit l)) = string_of_list_ascii (map digit l).
Proof.
  induction 1 as [|v l Hv _ IH]; [reflexivity|].
  simpl. destruct (digit_table v Hv) as [_ ->]. now rewrite IH.
Qed.

Lemma length_string_of_list l :
  String.length (string_of_list_ascii l) = List.length l.
Proof. induction l; simpl; congruence. Qed.

Lemma sextets_length bytes :
  Z.of_nat (List.length (sextets bytes))
  = (4 * Z.of_nat (List.length bytes) + 2) / 3.
Proof.
  induction bytes as [|a|a b|a b c r IH] using list_ind3; try reflexivity.
  cbn [sextets List.length]. rewrite !Nat2Z.inj_succ, IH.
  Z.div_mod_to_equations; lia.
Qed.

Lemma base64_length bytes :
  CStr.strlen (base64 bytes) = (4 * Z.of_nat (List.length bytes) + 2) / 3.
Proof.
  unfold CStr.strlen, base64.
  now rewrite length_string_of_list, length_map, sextets_length.
Qed.

Lemma pad_cases bytes :
  (pad bytes = EmptyString /\ Z.of_nat (List.length bytes) mod 3 = 0)
  \/ (pad bytes = "==" /\ Z.of_nat (List.length bytes) mod 3 = 1)
  \/ (pad bytes = "=" /\ Z.of_nat (List.length bytes) mod 3 = 2).
Proof.
  unfold pad.
  pose proof (Nat.mod_upper_bound (List.length bytes) 3 ltac:(lia)) as B.
  assert (E : Z.of_nat (List.length bytes) mod 3
              = Z.of_nat (List.length bytes mod 3)) by (rewrite Nat2Z.inj_mod; reflexivity).
  rewrite E.
  destruct (List.length bytes mod 3)%nat as [|[|[|n]]]; [| | |lia]; auto.
Qed.

(** X12. Round trip with a base64 encoder. For every non-empty sequence of
    fewer than 2^60 bytes, the decoder applied to its RFC 4648 encoding, written without
    padding or with it, returns [true] with exactly these bytes, their
    number as [*dst_len], and a buffer one byte larger for the NUL. *)
Theorem decode_roundtrip (bytes : list Z) :
  bytes <> [] -> Forall is_byte bytes ->
  Z.of_nat (List.length bytes) < 2 ^ 60 ->
  TestFramework.test_base64_decode (Some (base64 bytes)) true true
  = TestFramework.Decoded (Z.of_nat (List.length bytes) + 1) bytes
  /\ TestFramework.test_base64_decode (Some (base64 bytes ++ pad bytes)%string) true true
     = TestFramework.Decoded (Z.of_nat (List.length bytes) + 1) bytes.
Proof.
  intros Hne F Hlen.
  set (n := Z.of_nat (List.length bytes)) in *.
  assert (Hn : 0 < n) by (unfold n; destruct bytes; [congruence|simpl; lia]).
  pose proof (base64_length bytes) as HL. fold n in HL.
  assert (Hd : data_part (base64 bytes) = base64 bytes)
    by (apply data_part_digits, sextets_range, F).
  assert (Hd0 : base64 bytes <> EmptyString).
  { intros E. rewrite E in HL. change (CStr.strlen EmptyString) with 0 in HL.
    revert HL. Z.div_mod_to_equations; lia. }
  change (2 ^ 60) with 1152921504606846976 in Hlen.
  assert (K : forall tail p,
             data_part tail = EmptyString ->
             padding_of (base64 bytes ++ tail) = p ->
             (CStr.strlen (base64 bytes) + CStr.strlen tail) * 3 / 4 - p = n ->
             CStr.strlen tail <= 2 ->
             TestFramework.test_base64_decode (Some (base64 bytes ++ tail)%string) true true
             = TestFramework.Decoded (n + 1) bytes).
  { intros tail p Ht Hp Hcap Htl.
    assert (L : CStr.strlen (base64 bytes ++ tail) = CStr.strlen (base64 bytes) + CStr.strlen tail)
      by (unfold CStr.strlen; rewrite string_length_append; lia).
    assert (0 <= CStr.strlen tail) by (unfold CStr.strlen; lia).
    assert (C : capacity_of (base64 bytes ++ tail) = n + 1).
    { rewrite capacity_value; [rewrite L, Hp; lia| |].
      - destruct (base64 bytes); [congruence|discriminate].
      - rewrite L, HL. change (2 ^ 62) with 4611686018427387904.
        Z.div_mod_to_equations; lia. }
    rewrite decode_blocks, C, L.
    destruct (Z.eqb_spec (CStr.strlen (base64 bytes) + CStr.strlen tail) 0) as [E|_];
      [rewrite HL in E; revert E; Z.div_mod_to_equations; lia|].
    rewrite decode_loop_encoded; [|assumption|lia|unfold n; cbn [List.length]; lia|assumption].
    cbn [app]. fold n.
    destruct (Z.ltb_spec n (n + 1)); [reflexivity|lia]. }
  split.
  - rewrite <- (append_empty_r (base64 bytes)) at 1.
    apply (K EmptyString 0); [reflexivity| | |unfold CStr.strlen; simpl; lia].
    + rewrite append_empty_r. now apply padding_none.
    + rewrite HL. change (CStr.strlen "") with 0.
      Z.div_mod_to_equations; lia.
  - destruct (pad_cases bytes) as [[-> M]|[[-> M]|[-> M]]]; fold n in M.
    + apply (K EmptyString 0); [reflexivity| | |unfold CStr.strlen; simpl; lia].
      * rewrite append_empty_r. now apply padding_none.
      * rewrite HL. change (CStr.strlen "") with 0.
        Z.div_mod_to_equations; lia.
    + apply (K "==" 2); [reflexivity|apply padding_two| |unfold CStr.strlen; simpl; lia].
      rewrite HL. change (CStr.strlen "==") with 2.
      Z.div_mod_to_equations; lia.
    + apply (K "=" 1); [reflexivity|now apply padding_one| |unfold CStr.strlen; simpl; lia].
      rewrite HL. change (CStr.strlen "=") with 1.
      Z.div_mod_to_equations; lia.
Qed.

Lemma decode_loop_shape cap src : forall out buf buf_len,
  0 <= buf_len < 8 ->
  Z.of_nat (List.length out) + (buf_len + 6 * CStr.strlen (data_part src)) / 8 <= cap ->
  if forallb in_alphabet (data_chars src)
  then exists out',
         TestFramework.decode_loop cap src out buf buf_len = TestFramework.Stopped out'
         /\ Z.of_nat (List.length out')
            = Z.of_nat (List.length out) + (buf_len + 6 * CStr.strlen (data_part src)) / 8
  else TestFramework.decode_loop cap src out buf buf_len = TestFramework.BadChar.
Proof.
  unfold data_chars, CStr.strlen.
  induction src as [|c r IH]; intros out buf bl Hbl Hcap.
  - simpl. exists out. split; [reflexivity|]. simpl. rewrite Z.div_small; lia.
  - cbn [data_part TestFramework.decode_loop] in *.
    destruct (Ascii.eqb c "=").
    + simpl. exists out. split; [reflexivity|]. simpl. rewrite Z.div_small; lia.
    + cbn [list_ascii_of_string forallb String.length] in *.
      rewrite <- table_alphabet.
      destruct (Z.ltb_spec (TestFramework.table_at c) 0) as [B|B].
      * destruct (Z.leb_spec 0 (TestFramework.table_at c)); [lia|reflexivity].
      * destruct (Z.leb_spec 0 (TestFramework.table_at c)); [|lia].
        cbn [andb]. rewrite Nat2Z.inj_succ in Hcap.
        set (n := Z.of_nat (String.length (data_part r))) in *.
        assert (0 <= n) by (unfold n; lia).
        destruct (Z.leb_spec 8 (bl + 6)) as [E|E].
        -- destruct (Z.ltb_spec (Z.of_nat (List.length out)) cap) as [C|C];
             [|revert Hcap; Z.div_mod_to_equations; lia].
           set (b := Z.land _ 255). set (buf' := TestFramework.uint32_t _).
           specialize (IH (out ++ [b]) buf' (bl + 6 - 8)).
           rewrite length_app in IH. cbn [List.length] in IH.
           destruct (forallb in_alphabet (list_ascii_of_string (data_part r))).
           ++ destruct IH as (out' & R & Len);
                [lia|revert Hcap; Z.div_mod_to_equations; lia|].
              exists out'. split; [exact R|]. rewrite Len, Nat2Z.inj_succ.
              Z.div_mod_to_equations; lia.
           ++ apply IH; [lia|revert Hcap; Z.div_mod_to_equations; lia].
        -- set (buf' := TestFramework.uint32_t _).
           specialize (IH out buf' (bl + 6)).
           destruct (forallb in_alphabet (list_ascii_of_string (data_part r))).
           ++ destruct IH as (out' & R & Len);
                [lia|revert Hcap; Z.div_mod_to_equations; lia|].
              exists out'. split; [exact R|]. rewrite Len, Nat2Z.inj_succ.
              Z.div_mod_to_equations; lia.
           ++ apply IH; [lia|revert Hcap; Z.div_mod_to_equations; lia].
Qed.

Lemma data_fits s : s <> EmptyString -> CStr.strlen s < 2 ^ 62 ->
  capacity_of s = CStr.strlen s * 3 / 4 - padding_of s + 1
  /\ 3 * CStr.strlen (data_part s) / 4 <= capacity_of s
  /\ (data_part s = s \/ CStr.strlen s mod 4 = 0 ->
      3 * CStr.strlen (data_part s) / 4 < capacity_of s).
Proof.
  intros Hs Hlen. rewrite capacity_value by assumption.
  pose proof (data_len_padding s) as D. pose proof (padding_range s) as P.
  assert (0 <= CStr.strlen (data_part s)) by (unfold CStr.strlen; lia).
  split; [reflexivity|]. split.
  - Z.div_mod_to_equations; lia.
  - intros [E|E].
    + rewrite (padding_none s E) in *. rewrite E. Z.div_mod_to_equations; lia.
    + revert E. Z.div_mod_to_equations; lia.
Qed.

Lemma decode_loop_whole s : s <> EmptyString -> CStr.strlen s < 2 ^ 62 ->
  if forallb in_alphabet (data_chars s)
  then exists out,
         TestFramework.decode_loop (capacity_of s) s [] 0 0 = TestFramework.Stopped out
         /\ Z.of_nat (List.length out) = 3 * CStr.strlen (data_part s) / 4
  else TestFramework.decode_loop (capacity_of s) s [] 0 0 = TestFramework.BadChar.
Proof.
  intros Hs Hlen. destruct (data_fits s Hs Hlen) as (_ & Fit & _).
  assert (0 <= CStr.strlen (data_part s)) by (unfold CStr.strlen; lia).
  assert (E : (0 + 6 * CStr.strlen (data_part s)) / 8
              = 3 * CStr.strlen (data_part s) / 4)
    by (Z.div_mod_to_equations; lia).
  pose proof (decode_loop_shape (capacity_of s) s [] 0 0 ltac:(lia)) as L.
  cbn [List.length] in L. rewrite E in L. change (Z.of_nat 0) with 0 in L.
  rewrite Z.add_0_l in L. apply L. exact Fit.
Qed.

Lemma strlen_zero s : (CStr.strlen s =? 0) = true <-> s = EmptyString.
Proof.
  unfold CStr.strlen. destruct s; simpl; split; intros H;
    try reflexivity; try discriminate; lia.
Qed.

(** X13. The decoder returns [false] without touching [*dst] exactly when
    an argument is NULL or the text is empty. For a non-empty text of
    fewer than 2^62 characters it frees the buffer, sets [*dst = NULL] and returns [false] exactly when a
    character before the first ['='] lies outside the 64 characters
    [A-Z a-z 0-9 + /]; the URL-safe ['-'] and ['_'] are among the rejected
    ones. *)
Theorem decode_rejects (src : option string) (dst dst_len : bool) :
  (TestFramework.test_base64_decode src dst dst_len = TestFramework.Refused
   <-> src = None \/ src = Some EmptyString \/ dst = false \/ dst_len = false)
  /\ (forall s, src = Some s -> CStr.strlen s < 2 ^ 62 ->
        dst = true -> dst_len = true ->
        (TestFramework.test_base64_decode src dst dst_len = TestFramework.Invalid
         <-> s <> EmptyString
             /\ exists c, In c (data_chars s) /\ in_alphabet c = false))
  /\ in_alphabet "-" = false /\ in_alphabet "_" = false.
Proof.
  split; [|split; [|split; reflexivity]].
  - destruct src as [s|]; [|simpl; tauto].
    destruct dst; [|simpl; tauto]. destruct dst_len; [|simpl; tauto].
    rewrite decode_blocks.
    destruct (CStr.strlen s =? 0) eqn:Z0.
    + apply strlen_zero in Z0. subst. tauto.
    + split.
      * destruct (TestFramework.decode_loop _ _ _ _ _); try discriminate.
        destruct (_ <? _); discriminate.
      * intros [H|[H|[H|H]]]; try discriminate.
        injection H as ->. discriminate.
  - intros s -> Hlen -> ->. rewrite decode_blocks.
    destruct (CStr.strlen s =? 0) eqn:Z0.
    + apply strlen_zero in Z0. subst. split; [discriminate|]. intros [H _]. congruence.
    + assert (Hs : s <> EmptyString) by (intros ->; discriminate).
      pose proof (decode_loop_whole s Hs Hlen) as W.
      destruct (forallb in_alphabet (data_chars s)) eqn:V.
      * destruct W as (out & -> & _). split.
        -- destruct (_ <? _); discriminate.
        -- intros (_ & c & I & A). rewrite forallb_forall in V.
           apply V in I. congruence.
      * rewrite W. split; [|reflexivity]. intros _. split; [exact Hs|].
        destruct (forallb_forall in_alphabet (data_chars s)) as [_ B].
        apply not_true_iff_false in V.
        destruct (existsb (fun c => negb (in_alphabet c)) (data_chars s)) eqn:X.
        -- apply existsb_exists in X as (c & I & N). exists c. split; [exact I|].
           now destruct (in_alphabet c).
        -- exfalso. apply V, B. intros c I.
           destruct (in_alphabet c) eqn:A; [reflexivity|].
           assert (existsb (fun c => negb (in_alphabet c)) (data_chars s) = true)
             by (apply existsb_exists; exists c; rewrite A; auto).
           congruence.
Qed.

(** X14. For a non-empty text of fewer than 2^62 characters whose
    characters before the first ['='] are all in the alphabet, [n] of them, the decoder stores [3n/4] bytes and
    every one of them inside its buffer of [3*strlen/4 - padding + 1]
    bytes. The terminating NUL is stored inside it too when the text holds
    no ['='] or its length is a multiple of four; otherwise it can fall one
    byte behind the buffer, which happens exactly when [3n/4] equals the
    size of the buffer. *)
Theorem decode_bounds (s : string) :
  s <> EmptyString -> CStr.strlen s < 2 ^ 62 ->
  forallb in_alphabet (data_chars s) = true ->
  let stored := 3 * CStr.strlen (data_part s) / 4 in
  let capacity := CStr.strlen s * 3 / 4 - padding_of s + 1 in
  exists out,
    Z.of_nat (List.length out) = stored
    /\ stored <= capacity
    /\ TestFramework.test_base64_decode (Some s) true true
       = (if stored <? capacity then TestFramework.Decoded capacity out
          else TestFramework.OutOfBounds capacity stored)
    /\ (data_part s = s \/ CStr.strlen s mod 4 = 0 -> stored < capacity).
Proof.
  intros Hs Hlen V stored capacity.
  destruct (data_fits s Hs Hlen) as (C & Fit & Safe).
  pose proof (decode_loop_whole s Hs Hlen) as W. rewrite V in W.
  destruct W as (out & R & Len). exists out.
  fold stored in Len, Fit, Safe. fold capacity in C. rewrite C in *.
  split; [exact Len|]. split; [exact Fit|]. split; [|exact Safe].
  rewrite decode_blocks, C, R, Len.
  destruct (CStr.strlen s =? 0) eqn:Z0; [|reflexivity].
  apply strlen_zero in Z0. contradiction.
Qed.

Lemma decode_bounds_witness :
  TestFramework.test_base64_decode (Some "AAAA=") true true
  = TestFramework.OutOfBounds 3 3.
Proof.
  destruct (decode_bounds "AAAA=") as (out & _ & _ & R & _);
    [discriminate|reflexivity|reflexivity|].
  exact R.
Defined.

Lemma decode_rejects_witness :
  TestFramework.test_base64_decode (Some "eyJ-_w") true true = TestFramework.Invalid.
Proof.
  destruct (decode_rejects (Some "eyJ-_w") true true) as (_ & H & _).
  apply (H "eyJ-_w" eq_refl); [reflexivity|reflexivity|reflexivity|].
  split; [discriminate|]. exists "-"%char. split; [|reflexivity].
  simpl. tauto.
Defined.

Lemma decode_roundtrip_witness :
  TestFramework.test_base64_decode (Some "TWFuIQ==") true true
  = TestFramework.Decoded 5 [77; 97; 110; 33].
Proof.
  destruct (decode_roundtrip [77; 97; 110; 33]) as [_ H].
  - discriminate.
  - repeat constructor; unfold is_byte; lia.
  - reflexivity.
  - exact H.
Defined.

(** ** The test server and the test client *)

Lemma prefix_app n : forall h,
  String.prefix n h = true <-> exists post, h = (n ++ post)%string.
Proof.
  induction n as [|c n IH]; intros h.
  - split; [intros _; now exists h|intros _; destruct h; reflexivity].
  - destruct h as [|d h]; simpl.
    + split; [discriminate|intros [post H]; discriminate].
    + destruct (ascii_dec c d) as [->|N].
      * rewrite IH. split; intros [post H]; exists post; congruence.
      * split; [discriminate|]. intros [post H]. congruence.
Qed.

Lemma strstr_found h n :
  CStr.strstr h n <> None <-> exists pre post, h = (pre ++ n ++ post)%string.
Proof.
  induction h as [|c h IH]; cbn [CStr.strstr].
  - destruct (String.prefix n "") eqn:P.
    + split; [intros _|discriminate].
      apply prefix_app in P as [post P]. now exists EmptyString, post.
    + split; [congruence|]. intros (pre & post & H). exfalso.
      destruct pre; [|discriminate]. simpl in H.
      assert (String.prefix n "" = true) by (apply prefix_app; now exists post).
      congruence.
  - destruct (String.prefix n (String c h)) eqn:P.
    + split; [intros _|discriminate].
      apply prefix_app in P as [post P]. now exists EmptyString, post.
    + rewrite IH. split; intros (pre & post & H).
      * exists (String c pre), post. simpl. now rewrite H.
      * destruct pre as [|d pre].
        -- exfalso. simpl in H.
           assert (String.prefix n (String c h) = true)
             by (apply prefix_app; now exists post).
           congruence.
        -- simpl in H. injection H as _ H. now exists pre, post.
Qed.

(** X15. [mini_server_has_mechanism] returns 0 or 1, and 1 exactly when
    the server and its connection are there, the mechanism name is not
    NULL, [sasl_listmech] succeeds and the name occurs somewhere in the
    listed text: it is a substring test, so a part of a listed name counts
    as available. *)
Theorem has_mechanism_substring (server : option MiniServer.mini_server_t)
    (mechanism : option string) (sasl_listmech : Z * string) :
  let r := MiniServer.mini_server_has_mechanism server mechanism sasl_listmech in
  (r = 0 \/ r = 1)
  /\ (r = 1 <->
      exists srv mech pre post,
        server = Some srv /\ MiniServer.conn srv = true
        /\ mechanism = Some mech
        /\ fst sasl_listmech = Sasl.SASL_OK
        /\ snd sasl_listmech = (pre ++ mech ++ post)%string).
Proof.
  unfold MiniServer.mini_server_has_mechanism.
  destruct sasl_listmech as [result mechlist]. cbn [fst snd].
  destruct server as [srv|], mechanism as [mech|];
    try (split; [now left|]; split; [discriminate|];
         intros (? & ? & ? & ? & ? & ? & ? & ?); discriminate).
  destruct (MiniServer.conn srv) eqn:C; cbn [negb].
  2: { split; [now left|]. split; [discriminate|].
       intros (? & ? & ? & ? & A & B & _). injection A as <-. congruence. }
  destruct (Z.eqb_spec result Sasl.SASL_OK) as [E|E]; cbn [negb].
  2: { split; [now left|]. split; [discriminate|].
       intros (? & ? & ? & ? & _ & _ & _ & A & _). contradiction. }
  pose proof (strstr_found mechlist mech) as S.
  destruct (CStr.strstr mechlist mech) as [p|].
  - split; [now right|]. split; [intros _|reflexivity].
    destruct S as [S _]. destruct (S ltac:(discriminate)) as (pre & post & H).
    now exists srv, mech, pre, post.
  - split; [now left|]. split; [discriminate|].
    intros (? & ? & pre & post & _ & _ & A & _ & B). injection A as <-.
    exfalso. apply (proj2 S); [now exists pre, post|reflexivity].
Qed.

Lemma has_mechanism_substring_witness :
  MiniServer.mini_server_has_mechanism
    (Some {| MiniServer.conn := true; MiniServer.mechanism_count := 2;
             MiniServer.username := None |})
    (Some "OAUTH") (Sasl.SASL_OK, "PLAIN XOAUTH2") = 1.
Proof.
  apply has_mechanism_substring.
  eexists; exists "OAUTH", "PLAIN X", "2".
  repeat split; reflexivity.
Defined.

Lemma builders_length u t :
  (exists x, TestUtils.create_xoauth2_string (Some u) (Some t) = Some x
             /\ CStr.strlen x = CStr.strlen u + CStr.strlen t + 19)
  /\ (exists o, TestUtils.create_oauthbearer_string (Some u) (Some t) = Some o
                /\ CStr.strlen o = CStr.strlen u + CStr.strlen t + 19).
Proof.
  rewrite create_xoauth2_string_text, create_oauthbearer_string_text.
  split; eexists; (split; [reflexivity|]); unfold CStr.strlen;
    rewrite !string_length_append; simpl String.length; lia.
Qed.

(** X16. [mini_client_create] returns NULL exactly when the mechanism is
    neither [XOAUTH2] nor [OAUTHBEARER] (compared with their case), the
    username or the token is NULL, or [sasl_client_new] fails. A client it
    returns holds the text of the builder of its mechanism and its length,
    [strlen(username) + strlen(token) + 19]; [mini_client_authenticate]
    never answers [SASL_CONTINUE], and when the library starts with
    [SASL_OK] or [SASL_CONTINUE] it answers [SASL_OK] and hands out that
    text, whatever the library stored. *)
Theorem client_sends_built_text (mech : string) (username token : option string)
    (sasl_client_new : Z * bool) :
  (MiniClient.mini_client_create mech username token sasl_client_new = None
   <-> (mech <> "XOAUTH2" /\ mech <> "OAUTHBEARER")
       \/ username = None \/ token = None
       \/ fst sasl_client_new <> Sasl.SASL_OK)
  /\ (forall client,
        MiniClient.mini_client_create mech username token sasl_client_new = Some client ->
        exists u t,
          username = Some u /\ token = Some t
          /\ MiniClient.auth_data client
             = (if String.eqb mech "XOAUTH2"
                then TestUtils.create_xoauth2_string (Some u) (Some t)
                else TestUtils.create_oauthbearer_string (Some u) (Some t))
          /\ MiniClient.auth_data client <> None
          /\ MiniClient.auth_data_len client = CStr.strlen u + CStr.strlen t + 19
          /\ forall sasl_client_start,
               fst (MiniClient.mini_client_authenticate (Some client) sasl_client_start)
                 <> Sasl.SASL_CONTINUE
               /\ (MiniClient.conn client = true ->
                   fst sasl_client_start = Sasl.SASL_OK
                   \/ fst sasl_client_start = Sasl.SASL_CONTINUE ->
                   MiniClient.mini_client_authenticate (Some client) sasl_client_start
                   = (Sasl.SASL_OK,
                      Some (MiniClient.auth_data client,
                            MiniClient.auth_data_len client mod 2 ^ 32)))).
Proof.
  destruct sasl_client_new as [result connection]. cbn [fst].
  unfold MiniClient.mini_client_create.
  assert (A : forall client sasl_client_start,
              fst (MiniClient.mini_client_authenticate (Some client) sasl_client_start)
                <> Sasl.SASL_CONTINUE
              /\ (MiniClient.conn client = true ->
                  fst sasl_client_start = Sasl.SASL_OK
                  \/ fst sasl_client_start = Sasl.SASL_CONTINUE ->
                  MiniClient.mini_client_authenticate (Some client) sasl_client_start
                  = (Sasl.SASL_OK,
                     Some (MiniClient.auth_data client,
                           MiniClient.auth_data_len client mod 2 ^ 32)))).
  { intros client [r stored]. unfold MiniClient.mini_client_authenticate.
    cbn [fst]. destruct (MiniClient.conn client); cbn [negb].
    - split.
      + destruct (Z.eqb_spec r MiniClient.SASL_INTERACT); [discriminate|].
        destruct (Z.eqb_spec r Sasl.SASL_CONTINUE); [discriminate|].
        destruct (Z.eqb_spec r Sasl.SASL_OK); [discriminate|]. assumption.
      + intros _ [-> | ->]; reflexivity.
    - split; [discriminate|discriminate]. }
  destruct (String.eqb_spec mech "XOAUTH2") as [EX|NX];
    [|destruct (String.eqb_spec mech "OAUTHBEARER") as [EO|NO]].
  - destruct username as [u|], token as [t|];
      try (split; [split; [tauto|reflexivity]|discriminate]).
    destruct (builders_length u t) as [(x & Hx & Lx) _]. rewrite Hx.
    destruct (Z.eqb_spec result Sasl.SASL_OK) as [E|E]; cbn [negb].
    + split.
      * split; [discriminate|]. intros [[H _]|[H|[H|H]]]; congruence.
      * intros client [= <-]. exists u, t.
        split; [reflexivity|]. split; [reflexivity|].
        split; [cbn [MiniClient.auth_data]; now rewrite Hx|].
        split; [discriminate|].
        split; [exact Lx|]. intros start. apply A.
    + split; [split; [tauto|reflexivity]|discriminate].
  - destruct username as [u|], token as [t|];
      try (split; [split; [tauto|reflexivity]|discriminate]).
    destruct (builders_length u t) as [_ (o & Ho & Lo)]. rewrite Ho.
    destruct (Z.eqb_spec result Sasl.SASL_OK) as [E|E]; cbn [negb].
    + split.
      * split; [discriminate|]. intros [[_ H]|[H|[H|H]]]; congruence.
      * intros client [= <-]. exists u, t.
        split; [reflexivity|]. split; [reflexivity|].
        split; [cbn [MiniClient.auth_data]; now rewrite Ho|].
        split; [discriminate|].
        split; [exact Lo|]. intros start. apply A.
    + split; [split; [tauto|reflexivity]|discriminate].
  - split; [split; [tauto|reflexivity]|discriminate].
Qed.

Lemma client_sends_built_text_witness :
  exists client,
    MiniClient.mini_client_create "XOAUTH2" (Some "test@test.com")
      (Some "invalid.jwt.token") (Sasl.SASL_OK, true) = Some client
    /\ MiniClient.auth_data_len client = 49.
Proof.
  eexists. split; [vm_compute; reflexivity|].
  destruct (client_sends_built_text "XOAUTH2" (Some "test@test.com")
              (Some "invalid.jwt.token") (Sasl.SASL_OK, true)) as [_ H].
  destruct (H _ eq_refl) as (u & t & Eu & Et & _ & _ & L & _).
  injection Eu as <-. injection Et as <-. exact L.
Defined.

(** ** The counting macros of the unit tests *)

Lemma run_body_counts body : forall k,
  TestFramework.run_body body k
  = (returns body,
     {| TestFramework.tests_total := TestFramework.tests_total k + asserts_run body;
        TestFramework.tests_passed :=
          TestFramework.tests_passed k + asserts_run body - flag (assert_fails body);
        TestFramework.tests_failed :=
          TestFramework.tests_failed k + flag (assert_fails body) |}).
Proof.
  induction body as [|[condition|value] rest IH]; intros [total passed failed];
    cbn [TestFramework.run_body returns asserts_run assert_fails
         TestFramework.tests_total TestFramework.tests_passed
         TestFramework.tests_failed].
  - unfold flag. do 2 f_equal; lia.
  - destruct condition; cbn [negb].
    + rewrite IH. cbn [TestFramework.tests_total TestFramework.tests_passed
                       TestFramework.tests_failed].
      do 2 f_equal; lia.
    + unfold flag. do 2 f_equal; lia.
  - unfold flag. do 2 f_equal; lia.
Qed.

Lemma assert_fails_returns body : assert_fails body = true -> returns body = -1.
Proof.
  induction body as [|[[]|value] rest IH]; simpl; intros H;
    try discriminate; auto.
Qed.

Lemma asserts_run_nonneg body : 0 <= asserts_run body.
Proof.
  induction body as [|[[]|value] rest IH]; cbn [asserts_run]; lia.
Qed.

Lemma RUN_TEST_counts test_func k :
  TestFramework.RUN_TEST test_func k
  = {| TestFramework.tests_total :=
         TestFramework.tests_total k + (asserts_run test_func + 1);
       TestFramework.tests_passed :=
         TestFramework.tests_passed k
         + (asserts_run test_func - flag (assert_fails test_func)
            + flag (returns test_func =? 0));
       TestFramework.tests_failed :=
         TestFramework.tests_failed k
         + (flag (assert_fails test_func) + flag (negb (returns test_func =? 0))) |}.
Proof.
  unfold TestFramework.RUN_TEST. rewrite run_body_counts.
  destruct (returns test_func =? 0);
    cbn [TestFramework.tests_total TestFramework.tests_passed
         TestFramework.tests_failed negb flag]; f_equal; lia.
Qed.

Lemma run_tests_counts tests : forall k,
  TestFramework.run_tests tests k
  = {| TestFramework.tests_total :=
         TestFramework.tests_total k + sum (fun t => asserts_run t + 1) tests;
       TestFramework.tests_passed :=
         TestFramework.tests_passed k
         + sum (fun t => asserts_run t - flag (assert_fails t)
                         + flag (returns t =? 0)) tests;
       TestFramework.tests_failed :=
         TestFramework.tests_failed k
         + sum (fun t => flag (assert_fails t) + flag (negb (returns t =? 0))) tests |}.
Proof.
  unfold TestFramework.run_tests, sum.
  induction tests as [|t tests IH]; intros [total passed failed];
    cbn [fold_left fold_right TestFramework.tests_total
         TestFramework.tests_passed TestFramework.tests_failed].
  - f_equal; lia.
  - rewrite IH, RUN_TEST_counts.
    cbn [TestFramework.tests_total TestFramework.tests_passed
         TestFramework.tests_failed]. f_equal; lia.
Qed.

Lemma failures_zero tests :
  0 <= sum (fun t => flag (assert_fails t) + flag (negb (returns t =? 0))) tests
  /\ (sum (fun t => flag (assert_fails t) + flag (negb (returns t =? 0))) tests = 0
      <-> Forall (fun t => returns t = 0) tests).
Proof.
  unfold sum. induction tests as [|t tests [P IH]]; cbn [fold_right].
  - split; [lia|]. split; [constructor|reflexivity].
  - assert (0 <= flag (assert_fails t)) by (unfold flag; destruct (assert_fails t); lia).
    assert (0 <= flag (negb (returns t =? 0)))
      by (unfold flag; destruct (returns t =? 0); simpl; lia).
    split; [lia|]. split.
    + intros H1. constructor; [|apply IH; lia].
      destruct (Z.eqb_spec (returns t) 0); [assumption|]. simpl in *. lia.
    + intros F. inversion_clear F as [|? ? R F'].
      apply IH in F'. rewrite R. cbn [Z.eqb negb flag].
      destruct (assert_fails t) eqn:A; [apply assert_fails_returns in A; lia|].
      simpl. lia.
Qed.

(** X17. After [main] has run any list of test functions, [tests_total]
    equals [tests_passed + tests_failed] and counts every assertion that
    was evaluated plus one for every test. A test adds one to
    [tests_failed] when it stops at an assertion and one more when it
    returns non-zero, so the exit status, 0 or 1, is 0 exactly when every
    test function returns 0. *)
Theorem test_counters (tests : list (list TestFramework.statement)) :
  let exit := fst (TestFramework.main tests) in
  let k := snd (TestFramework.main tests) in
  TestFramework.tests_total k
    = TestFramework.tests_passed k + TestFramework.tests_failed k
  /\ TestFramework.tests_total k = sum (fun t => asserts_run t + 1) tests
  /\ TestFramework.tests_failed k
     = sum (fun t => flag (assert_fails t) + flag (negb (returns t =? 0))) tests
  /\ (exit = 0 \/ exit = 1)
  /\ (exit = 0 <-> Forall (fun t => returns t = 0) tests).
Proof.
  unfold TestFramework.main. cbn [fst snd]. rewrite run_tests_counts.
  cbn [TestFramework.tests_total TestFramework.tests_passed
       TestFramework.tests_failed].
  destruct (failures_zero tests) as [P Z0].
  split; [|split; [lia|split; [lia|split]]].
  - clear. unfold sum. induction tests as [|t tests IH]; cbn [fold_right]; [lia|].
    destruct (returns t =? 0); cbn [negb flag]; lia.
  - destruct (_ <? _); auto.
  - rewrite <- Z0. rewrite Z.add_0_l.
    destruct (Z.ltb_spec 0 (sum (fun t => flag (assert_fails t)
                                          + flag (negb (returns t =? 0))) tests));
      split; intros; lia.
Qed.
